(** * ipblocker: the domain-match engine and its policy-state manager

    A shallow embedding of the CoreDNS [ipblocker] plugin
    (packages [dnslookup], [restapi] and the plugin shim) together with
    the properties of its label trie, list store, client registry, policy
    evaluator and control-plane handlers.

    Conventions of the embedding:
    - Go strings are byte strings ([string]); the functions of Go's
      [strings] package are modelled on ASCII input, which is what list
      files and DNS names contain.
    - Go maps are [gmap]s; [for k, v := range m] is a [map_fold].
    - A [*Node] trie is a tree: every node is allocated by [NewNode] and
      stored under exactly one parent, so the pointer structure is the
      inductive type [Node].
    - The read/write mutex and the calls to [log.Printf] have no effect on
      results and are left out.
    - The file system is a map from cleaned paths to what is there, a
      regular file or a directory; symbolic links are not modelled, and
      the limits on a path are those of Linux. *)

From Stdlib Require Import ZArith Ascii String.
From stdpp Require Import gmap strings list fin_maps.


(** ** Go's [strings] package, as far as the plugin uses it *)

Module gostrings.

(** [unicode.ToLower] on one ASCII byte. *)
Definition lowerByte (c : ascii) : ascii :=
  let n := nat_of_ascii c in
  if (65 <=? n)%nat && (n <=? 90)%nat then ascii_of_nat (n + 32) else c.

(** [strings.ToLower]. *)
Fixpoint ToLower (s : string) : string :=
  match s with
  | EmptyString => EmptyString
  | String c s' => String (lowerByte c) (ToLower s')
  end.

(** [strings.Split(s, sep)] for a separator of one byte: the pieces
    between the separators, never an empty slice. *)
Fixpoint Split (s : string) (sep : ascii) : list string :=
  match s with
  | EmptyString => [EmptyString]
  | String c s' =>
      if decide (c = sep) then EmptyString :: Split s' sep
      else match Split s' sep with
           | [] => [String c EmptyString]
           | p :: ps => String c p :: ps
           end
  end.

(** [strings.Join(elems, sep)]. *)
Fixpoint Join (elems : list string) (sep : string) : string :=
  match elems with
  | [] => EmptyString
  | [e] => e
  | e :: rest => e +:+ sep +:+ Join rest sep
  end.

(** [strings.Index(s, sep)] for a separator of one byte: the position of
    its first occurrence, or [-1]. *)
Fixpoint Index (s : string) (sep : ascii) : Z :=
  match s with
  | EmptyString => (-1)%Z
  | String c s' =>
      if decide (c = sep) then 0%Z
      else let i := Index s' sep in
           if (i <? 0)%Z then (-1)%Z else (i + 1)%Z
  end.

(** [strings.HasPrefix(s, prefix)] for a prefix of one byte. *)
Definition HasPrefix (s : string) (prefix : ascii) : bool :=
  match s with
  | EmptyString => false
  | String c _ => bool_decide (c = prefix)
  end.

Fixpoint trimLeft (cut : ascii → bool) (s : string) : string :=
  match s with
  | EmptyString => EmptyString
  | String c s' => if cut c then trimLeft cut s' else s
  end.

Fixpoint trimRight (cut : ascii → bool) (s : string) : string :=
  match s with
  | EmptyString => EmptyString
  | String c s' =>
      match trimRight cut s' with
      | EmptyString => if cut c then EmptyString else String c EmptyString
      | r => String c r
      end
  end.

(** [unicode.IsSpace] on ASCII: tab, newline, vertical tab, form feed,
    carriage return and space. *)
Definition isSpace (c : ascii) : bool :=
  let n := nat_of_ascii c in
  ((9 <=? n)%nat && (n <=? 13)%nat) || (n =? 32)%nat.

(** [strings.TrimSpace]. *)
Definition TrimSpace (s : string) : string :=
  trimRight isSpace (trimLeft isSpace s).

Fixpoint inCutset (cutset : string) (c : ascii) : bool :=
  match cutset with
  | EmptyString => false
  | String k rest => bool_decide (c = k) || inCutset rest c
  end.

(** [strings.Trim(s, cutset)]. *)
Definition Trim (s : string) (cutset : string) : string :=
  trimRight (inCutset cutset) (trimLeft (inCutset cutset) s).

End gostrings.

(** ** Go's [path/filepath] package on Unix, as far as the plugin uses it *)

Module gofilepath.
Import gostrings.

(** The loop of [filepath.Clean] over the elements of a path: an empty
    element and [.] are dropped, [..] takes the element before it away,
    stays when the path is not rooted and nothing but [..] is before it,
    and is dropped at the root.  [out] is the cleaned path so far, its
    last element first. *)
Fixpoint cleanElements (rooted : bool) (out elements : list string)
  : list string :=
  match elements with
  | [] => reverse out
  | element :: rest =>
      if decide (element = "") then cleanElements rooted out rest
      else if decide (element = ".") then cleanElements rooted out rest
      else if decide (element = "..") then
        match out with
        | last :: before =>
            if decide (last = "..") then cleanElements rooted (".." :: out) rest
            else cleanElements rooted before rest
        | [] =>
            if rooted then cleanElements rooted [] rest
            else cleanElements rooted [".."] rest
        end
      else cleanElements rooted (element :: out) rest
  end.

(** [filepath.Clean]. *)
Definition Clean (path : string) : string :=
  let rooted := HasPrefix path "/" in
  let out := Join (cleanElements rooted [] (Split path "/")) "/" in
  if rooted then "/" +:+ out
  else if decide (out = "") then "." else out.

(** [filepath.Dir]: the path up to its last separator, cleaned. *)
Definition Dir (path : string) : string :=
  match reverse (Split path "/") with
  | _ :: (_ :: _) as before => Clean (Join (reverse before) "/" +:+ "/")
  | _ => "."
  end.

End gofilepath.

(** ** Package [dnslookup]: the label trie *)

Module dnslookup.
Import gostrings.

(** [Node]: a node of the trie, one label of a domain. *)
#[warnings="-register-all"]
Inductive Node : Type :=
  mkNode {
    Children : gmap string Node;     (* child nodes, by next label *)
    IsEndpoint : bool;               (* a rule ends here *)
    Exceptions : gmap string bool    (* excepted subdomain labels *)
  }.

(** [NewNode]. *)
Definition NewNode : Node := mkNode ∅ false ∅.

(** [ReverseDomainParts]: ["mail.google.com"] gives [com; google; mail]. *)
Definition ReverseDomainParts (domain : string) : list string :=
  reverse (Split (ToLower domain) ".").

(** The body of [ParseDomainWithExceptions]'s loop over [parts[1:]]. *)
Fixpoint collectExceptions (parts : list string) : list string :=
  match parts with
  | [] => []
  | part :: rest =>
      let exPart := Trim (TrimSpace part) ", " in
      if decide (exPart = "") then collectExceptions rest
      else exPart :: collectExceptions rest
  end.

(** [ParseDomainWithExceptions]: it has no error result. *)
Definition ParseDomainWithExceptions (entry : string) : string * list string :=
  if (0 <? Index entry "!")%Z then
    match Split entry "!" with
    | [] => (entry, [])
    | first :: others => (TrimSpace first, collectExceptions others)
    end
  else (entry, []).

(** The two loops of [InsertDomain]: the walk that creates missing nodes,
    and the marking of the terminal node. *)
Definition addExceptions (m : gmap string bool) (exceptions : list string)
  : gmap string bool :=
  foldl (λ acc exception, <[exception := true]> acc) m exceptions.

Fixpoint insertParts (currentNode : Node) (parts : list string)
    (exceptions : list string) : Node :=
  match parts with
  | [] =>
      mkNode (Children currentNode) true
             (addExceptions (Exceptions currentNode) exceptions)
  | part :: rest =>
      let child := default NewNode (Children currentNode !! part) in
      mkNode (<[part := insertParts child rest exceptions]> (Children currentNode))
             (IsEndpoint currentNode) (Exceptions currentNode)
  end.

(** [InsertDomain]. *)
Definition InsertDomain (root : Node) (domain : string)
    (exceptions : list string) : Node :=
  insertParts root (ReverseDomainParts domain) exceptions.

(** The loop of [IsDomainBlocked]; [parts[i+1]], when [i+1 < len(parts)],
    is the head of the labels that remain. *)
Fixpoint matchParts (currentNode : Node) (parts : list string) : bool :=
  match parts with
  | [] => false
  | part :: rest =>
      match Children currentNode !! part with
      | None => false
      | Some child =>
          if IsEndpoint child then
            match rest with
            | next :: _ =>
                if default false (Exceptions child !! next) then false else true
            | [] => true
            end
          else matchParts child rest
      end
  end.

(** [IsDomainBlocked]. *)
Definition IsDomainBlocked (root : Node) (domain : string) : bool :=
  matchParts root (ReverseDomainParts domain).

(** [IsDomainAllowed]: the same logic. *)
Definition IsDomainAllowed (root : Node) (domain : string) : bool :=
  IsDomainBlocked root domain.

(** *** Enumeration *)

(** [FormatDomainWithExceptions]. *)
Definition FormatDomainWithExceptions (domain : string)
    (exceptions : list string) : string :=
  match exceptions with
  | [] => domain
  | first :: others =>
      foldl (λ result exception, result +:+ ", !" +:+ exception)
            (domain +:+ " !" +:+ first) others
  end.

(** The keys of a Go map, in the order [range] visits them. *)
Definition mapKeys {A} (m : gmap string A) : list string :=
  (map_to_list m).*1.

(** [extractDomainsFromTrie]; [result] is the slice the Go function
    appends to.  A child of a node is never [nil]. *)
Fixpoint extractDomainsFromTrie (node : Node) (prefix : list string)
    (result : list string) : list string :=
  let result :=
    if IsEndpoint node then
      let domain := Join (reverse prefix) "." in
      let domain :=
        if decide (0 < size (Exceptions node))
        then FormatDomainWithExceptions domain (mapKeys (Exceptions node))
        else domain in
      result ++ [domain]
    else result in
  map_fold (λ part child result,
              extractDomainsFromTrie child (prefix ++ [part]) result)
           result (Children node).

(** *** List files *)

(** Go's [error]: [None] is [nil]. *)
Definition error : Type := option string.

Record ClientConfig : Type := mkClientConfig {
  IP : string;                   (* only for output *)
  BlocklistRefs : list string;
  WhitelistRefs : list string;
  Mode : string                  (* "blocklist" or "whitelist" *)
}.

(** The disk.  [Files] says what is at a path: a list file is text, the
    client document is JSON, kept here as the map it encodes, and a
    directory has an entry of its own.  The root, the working directory
    and the directories above it exist without an entry.
    [Writable] says whether the file system accepts creations, writes and
    removals at all; [Now] is the clock reading, already in RFC 3339. *)
Inductive FileData : Type :=
| TextFile (content : string)
| ClientsFile (clients : gmap string ClientConfig)
| Directory.

Record Disk : Type := mkDisk {
  Files : gmap string FileData;
  Writable : bool;
  Now : string
}.

Definition writeFile (fs : Disk) (path : string) (data : FileData) : Disk :=
  mkDisk (<[path := data]> (Files fs)) (Writable fs) (Now fs).

Definition removeFile (fs : Disk) (path : string) : Disk :=
  mkDisk (delete path (Files fs)) (Writable fs) (Now fs).

(** [filepath.Join] of a directory and a file name: empty elements are
    left out and the result is cleaned. *)
Definition filepathJoin (dir name : string) : string :=
  if decide (dir ≠ "") then gofilepath.Clean (dir +:+ "/" +:+ name)
  else if decide (name ≠ "") then gofilepath.Clean name
  else "".

(** The elements of a path. *)
Definition pathElements (path : string) : list string :=
  filter (λ element, element ≠ "") (Split path "/").

(** The directories that every disk has: the root, the working directory
    and what is above it. *)
Definition alwaysDirectory (path : string) : bool :=
  bool_decide (path = "/") || bool_decide (path = ".") ||
  (negb (HasPrefix path "/") && bool_decide (pathElements path ≠ []) &&
   forallb (λ element, bool_decide (element = "..")) (pathElements path)).

Definition isDirectory (fs : Disk) (path : string) : bool :=
  alwaysDirectory path ||
  match Files fs !! path with
  | Some Directory => true
  | _ => false
  end.

Fixpoint hasNUL (s : string) : bool :=
  match s with
  | EmptyString => false
  | String c rest => bool_decide (c = "000"%char) || hasNUL rest
  end.

(** The limits of Linux on a path: it is not empty, holds no NUL byte,
    has fewer than [PATH_MAX] bytes, and none of its elements has more
    than [NAME_MAX]. *)
Definition pathAllowed (path : string) : bool :=
  negb (bool_decide (path = "")) && negb (hasNUL path) &&
  (Z.of_nat (String.length path) <? 4096)%Z &&
  forallb (λ element, (Z.of_nat (String.length element) <=? 255)%Z)
          (pathElements path).

(** [os.Create] and the writes that follow it: the path must not be a
    directory and must lie in one. *)
Definition createFile (fs : Disk) (path : string) (data : FileData)
  : error * Disk :=
  if negb (pathAllowed path) then (Some "invalid argument", fs)
  else if isDirectory fs path then (Some "is a directory", fs)
  else if negb (isDirectory fs (gofilepath.Dir path)) then
    (Some "no such file or directory", fs)
  else if negb (Writable fs) then (Some "read-only file system", fs)
  else (None, writeFile fs path data).

(** The paths of the directories from the top down to [path]. *)
Definition pathPrefixes (path : string) : list string :=
  (λ k, (if HasPrefix path "/" then "/" else "") +:+
        Join (take k (pathElements path)) "/")
  <$> seq 1 (length (pathElements path)).

(** [os.Mkdir] where the directory above exists. *)
Definition mkdir (fs : Disk) (path : string) : error * Disk :=
  if isDirectory fs path then (None, fs)
  else
    match Files fs !! path with
    | Some _ => (Some "not a directory", fs)
    | None =>
        if negb (pathAllowed path) then (Some "invalid argument", fs)
        else if negb (Writable fs) then (Some "read-only file system", fs)
        else (None, writeFile fs path Directory)
    end.

(** [os.MkdirAll]: the directory and those above it are made where they
    are missing. *)
Definition MkdirAll (fs : Disk) (path : string) : error * Disk :=
  if decide (path = "") then (Some "no such file or directory", fs)
  else
    foldl (λ '(err, fs) dir,
             match err with
             | Some _ => (err, fs)
             | None => mkdir fs dir
             end)
          (None, fs) (pathPrefixes (gofilepath.Clean path)).

(** Is something in the directory [path]. *)
Definition hasEntry (fs : Disk) (path : string) : bool :=
  existsb (λ other, bool_decide (other ≠ path) &&
                    bool_decide (gofilepath.Dir other = path))
          (map_to_list (Files fs)).*1.

(** [os.Remove]: a file, or a directory that is empty; the caller only
    logs a failure. *)
Definition removePath (fs : Disk) (path : string) : Disk :=
  if Writable fs then
    match Files fs !! path with
    | Some Directory => if hasEntry fs path then fs else removeFile fs path
    | Some _ => removeFile fs path
    | None => fs
    end
  else fs.

Definition newline : string := String "010" EmptyString.

(** A trailing carriage return is not part of a scanned line. *)
Fixpoint dropCR (line : string) : string :=
  match line with
  | EmptyString => EmptyString
  | String c EmptyString => if decide (c = "013"%char) then EmptyString else line
  | String c rest => String c (dropCR rest)
  end.

(** [bufio.ScanLines] over a whole file: the text between newlines; an
    empty last line is no line. *)
Fixpoint dropFinalEmpty (pieces : list string) : list string :=
  match pieces with
  | [] => []
  | [EmptyString] => []
  | piece :: rest => piece :: dropFinalEmpty rest
  end.

Definition ScanLines (content : string) : list string :=
  dropCR <$> dropFinalEmpty (Split content "010").

(** One iteration of the scanning loop of [LoadDomainList]. *)
Definition loadLine (root : Node) (text : string) : Node :=
  let line := TrimSpace text in
  if decide (line = "") then root
  else if HasPrefix line "#" then root
  else
    let '(domain, exceptions) := ParseDomainWithExceptions line in
    InsertDomain root domain exceptions.

(** [bufio.MaxScanTokenSize]. *)
Definition MaxScanTokenSize : Z := 65536.

(** The scanner of [bufio] stops with [ErrTooLong] at a line that does
    not fit its buffer, which has to hold the line and a byte more. *)
Definition tokenTooLong (content : string) : bool :=
  existsb (λ piece, (MaxScanTokenSize <=? Z.of_nat (String.length piece))%Z)
          (Split content "010").

(** [LoadDomainList]: [inr] is the error of a file that cannot be opened
    or cannot be read to its end. *)
Definition LoadDomainList (fs : Disk) (filename : string) : Node + string :=
  match Files fs !! filename with
  | Some (TextFile content) =>
      if tokenTooLong content then
        inr ("error reading file " +:+ filename +:+
             ": bufio.Scanner: token too long")
      else inl (foldl loadLine NewNode (ScanLines content))
  | Some Directory =>
      inr ("error reading file " +:+ filename +:+ ": is a directory")
  | Some (ClientsFile _) => inr ("error opening file " +:+ filename)
  | None =>
      if alwaysDirectory filename then
        inr ("error reading file " +:+ filename +:+ ": is a directory")
      else inr ("error opening file " +:+ filename)
  end.

(** *** The filter and its clients *)

Record ListContent : Type := mkListContent {
  Name : string;
  Type_ : string;                (* "blocklist" or "whitelist" *)
  Domains : list string
}.

Record DNSFilter : Type := mkDNSFilter {
  ConfigPath : string;
  BlocklistDir : string;
  WhitelistDir : string;
  BlocklistTries : gmap string Node;
  WhitelistTries : gmap string Node;
  Clients : gmap string ClientConfig
}.

(** [NewDNSFilter]. *)
Definition NewDNSFilter (configPath blocklistDir whitelistDir : string)
  : DNSFilter :=
  mkDNSFilter configPath blocklistDir whitelistDir ∅ ∅ ∅.

(** The tries of one list type; [None] for an invalid type (the
    [if "blocklist" / else if "whitelist" / else] of every operation). *)
Definition triesOf (df : DNSFilter) (listType : string)
  : option (gmap string Node) :=
  if decide (listType = "blocklist") then Some (BlocklistTries df)
  else if decide (listType = "whitelist") then Some (WhitelistTries df)
  else None.

(** The assignment [df.BlocklistTries[name] = root] or
    [df.WhitelistTries[name] = root], chosen as the operations do once the
    type is known to be valid. *)
Definition storeTrie (df : DNSFilter) (listType listName : string)
    (root : Node) : DNSFilter :=
  if decide (listType = "blocklist") then
    mkDNSFilter (ConfigPath df) (BlocklistDir df) (WhitelistDir df)
      (<[listName := root]> (BlocklistTries df)) (WhitelistTries df) (Clients df)
  else
    mkDNSFilter (ConfigPath df) (BlocklistDir df) (WhitelistDir df)
      (BlocklistTries df) (<[listName := root]> (WhitelistTries df)) (Clients df).

Definition dropTrie (df : DNSFilter) (listType listName : string) : DNSFilter :=
  if decide (listType = "blocklist") then
    mkDNSFilter (ConfigPath df) (BlocklistDir df) (WhitelistDir df)
      (delete listName (BlocklistTries df)) (WhitelistTries df) (Clients df)
  else
    mkDNSFilter (ConfigPath df) (BlocklistDir df) (WhitelistDir df)
      (BlocklistTries df) (delete listName (WhitelistTries df)) (Clients df).

Definition setClients (df : DNSFilter) (clients : gmap string ClientConfig)
  : DNSFilter :=
  mkDNSFilter (ConfigPath df) (BlocklistDir df) (WhitelistDir df)
    (BlocklistTries df) (WhitelistTries df) clients.

(** [SaveClientConfig].  The path of the document is fixed when the plugin
    is set up (a regular file under the root), so that its directory
    exists and [os.Create] fails only on a disk that takes no write. *)
Definition SaveClientConfig (df : DNSFilter) (fs : Disk) : error * Disk :=
  if Writable fs then
    (None, writeFile fs (ConfigPath df) (ClientsFile (Clients df)))
  else
    (Some "error creating client configuration file: read-only file system", fs).

(** The text [SaveDomainList] writes: the two header lines, an empty
    line, and one line per domain. *)
Definition fileHeader (now : string) : string :=
  "# Automatically generated list" +:+ newline +:+
  "# Last update: " +:+ now +:+ newline +:+ newline.

Definition listFileText (now : string) (domains : list string) : string :=
  foldl (λ text domain, text +:+ domain +:+ newline) (fileHeader now) domains.

(** [SaveDomainList]. *)
Definition SaveDomainList (df : DNSFilter) (listName listType : string)
    (domains : list string) (fs : Disk) : error * Disk :=
  let dir :=
    if decide (listType = "blocklist") then Some (BlocklistDir df)
    else if decide (listType = "whitelist") then Some (WhitelistDir df)
    else None in
  match dir with
  | None => (Some ("invalid list type: " +:+ listType), fs)
  | Some dirPath =>
      match MkdirAll fs dirPath with
      | (Some err, fs) =>
          (Some ("error creating directory " +:+ dirPath +:+ ": " +:+ err), fs)
      | (None, fs) =>
          let filePath := filepathJoin dirPath listName in
          match createFile fs filePath
                           (TextFile (listFileText (Now fs) domains)) with
          | (Some err, fs) =>
              (Some ("error creating list file " +:+ filePath +:+ ": " +:+ err),
               fs)
          | (None, fs) => (None, fs)
          end
      end
  end.

(** The loop [for _, domainEntry := range domains] that parses and
    inserts, shared by [CreateList], [UpdateList] and [AddDomains]. *)
Definition insertEntries (root : Node) (domains : list string) : Node :=
  foldl (λ root domainEntry,
           let '(domain, exceptions) := ParseDomainWithExceptions domainEntry in
           InsertDomain root domain exceptions)
        root domains.

(** [GetListContent]. *)
Definition GetListContent (df : DNSFilter) (listName listType : string)
  : ListContent + string :=
  match triesOf df listType with
  | None => inr ("invalid list type: " +:+ listType)
  | Some tries =>
      match tries !! listName with
      | None => inr ("list not found: " +:+ listName)
      | Some trie =>
          inl (mkListContent listName listType (extractDomainsFromTrie trie [] []))
      end
  end.

(** [CreateList]. *)
Definition CreateList (list : ListContent) (df : DNSFilter) (fs : Disk)
  : error * DNSFilter * Disk :=
  match triesOf df (Type_ list) with
  | None => (Some ("invalid list type: " +:+ Type_ list), df, fs)
  | Some tries =>
      match tries !! Name list with
      | Some _ => (Some (Type_ list +:+ " already exists: " +:+ Name list), df, fs)
      | None =>
          let root := insertEntries NewNode (Domains list) in
          let df := storeTrie df (Type_ list) (Name list) root in
          let '(err, fs) := SaveDomainList df (Name list) (Type_ list) (Domains list) fs in
          (err, df, fs)
      end
  end.

(** [UpdateList]. *)
Definition UpdateList (list : ListContent) (df : DNSFilter) (fs : Disk)
  : error * DNSFilter * Disk :=
  match triesOf df (Type_ list) with
  | None => (Some ("invalid list type: " +:+ Type_ list), df, fs)
  | Some tries =>
      match tries !! Name list with
      | None => (Some ("list not found: " +:+ Name list), df, fs)
      | Some _ =>
          let root := insertEntries NewNode (Domains list) in
          let df := storeTrie df (Type_ list) (Name list) root in
          let '(err, fs) := SaveDomainList df (Name list) (Type_ list) (Domains list) fs in
          (err, df, fs)
      end
  end.

(** [removeFromSlice]. *)
Fixpoint removeFromSlice (slice : list string) (item : string) : list string :=
  match slice with
  | [] => []
  | s :: rest =>
      if decide (s ≠ item) then s :: removeFromSlice rest item
      else removeFromSlice rest item
  end.

(** The body of the loop of [removeListReferencesFromClients] for one
    client: the new configuration and [clientUpdated]. *)
Definition stripReference (listName listType : string) (config : ClientConfig)
  : ClientConfig * bool :=
  if decide (listType = "blocklist") then
    let newBlocklists := removeFromSlice (BlocklistRefs config) listName in
    if decide (length newBlocklists ≠ length (BlocklistRefs config)) then
      (mkClientConfig (IP config) newBlocklists (WhitelistRefs config) (Mode config), true)
    else (config, false)
  else
    let newWhitelists := removeFromSlice (WhitelistRefs config) listName in
    if decide (length newWhitelists ≠ length (WhitelistRefs config)) then
      (mkClientConfig (IP config) (BlocklistRefs config) newWhitelists (Mode config), true)
    else (config, false).

(** [removeListReferencesFromClients]: the loop writes back into
    [df.Clients] under the key it is visiting. *)
Definition removeListReferencesFromClients (listName listType : string)
    (df : DNSFilter) (fs : Disk) : DNSFilter * Disk :=
  let '(clients, updated) :=
    map_fold (λ ip config '(clients, updated),
                let '(config, clientUpdated) := stripReference listName listType config in
                if clientUpdated then (<[ip := config]> clients, true)
                else (clients, updated))
             (Clients df, false) (Clients df) in
  let df := setClients df clients in
  if updated then (df, (SaveClientConfig df fs).2)  (* a failure is logged *)
  else (df, fs).

(** [DeleteList]. *)
Definition DeleteList (listName listType : string) (df : DNSFilter) (fs : Disk)
  : error * DNSFilter * Disk :=
  match triesOf df listType with
  | None => (Some ("invalid list type: " +:+ listType), df, fs)
  | Some tries =>
      match tries !! listName with
      | None => (Some ("list not found: " +:+ listName), df, fs)
      | Some _ =>
          let df := dropTrie df listType listName in
          let dirPath :=
            if decide (listType = "blocklist") then BlocklistDir df
            else WhitelistDir df in
          let '(df, fs) := removeListReferencesFromClients listName listType df fs in
          let filePath := filepathJoin dirPath listName in
          let fs := removePath fs filePath in
          (None, df, fs)
      end
  end.

(** [AddDomains]: the trie of the list is changed in place. *)
Definition AddDomains (listName listType : string) (domains : list string)
    (df : DNSFilter) (fs : Disk) : error * DNSFilter * Disk :=
  match triesOf df listType with
  | None => (Some ("invalid list type: " +:+ listType), df, fs)
  | Some tries =>
      match tries !! listName with
      | None => (Some ("list not found: " +:+ listName), df, fs)
      | Some trie =>
          let trie := insertEntries trie domains in
          let df := storeTrie df listType listName trie in
          let allDomains := extractDomainsFromTrie trie [] [] in
          let '(err, fs) := SaveDomainList df listName listType allDomains fs in
          (err, df, fs)
      end
  end.

(** The map [domainsToRemove] of [RemoveDomains]. *)
Definition removalSet (domains : list string) : gmap string bool :=
  foldl (λ domainsToRemove domain,
           <[(ParseDomainWithExceptions domain).1 := true]> domainsToRemove)
        ∅ domains.

(** The loop of [RemoveDomains] over the current entries: the new root
    and [remainingDomains]. *)
Definition keepRemaining (domainsToRemove : gmap string bool)
    (currentDomains : list string) : Node * list string :=
  foldl (λ '(root, remainingDomains) domainEntry,
           let '(baseDomain, exceptions) := ParseDomainWithExceptions domainEntry in
           if default false (domainsToRemove !! baseDomain)
           then (root, remainingDomains)
           else (InsertDomain root baseDomain exceptions,
                 remainingDomains ++ [domainEntry]))
        (NewNode, []) currentDomains.

(** [RemoveDomains]. *)
Definition RemoveDomains (listName listType : string) (domains : list string)
    (df : DNSFilter) (fs : Disk) : error * DNSFilter * Disk :=
  match triesOf df listType with
  | None => (Some ("invalid list type: " +:+ listType), df, fs)
  | Some tries =>
      match tries !! listName with
      | None => (Some ("list not found: " +:+ listName), df, fs)
      | Some trie =>
          let currentDomains := extractDomainsFromTrie trie [] [] in
          let domainsToRemove := removalSet domains in
          let '(root, remainingDomains) := keepRemaining domainsToRemove currentDomains in
          let df := storeTrie df listType listName root in
          let '(err, fs) := SaveDomainList df listName listType remainingDomains fs in
          (err, df, fs)
      end
  end.

(** *** Clients *)

(** [GetClientByIP]: a copy of the stored configuration, with [IP] set. *)
Definition GetClientByIP (df : DNSFilter) (ip : string) : ClientConfig + string :=
  match Clients df !! ip with
  | None => inr ("client not found: " +:+ ip)
  | Some config =>
      inl (mkClientConfig ip (BlocklistRefs config) (WhitelistRefs config) (Mode config))
  end.

(** The two loops of [validateListReferences]. *)
Fixpoint firstMissing (tries : gmap string Node) (refs : list string)
  : option string :=
  match refs with
  | [] => None
  | listName :: rest =>
      match tries !! listName with
      | None => Some listName
      | Some _ => firstMissing tries rest
      end
  end.

(** [validateListReferences]. *)
Definition validateListReferences (df : DNSFilter) (client : ClientConfig) : error :=
  match firstMissing (BlocklistTries df) (BlocklistRefs client) with
  | Some listName => Some ("referenced blocklist not found: " +:+ listName)
  | None =>
      match firstMissing (WhitelistTries df) (WhitelistRefs client) with
      | Some listName => Some ("referenced whitelist not found: " +:+ listName)
      | None => None
      end
  end.

(** The checks and the store shared by [CreateClient] and [UpdateClient],
    after the test on the presence of the client.  The store is into an
    allocated map: [NewDNSFilter] and a successful [Initialize] allocate
    [df.Clients], and a map that holds a client is allocated.  The [nil]
    map that a failed [Initialize] leaves reads as the empty map, and a
    store into it, which panics in Go, is outside this model: the success
    of [CreateClient] is stated for a registry that holds a client. *)
Definition putClient (client : ClientConfig) (df : DNSFilter) (fs : Disk)
  : error * DNSFilter * Disk :=
  match validateListReferences df client with
  | Some err => (Some err, df, fs)
  | None =>
      if decide (Mode client ≠ "blocklist" ∧ Mode client ≠ "whitelist") then
        (Some ("invalid mode: " +:+ Mode client), df, fs)
      else
        let config :=
          mkClientConfig "" (BlocklistRefs client) (WhitelistRefs client) (Mode client) in
        let df := setClients df (<[IP client := config]> (Clients df)) in
        let '(err, fs) := SaveClientConfig df fs in
        (err, df, fs)
  end.

(** [CreateClient]. *)
Definition CreateClient (client : ClientConfig) (df : DNSFilter) (fs : Disk)
  : error * DNSFilter * Disk :=
  match Clients df !! IP client with
  | Some _ => (Some ("client already exists: " +:+ IP client), df, fs)
  | None => putClient client df fs
  end.

(** [UpdateClient]. *)
Definition UpdateClient (client : ClientConfig) (df : DNSFilter) (fs : Disk)
  : error * DNSFilter * Disk :=
  match Clients df !! IP client with
  | None => (Some ("client not found: " +:+ IP client), df, fs)
  | Some _ => putClient client df fs
  end.

(** [DeleteClient]. *)
Definition DeleteClient (ip : string) (df : DNSFilter) (fs : Disk)
  : error * DNSFilter * Disk :=
  match Clients df !! ip with
  | None => (Some ("client not found: " +:+ ip), df, fs)
  | Some _ =>
      let df := setClients df (delete ip (Clients df)) in
      let '(err, fs) := SaveClientConfig df fs in
      (err, df, fs)
  end.

(** *** The policy evaluator *)

(** The loop over the referenced lists in [CheckDomain]: [true] as soon
    as a loaded list matches; a reference without a trie is skipped. *)
Fixpoint anyListMatches (tries : gmap string Node) (refs : list string)
    (domain : string) : bool :=
  match refs with
  | [] => false
  | listName :: rest =>
      match tries !! listName with
      | None => anyListMatches tries rest domain
      | Some trie =>
          if IsDomainBlocked trie domain then true
          else anyListMatches tries rest domain
      end
  end.

(** [CheckDomain]: [true] allows, [false] denies. *)
Definition CheckDomain (df : DNSFilter) (clientIP domain : string) : bool :=
  match Clients df !! clientIP with
  | None => false
  | Some config =>
      if decide (Mode config = "blocklist") then
        if anyListMatches (BlocklistTries df) (BlocklistRefs config) domain
        then false else true
      else if decide (Mode config = "whitelist") then
        if anyListMatches (WhitelistTries df) (WhitelistRefs config) domain
        then true else false
      else false
  end.

(** *** Counting, start-up and the listing of clients *)

(** [countDomainsInTrie]; the count stays far below the range of [int],
    one unit per node in memory. *)
Fixpoint countDomainsInTrie (node : Node) : nat :=
  let count := if IsEndpoint node then 1 else 0 in
  map_fold (λ _ child count, count + countDomainsInTrie child)
           count (Children node).

(** [LoadClientConfig]: a file that does not exist is an empty registry;
    a file that is not the JSON document, and a directory, is a parsing
    error. *)
Definition LoadClientConfig (fs : Disk) (filename : string)
  : gmap string ClientConfig + string :=
  match Files fs !! filename with
  | None => inl ∅
  | Some (ClientsFile clients) => inl clients
  | Some (TextFile _) => inr "error parsing client configuration"
  | Some Directory => inr "error parsing client configuration"
  end.

(** [mapKeysToSlice]. *)
Definition mapKeysToSlice (m : gmap string bool) : list string :=
  (map_to_list m).*1.

(** [collectUniqueListFiles]. *)
Definition collectUniqueListFiles (df : DNSFilter) : list string * list string :=
  let '(blocklistsMap, whitelistsMap) :=
    map_fold (λ _ config '(blocklistsMap, whitelistsMap),
                (foldl (λ m list, <[list := true]> m) blocklistsMap
                       (BlocklistRefs config),
                 foldl (λ m list, <[list := true]> m) whitelistsMap
                       (WhitelistRefs config)))
             (∅, ∅) (Clients df) in
  (mapKeysToSlice blocklistsMap, mapKeysToSlice whitelistsMap).

(** The loops of [Initialize] that load the lists of one directory: a list
    that cannot be loaded is logged and left out. *)
Definition loadLists (fs : Disk) (dir : string) (lists : list string)
  : gmap string Node :=
  foldl (λ tries list,
           match LoadDomainList fs (filepathJoin dir list) with
           | inl trie => <[list := trie]> tries
           | inr _ => tries
           end)
        ∅ lists.

(** [Initialize].  [ensureDirExists] makes the two directories where they
    are missing, before the lists are loaded; a path at which a directory
    is made held nothing, so that no list loads differently, and the lists
    are loaded here from the disk as it was.  The disk is not part of the
    result.  After a failure the Go map [df.Clients] is [nil]; it reads as
    the empty map. *)
Definition Initialize (df : DNSFilter) (fs : Disk) : error * DNSFilter :=
  match LoadClientConfig fs (ConfigPath df) with
  | inr err =>
      (Some ("error loading client configuration: " +:+ err),
       mkDNSFilter (ConfigPath df) (BlocklistDir df) (WhitelistDir df) ∅ ∅ ∅)
  | inl clients =>
      let df := mkDNSFilter (ConfigPath df) (BlocklistDir df) (WhitelistDir df)
                            ∅ ∅ clients in
      let '(blocklists, whitelists) := collectUniqueListFiles df in
      (None,
       mkDNSFilter (ConfigPath df) (BlocklistDir df) (WhitelistDir df)
                   (loadLists fs (BlocklistDir df) blocklists)
                   (loadLists fs (WhitelistDir df) whitelists)
                   clients)
  end.

(** [GetAllClients]. *)
Definition GetAllClients (df : DNSFilter) : list ClientConfig :=
  map_fold (λ ip config result,
              result ++ [mkClientConfig ip (BlocklistRefs config)
                                        (WhitelistRefs config) (Mode config)])
           [] (Clients df).






End dnslookup.

(** ** Package [restapi]: the control-plane handlers *)

Module restapi.
Import dnslookup.

(** The fields a handler's decoder reads from a JSON object; a field
    that is absent has its zero value. *)
Record JSONObject : Type := mkJSONObject {
  jsonName : string;
  jsonType : string;
  jsonDomains : list string;
  jsonIP : string;
  jsonBlocklists : list string;
  jsonWhitelists : list string;
  jsonMode : string
}.

(** A request as a handler sees it: the variables of the route and the
    body, [None] when [decodeJSONRequest] fails on it. *)
Record Request : Type := mkRequest {
  varType : string;
  varName : string;
  varIP : string;
  varDomain : string;
  RequestBody : option JSONObject
}.

Inductive Payload : Type :=
| ErrorResponse (Error : string)
| ListBody (list : ListContent)
| ClientBody (client : ClientConfig)
| DNSCheckResponse (ClientIP Domain : string) (Allowed : bool)
| EmptyObject
| NoBody.

Record Response : Type := mkResponse {
  StatusCode : Z;
  Body : Payload
}.

Definition StatusOK : Z := 200.
Definition StatusCreated : Z := 201.
Definition StatusNoContent : Z := 204.
Definition StatusBadRequest : Z := 400.
Definition StatusNotFound : Z := 404.

(** [sendErrorResponse]. *)
Definition sendErrorResponse (message : string) (statusCode : Z) : Response :=
  mkResponse statusCode (ErrorResponse message).

(** [sendJSONResponse]. *)
Definition sendJSONResponse (data : Payload) (statusCode : Z) : Response :=
  mkResponse statusCode data.

Definition validListType (listType : string) : bool :=
  bool_decide (listType = "blocklist") || bool_decide (listType = "whitelist").

(** [getListContent]. *)
Definition getListContent (r : Request) (df : DNSFilter) (fs : Disk)
  : Response * DNSFilter * Disk :=
  if negb (validListType (varType r)) then
    (sendErrorResponse "Invalid list type" StatusBadRequest, df, fs)
  else
    match GetListContent df (varName r) (varType r) with
    | inr err => (sendErrorResponse err StatusNotFound, df, fs)
    | inl content => (sendJSONResponse (ListBody content) StatusOK, df, fs)
    end.

(** [createList]. *)
Definition createList (r : Request) (df : DNSFilter) (fs : Disk)
  : Response * DNSFilter * Disk :=
  if negb (validListType (varType r)) then
    (sendErrorResponse "Invalid list type" StatusBadRequest, df, fs)
  else
    match RequestBody r with
    | None => (sendErrorResponse "Invalid JSON format" StatusBadRequest, df, fs)
    | Some o =>
        let newList := mkListContent (jsonName o) (varType r) (jsonDomains o) in
        match CreateList newList df fs with
        | (Some err, df, fs) => (sendErrorResponse err StatusBadRequest, df, fs)
        | (None, df, fs) => (sendJSONResponse (ListBody newList) StatusCreated, df, fs)
        end
    end.

(** [updateList]. *)
Definition updateList (r : Request) (df : DNSFilter) (fs : Disk)
  : Response * DNSFilter * Disk :=
  if negb (validListType (varType r)) then
    (sendErrorResponse "Invalid list type" StatusBadRequest, df, fs)
  else
    match RequestBody r with
    | None => (sendErrorResponse "Invalid JSON format" StatusBadRequest, df, fs)
    | Some o =>
        let updatedList := mkListContent (varName r) (varType r) (jsonDomains o) in
        match UpdateList updatedList df fs with
        | (Some err, df, fs) => (sendErrorResponse err StatusBadRequest, df, fs)
        | (None, df, fs) => (sendJSONResponse (ListBody updatedList) StatusOK, df, fs)
        end
    end.

(** [deleteList]. *)
Definition deleteList (r : Request) (df : DNSFilter) (fs : Disk)
  : Response * DNSFilter * Disk :=
  if negb (validListType (varType r)) then
    (sendErrorResponse "Invalid list type" StatusBadRequest, df, fs)
  else
    match DeleteList (varName r) (varType r) df fs with
    | (Some err, df, fs) => (sendErrorResponse err StatusBadRequest, df, fs)
    | (None, df, fs) => (mkResponse StatusNoContent NoBody, df, fs)
    end.

(** [addDomains]. *)
Definition addDomains (r : Request) (df : DNSFilter) (fs : Disk)
  : Response * DNSFilter * Disk :=
  if negb (validListType (varType r)) then
    (sendErrorResponse "Invalid list type" StatusBadRequest, df, fs)
  else
    match RequestBody r with
    | None => (sendErrorResponse "Invalid JSON format" StatusBadRequest, df, fs)
    | Some o =>
        match AddDomains (varName r) (varType r) (jsonDomains o) df fs with
        | (Some err, df, fs) => (sendErrorResponse err StatusBadRequest, df, fs)
        | (None, df, fs) => (sendJSONResponse EmptyObject StatusOK, df, fs)
        end
    end.

(** [removeDomains]. *)
Definition removeDomains (r : Request) (df : DNSFilter) (fs : Disk)
  : Response * DNSFilter * Disk :=
  if negb (validListType (varType r)) then
    (sendErrorResponse "Invalid list type" StatusBadRequest, df, fs)
  else
    match RequestBody r with
    | None => (sendErrorResponse "Invalid JSON format" StatusBadRequest, df, fs)
    | Some o =>
        match RemoveDomains (varName r) (varType r) (jsonDomains o) df fs with
        | (Some err, df, fs) => (sendErrorResponse err StatusBadRequest, df, fs)
        | (None, df, fs) => (sendJSONResponse EmptyObject StatusOK, df, fs)
        end
    end.

(** [getClientByIP]. *)
Definition getClientByIP (r : Request) (df : DNSFilter) (fs : Disk)
  : Response * DNSFilter * Disk :=
  match GetClientByIP df (varIP r) with
  | inr err => (sendErrorResponse err StatusNotFound, df, fs)
  | inl client => (sendJSONResponse (ClientBody client) StatusOK, df, fs)
  end.

(** [updateClient]. *)
Definition updateClient (r : Request) (df : DNSFilter) (fs : Disk)
  : Response * DNSFilter * Disk :=
  match RequestBody r with
  | None => (sendErrorResponse "Invalid JSON format" StatusBadRequest, df, fs)
  | Some o =>
      let updatedClient :=
        mkClientConfig (varIP r) (jsonBlocklists o) (jsonWhitelists o) (jsonMode o) in
      match UpdateClient updatedClient df fs with
      | (Some err, df, fs) => (sendErrorResponse err StatusBadRequest, df, fs)
      | (None, df, fs) => (sendJSONResponse (ClientBody updatedClient) StatusOK, df, fs)
      end
  end.

(** [deleteClient]. *)
Definition deleteClient (r : Request) (df : DNSFilter) (fs : Disk)
  : Response * DNSFilter * Disk :=
  match DeleteClient (varIP r) df fs with
  | (Some err, df, fs) => (sendErrorResponse err StatusBadRequest, df, fs)
  | (None, df, fs) => (mkResponse StatusNoContent NoBody, df, fs)
  end.

(** [checkDomain]. *)
Definition checkDomain (r : Request) (df : DNSFilter) (fs : Disk)
  : Response * DNSFilter * Disk :=
  let allowed := CheckDomain df (varIP r) (varDomain r) in
  (sendJSONResponse (DNSCheckResponse (varIP r) (varDomain r) allowed) StatusOK, df, fs).

(** The routes of [setupRoutes] that address one list, its domains, one
    client or the check: the handler for a method and the segments of a
    path, with the route variables bound.  [None] is a request the
    router answers itself, or one of the collection routes. *)
Definition route (method : string) (path : list string) (body : option JSONObject)
  : option (DNSFilter → Disk → Response * DNSFilter * Disk) :=
  match path with
  | ["api"; "lists"; type; name] =>
      let r := mkRequest type name "" "" body in
      if decide (method = "GET") then Some (getListContent r)
      else if decide (method = "PUT") then Some (updateList r)
      else if decide (method = "DELETE") then Some (deleteList r)
      else None
  | ["api"; "lists"; type; name; "domains"] =>
      let r := mkRequest type name "" "" body in
      if decide (method = "POST") then Some (addDomains r)
      else if decide (method = "DELETE") then Some (removeDomains r)
      else None
  | ["api"; "clients"; ip] =>
      let r := mkRequest "" "" ip "" body in
      if decide (method = "GET") then Some (getClientByIP r)
      else if decide (method = "PUT") then Some (updateClient r)
      else if decide (method = "DELETE") then Some (deleteClient r)
      else None
  | ["api"; "check"; ip; domain] =>
      let r := mkRequest "" "" ip domain body in
      if decide (method = "GET") then Some (checkDomain r) else None
  | _ => None
  end.

(** [createClient]. *)
Definition createClient (r : Request) (df : DNSFilter) (fs : Disk)
  : Response * DNSFilter * Disk :=
  match RequestBody r with
  | None => (sendErrorResponse "Invalid JSON format" StatusBadRequest, df, fs)
  | Some o =>
      let newClient :=
        mkClientConfig (jsonIP o) (jsonBlocklists o) (jsonWhitelists o) (jsonMode o) in
      match CreateClient newClient df fs with
      | (Some err, df, fs) => (sendErrorResponse err StatusBadRequest, df, fs)
      | (None, df, fs) => (sendJSONResponse (ClientBody newClient) StatusCreated, df, fs)
      end
  end.

End restapi.

(** ** The plugin: the DNS handler shim *)

Module ipblocker.
Import dnslookup.

Record IPBlocker : Type := mkIPBlocker {
  APIPort : Z;
  Filter : option DNSFilter      (* the field [DNSFilter], possibly [nil] *)
}.

(** What [ServeDNS] does with a query. *)
Inductive Outcome : Type :=
| NameError        (* the NXDOMAIN reply written by the plugin *)
| NextOrFailure.   (* the request goes to the next plugin *)

(** [ServeDNS]; [ip] is [state.IP()] and [domain] is [state.Name()]. *)
Definition ServeDNS (ib : IPBlocker) (ip domain : string) : Outcome :=
  let allowed :=
    match Filter ib with
    | Some df => CheckDomain df ip domain
    | None => true
    end in
  if negb allowed then NameError else NextOrFailure.

End ipblocker.

Import gostrings dnslookup.

(** ** Vocabulary of the statements *)

(** The node reached from [n] along [path], if every label has a child. *)
Fixpoint nodeAt (n : Node) (path : list string) : option Node :=
  match path with
  | [] => Some n
  | label :: rest =>
      match Children n !! label with
      | None => None
      | Some child => nodeAt child rest
      end
  end.

(** [c] occurs in [s]. *)
Fixpoint hasByte (c : ascii) (s : string) : bool :=
  match s with
  | EmptyString => false
  | String k rest => bool_decide (k = c) || hasByte c rest
  end.

(** A label of the data model: not empty, case-folded, without a dot or an
    exclamation mark, and without white space or commas around it. *)
Definition isLabel (l : string) : bool :=
  bool_decide (l ≠ "") && bool_decide (ToLower l = l)
  && negb (hasByte "." l) && negb (hasByte "!" l)
  && bool_decide (TrimSpace l = l) && bool_decide (Trim l ", " = l).

(** A domain as an entry writes it: no exclamation mark, no white space
    around it. *)
Definition isDomain (d : string) : bool :=
  negb (hasByte "!" d) && bool_decide (TrimSpace d = d).

(** The trie of a list: [CreateList]'s loop on a fresh root. *)
Definition buildTrie (entries : list string) : Node :=
  insertEntries NewNode entries.

(** [c] is the first endpoint on the path of [parts] below [root], [k]
    labels down: the path exists that far, [c] is an endpoint, and no node
    passed before it is one. *)
Definition firstEndpoint (root : Node) (parts : list string) (k : nat) (c : Node)
  : Prop :=
  0 < k ≤ length parts ∧
  nodeAt root (take k parts) = Some c ∧
  IsEndpoint c = true ∧
  ∀ j c', 0 < j < k → nodeAt root (take j parts) = Some c' → IsEndpoint c' = false.

(** The match of the specification: the walk reaches a first endpoint, and
    the label that follows it, if one remains, is not among the exceptions
    of that endpoint. *)
Definition Matches (root : Node) (name : string) : Prop :=
  ∃ k c, firstEndpoint root (ReverseDomainParts name) k c ∧
         ∀ next, ReverseDomainParts name !! k = Some next →
                 default false (Exceptions c !! next) = false.

(** The two answers of the evaluator, as [CheckDomain] returns them. *)
Definition Allow : bool := true.
Definition Deny : bool := false.

(** Some list named in [refs] has a loaded trie that matches [name]. *)
Definition someLoadedListMatches (tries : gmap string Node) (refs : list string)
    (name : string) : Prop :=
  ∃ listName trie,
    listName ∈ refs ∧ tries !! listName = Some trie ∧ IsDomainBlocked trie name = true.

(** The labels of a name as written, before any case folding. *)
Definition labelsOf (name : string) : list string := Split name ".".

(** The domain of an entry consists of non-empty labels. *)
Definition domainLabelsNonEmpty (entry : string) : Prop :=
  Forall (λ label, label ≠ "") (labelsOf (ParseDomainWithExceptions entry).1).

(** The label sequence of a name begins, or ends, with an empty label. *)
Definition beginsWithEmptyLabel (name : string) : Prop :=
  head (labelsOf name) = Some "".
Definition endsWithEmptyLabel (name : string) : Prop :=
  last (labelsOf name) = Some "".

(** Every trie of the map was built from entries with non-empty labels. *)
Definition builtFromNonEmptyLabels (tries : gmap string Node) : Prop :=
  map_Forall (λ _ trie, ∃ entries, Forall domainLabelsNonEmpty entries ∧
                                   trie = buildTrie entries) tries.

(** The response of the control plane to a routed request. *)
Definition respond (method : string) (path : list string)
    (body : option restapi.JSONObject) (df : DNSFilter) (fs : Disk)
  : option restapi.Response :=
  match restapi.route method path body with
  | Some handler => Some (handler df fs).1.1
  | None => None
  end.

(** No list [name] of type [listType] is loaded. *)
Definition listMissing (df : DNSFilter) (listType name : string) : Prop :=
  ∃ tries, triesOf df listType = Some tries ∧ tries !! name = None.

(** An entry the specification calls malformed: its domain has an empty
    label (a leading or trailing dot, an empty entry), or one of its
    exception labels contains a dot. *)
Definition malformedEntry (entry : string) : Prop :=
  ¬ domainLabelsNonEmpty entry ∨
  Exists (λ exception, hasByte "." exception = true)
         (ParseDomainWithExceptions entry).2.

(** The error an operation returns. *)
Definition errorOf {A B} (r : error * A * B) : error := r.1.1.

(** The trie of a list after an operation. *)
Definition trieAfter {B} (r : error * DNSFilter * B) (listType name : string)
  : option Node :=
  match triesOf r.1.2 listType with
  | Some tries => tries !! name
  | None => None
  end.

(** The ref-set of a policy for a list type, and the one for the other
    type. *)
Definition refsOf (listType : string) (config : ClientConfig) : list string :=
  if decide (listType = "blocklist") then BlocklistRefs config
  else WhitelistRefs config.
Definition otherRefsOf (listType : string) (config : ClientConfig) : list string :=
  if decide (listType = "blocklist") then WhitelistRefs config
  else BlocklistRefs config.

(** Some policy names the list in its ref-set of that type. *)
Definition referenced (df : DNSFilter) (listType name : string) : Prop :=
  ∃ ip config, Clients df !! ip = Some config ∧ name ∈ refsOf listType config.

(** The file of a list. *)
Definition listFile (df : DNSFilter) (listType name : string) : string :=
  filepathJoin (if decide (listType = "blocklist") then BlocklistDir df
                else WhitelistDir df) name.

(** *** Tries as sets of entries *)

(** The tries reachable from a fresh root by insertions. *)
Inductive Reachable : Node → Prop :=
| Reachable_new : Reachable NewNode
| Reachable_insert root domain exceptions :
    Reachable root → Reachable (InsertDomain root domain exceptions).

(** The height of a trie: one more than the longest path in it. *)
Fixpoint height (n : Node) : nat :=
  S (map_fold (λ _ child acc, max acc (height child)) 0 (Children n)).

(** Is the node at the end of [path] an endpoint, and what are its
    exceptions; a node that does not exist is no endpoint and has none. *)
Definition endpointAt (n : Node) (path : list string) : bool :=
  match nodeAt n path with
  | Some c => IsEndpoint c
  | None => false
  end.
Definition exceptionsAt (n : Node) (path : list string) : gmap string bool :=
  match nodeAt n path with
  | Some c => Exceptions c
  | None => ∅
  end.

(** The enumeration of [extractDomainsFromTrie] before the entries are
    formatted: the domain and the exception labels of every endpoint, in
    the order of the traversal. *)
Fixpoint extractEntries (node : Node) (prefix : list string)
  : list (string * list string) :=
  (if IsEndpoint node
   then [(Join (reverse prefix) ".", mapKeys (Exceptions node))]
   else []) ++
  map_fold (λ part child acc, acc ++ extractEntries child (prefix ++ [part]))
           [] (Children node).

Definition formatEntry (entry : string * list string) : string :=
  FormatDomainWithExceptions entry.1 entry.2.

(** Insertion of entries that are already parsed. *)
Definition insertPairs (root : Node) (entries : list (string * list string)) : Node :=
  foldl (λ root entry, InsertDomain root entry.1 entry.2) root entries.

(** The entries of a list file: its lines, trimmed, without the empty
    lines and the comments, parsed. *)
Definition isEntryLine (line : string) : bool :=
  negb (bool_decide (line = "")) && negb (HasPrefix line "#").
Definition parseFile (content : string) : list (string * list string) :=
  ParseDomainWithExceptions <$> filter isEntryLine (TrimSpace <$> ScanLines content).

(** An entry as a domain with a set of exception labels. *)
Definition Entry : Type := string * gset string.
Definition toEntry (entry : string * list string) : Entry :=
  (entry.1, list_to_set entry.2).

(** The enumeration of [trie] yields the entry [e]. *)
Definition enumerates (trie : Node) (e : Entry) : Prop :=
  ∃ entry, entry ∈ extractEntries trie [] ∧ toEntry entry = e.

(** The trie [LoadDomainList] builds from the text of a file. *)
Definition loadText (content : string) : Node :=
  foldl loadLine NewNode (ScanLines content).

(** The enumeration of the trie loaded from [content] is the entry set
    parsed from [content]. *)
Definition enumeratesParsedEntries (content : string) : Prop :=
  ∀ e, enumerates (loadText content) e ↔ e ∈ toEntry <$> parseFile content.

(** An exception label as an entry writes it: not empty, no exclamation
    mark, no white space or commas around it. *)
Definition isException (x : string) : bool :=
  bool_decide (x ≠ "") && negb (hasByte "!" x)
  && bool_decide (Trim (TrimSpace x) ", " = x).

(** An entry in the syntax of the data model, as far as parsing and
    formatting depend on it. *)
Definition wellFormedEntry (entry : string) : Prop :=
  isDomain (ParseDomainWithExceptions entry).1 ∧
  Forall (λ x, isException x) (ParseDomainWithExceptions entry).2.

(** The base domains named by a removal request. *)
Definition baseDomains (request : list string) : list string :=
  (λ entry, (ParseDomainWithExceptions entry).1) <$> request.

(** *** The text of a formatted entry *)

(** The text after the first exception of a formatted entry. *)
Fixpoint moreExceptions (exceptions : list string) : string :=
  match exceptions with
  | [] => ""
  | exception :: rest => ", !" +:+ exception +:+ moreExceptions rest
  end.

(** The pieces between the exclamation marks. *)
Fixpoint exceptionPieces (first : string) (others : list string) : list string :=
  match others with
  | [] => [first]
  | next :: rest => (first +:+ ", ") :: exceptionPieces next rest
  end.

(** The lines [SaveDomainList] writes after the header. *)
Definition listBody (domains : list string) : string :=
  foldl (λ text domain, text +:+ domain +:+ newline) "" domains.

(** *** Vocabulary of the further properties *)

(** Does the node at the end of [path] except [label]. *)
Definition exceptedAt (n : Node) (path : list string) (label : string) : bool :=
  default false (exceptionsAt n path !! label).

(** No node of the trie that is not an endpoint carries exceptions. *)
Definition exceptionsOnEndpoints (n : Node) : Prop :=
  ∀ path, endpointAt n path = false → exceptionsAt n path = ∅.

(** An entry that a list file holds on a line of its own and gives back:
    no white space around it, not empty, no comment, no newline in it. *)
Definition storableEntry (entry : string) : Prop :=
  TrimSpace entry = entry ∧ isEntryLine entry = true ∧ hasByte "010" entry = false.

(** The invariant of the registry: every policy names loaded lists of the
    matching type only, and its mode is one of the two modes. *)
Definition validRegistry (df : DNSFilter) : Prop :=
  ∀ ip config, Clients df !! ip = Some config →
    (∀ name, name ∈ BlocklistRefs config → is_Some (BlocklistTries df !! name)) ∧
    (∀ name, name ∈ WhitelistRefs config → is_Some (WhitelistTries df !! name)) ∧
    (Mode config = "blocklist" ∨ Mode config = "whitelist").

(** The filter after an operation. *)
Definition filterAfter {B} (r : error * DNSFilter * B) : DNSFilter := r.1.2.

(** A client may be stored: its lists are loaded and its mode is valid. *)
Definition acceptableClient (df : DNSFilter) (client : ClientConfig) : Prop :=
  (∀ name, name ∈ BlocklistRefs client → is_Some (BlocklistTries df !! name)) ∧
  (∀ name, name ∈ WhitelistRefs client → is_Some (WhitelistTries df !! name)) ∧
  (Mode client = "blocklist" ∨ Mode client = "whitelist").


(** The disk holds the filter: the client document is the registry, and
    the file of every loaded list loads as the trie in memory. *)
Definition onDisk (df : DNSFilter) (fs : Disk) : Prop :=
  LoadClientConfig fs (ConfigPath df) = inl (Clients df) ∧
  ∀ listType tries name trie,
    triesOf df listType = Some tries → tries !! name = Some trie →
    LoadDomainList fs (listFile df listType name) = inl trie.

(** The handlers of the control plane that add no client. *)
Definition handlers
  : list (restapi.Request → DNSFilter → Disk → restapi.Response * DNSFilter * Disk) :=
  [restapi.getListContent; restapi.createList; restapi.updateList;
   restapi.deleteList; restapi.addDomains; restapi.removeDomains;
   restapi.getClientByIP; restapi.updateClient; restapi.deleteClient;
   restapi.checkDomain].

(** The response of a handler. *)
Definition responseOf (r : restapi.Response * DNSFilter * Disk) : restapi.Response :=
  r.1.1.

(** *** The disk *)

(** [fs'] is [fs] with directories made where nothing was. *)
Definition withDirectories (fs fs' : Disk) : Prop :=
  Writable fs' = Writable fs ∧ Now fs' = Now fs ∧
  ∀ path, Files fs' !! path = Files fs !! path ∨
          (Files fs !! path = None ∧ Files fs' !! path = Some Directory).

(** The error of writing the file of a list, whatever is written. *)
Definition writeError (df : DNSFilter) (listType name : string) (fs : Disk)
  : error :=
  (SaveDomainList df name listType [] fs).1.

(** A line that the scanner of [LoadDomainList] takes. *)
Definition fitsScanner (line : string) : Prop :=
  (Z.of_nat (String.length line) < MaxScanTokenSize)%Z.

(** A parsed entry in the syntax of the data model. *)
Definition entrySyntax (entry : string * list string) : Prop :=
  isDomain entry.1 ∧ Forall (λ x, isException x) entry.2.

(** [fs'] is [fs] with [text] written at [path]: whatever file was there is
    replaced, every other file is as it was, and directories are made
    where nothing was. *)
Definition fileWritten (fs fs' : Disk) (path text : string) : Prop :=
  Files fs' !! path = Some (TextFile text) ∧
  ∀ other, other ≠ path →
    Files fs' !! other = Files fs !! other ∨
    (Files fs !! other = None ∧ Files fs' !! other = Some Directory).
(** ** The [strings] functions *)

Section StringFacts.

Lemma Split_nonempty s sep : Split s sep ≠ [].
Proof.
  induction s as [|c s IH]; simpl; [done|].
  case_decide; [done|]. destruct (Split s sep); done.
Qed.

Lemma Split_app_sep s1 s2 sep :
  Split (s1 +:+ String sep s2) sep = Split s1 sep ++ Split s2 sep.
Proof.
  induction s1 as [|c s1 IH]; simpl.
  - by rewrite decide_True.
  - case_decide; [by rewrite IH|].
    rewrite IH. pose proof (Split_nonempty s1 sep).
    destruct (Split s1 sep); done.
Qed.

Lemma Split_no_sep s sep : hasByte sep s = false → Split s sep = [s].
Proof.
  induction s as [|c s IH]; simpl; [done|].
  intros [Hc Hs]%orb_false_iff. apply bool_decide_eq_false in Hc.
  rewrite decide_False by done. by rewrite IH.
Qed.

Lemma ToLower_app s1 s2 : ToLower (s1 +:+ s2) = ToLower s1 +:+ ToLower s2.
Proof. induction s1 as [|c s1 IH]; simpl; [done|]. by rewrite IH. Qed.

Lemma lowerByte_eq_special c k :
  (nat_of_ascii k < 65 ∨ 122 < nat_of_ascii k)%nat →
  lowerByte c = k ↔ c = k.
Proof.
  intros Hk. unfold lowerByte.
  destruct ((65 <=? nat_of_ascii c)%nat && (nat_of_ascii c <=? 90)%nat) eqn:E; [|done].
  apply andb_true_iff in E as [E1%Nat.leb_le E2%Nat.leb_le].
  split; intros <-.
  - rewrite nat_ascii_embedding in Hk by lia. lia.
  - lia.
Qed.

Lemma hasByte_ToLower k s :
  (nat_of_ascii k < 65 ∨ 122 < nat_of_ascii k)%nat →
  hasByte k (ToLower s) = hasByte k s.
Proof.
  intros Hk. induction s as [|c s IH]; simpl; [done|].
  rewrite IH. f_equal. apply bool_decide_ext. by apply lowerByte_eq_special.
Qed.

Lemma hasByte_app k s1 s2 :
  hasByte k (s1 +:+ s2) = hasByte k s1 || hasByte k s2.
Proof.
  induction s1 as [|c s1 IH]; simpl; [done|]. by rewrite IH, orb_assoc.
Qed.

End StringFacts.

Section TrimFacts.
Variable cut : ascii → bool.

Lemma trimLeft_length s : (String.length (trimLeft cut s) ≤ String.length s)%nat.
Proof. induction s as [|c s IH]; simpl; [done|]. destruct (cut c); simpl; lia. Qed.

Lemma trimRight_length s : (String.length (trimRight cut s) ≤ String.length s)%nat.
Proof.
  induction s as [|c s IH]; simpl; [done|].
  destruct (trimRight cut s); [destruct (cut c)|]; simpl in *; lia.
Qed.

Lemma trimLeft_same_length s :
  String.length (trimLeft cut s) = String.length s → trimLeft cut s = s.
Proof.
  destruct s as [|c s]; simpl; [done|].
  destruct (cut c); [|done]. pose proof (trimLeft_length s). lia.
Qed.

Lemma trimRight_same_length s :
  String.length (trimRight cut s) = String.length s → trimRight cut s = s.
Proof.
  induction s as [|c s IH]; simpl; [done|].
  pose proof (trimRight_length s).
  destruct (trimRight cut s) eqn:E.
  - destruct (cut c); simpl; [lia|]. intros Hl.
    destruct s; [done|simpl in *; lia].
  - simpl. intros Hl. f_equal. apply IH. simpl in *. lia.
Qed.

(** A string that trimming on both sides leaves alone is left alone by
    the trimming of either side. *)
Lemma trim_fixed s :
  trimRight cut (trimLeft cut s) = s → trimLeft cut s = s ∧ trimRight cut s = s.
Proof.
  intros H.
  assert (trimLeft cut s = s) as Hl.
  { apply trimLeft_same_length.
    pose proof (trimLeft_length s). pose proof (trimRight_length (trimLeft cut s)).
    rewrite H in *. lia. }
  split; [done|]. by rewrite Hl in H.
Qed.

Lemma trimRight_snoc s c :
  cut c = true → trimRight cut (s +:+ String c "") = trimRight cut s.
Proof.
  intros Hc. induction s as [|k s IH]; simpl; [by rewrite Hc|]. by rewrite IH.
Qed.

Lemma trimRight_app_cut s t :
  trimRight cut t = "" → trimRight cut (s +:+ t) = trimRight cut s.
Proof. intros Ht. induction s as [|k s IH]; simpl; [done|]. by rewrite IH. Qed.

Lemma trimLeft_app s t :
  s ≠ "" → trimLeft cut s = s → trimLeft cut (s +:+ t) = s +:+ t.
Proof.
  destruct s as [|c s]; [done|]. simpl. intros _.
  destruct (cut c) eqn:E; [|done].
  intros H. pose proof (trimLeft_length s). rewrite H in *. simpl in *. lia.
Qed.

(** Trimming both sides of [s ++ t], where [s] is already trimmed and
    [t] consists of bytes to cut. *)
Lemma trim_app_cut s t :
  trimRight cut (trimLeft cut s) = s →
  trimRight cut t = "" →
  trimRight cut (trimLeft cut (s +:+ t)) = s.
Proof.
  intros [Hl Hr]%trim_fixed Ht.
  destruct (decide (s = "")) as [->|Hs].
  - simpl.
    pose proof (trimLeft_length t). pose proof (trimRight_length (trimLeft cut t)).
    assert (∀ u, trimRight cut u = "" → trimRight cut (trimLeft cut u) = "") as Hu.
    { clear. induction u as [|c u IH]; simpl; [done|].
      destruct (trimRight cut u) eqn:E; [|done].
      destruct (cut c); [|done]. intros _. by apply IH. }
    by apply Hu.
  - rewrite trimLeft_app by done. by rewrite trimRight_app_cut.
Qed.

End TrimFacts.

Section ParseFacts.

Lemma append_cons c (s t : string) : String c s +:+ t = String c (s +:+ t).
Proof. done. Qed.

Lemma append_assoc (s1 s2 s3 : string) : (s1 +:+ s2) +:+ s3 = s1 +:+ (s2 +:+ s3).
Proof. induction s1 as [|c s1 IH]; [done|]. by rewrite !append_cons, IH. Qed.

Lemma append_nil_r (s : string) : s +:+ "" = s.
Proof. induction s as [|c s IH]; [done|]. by rewrite append_cons, IH. Qed.

Lemma Index_first s1 s2 c :
  hasByte c s1 = false →
  Index (s1 +:+ String c s2) c = Z.of_nat (String.length s1).
Proof.
  induction s1 as [|k s1 IH]; simpl.
  - by rewrite decide_True.
  - intros [Hk Hs]%orb_false_iff. apply bool_decide_eq_false in Hk.
    rewrite decide_False by done. rewrite IH by done.
    destruct (Z.ltb_spec (Z.of_nat (String.length s1)) 0); lia.
Qed.

Lemma Index_none s c : hasByte c s = false → Index s c = (-1)%Z.
Proof.
  induction s as [|k s IH]; simpl; [done|].
  intros [Hk Hs]%orb_false_iff. apply bool_decide_eq_false in Hk.
  rewrite decide_False by done. by rewrite IH.
Qed.

(** An entry without an exclamation mark is its own domain. *)
Lemma parse_plain d :
  hasByte "!" d = false → ParseDomainWithExceptions d = (d, []).
Proof. intros H. unfold ParseDomainWithExceptions. by rewrite Index_none. Qed.

(** The entry ["d !x"] parses to the domain [d] with the exception [x]. *)
Lemma parse_single_exception d x :
  isDomain d → isLabel x →
  ParseDomainWithExceptions (d +:+ " !" +:+ x) = (d, [x]).
Proof.
  unfold isDomain, isLabel.
  intros [Hd1 Hd2]%andb_prop_elim.
  intros [[[[[Hx1 Hx2]%andb_prop_elim Hx3]%andb_prop_elim
              Hx4]%andb_prop_elim Hx5]%andb_prop_elim Hx6]%andb_prop_elim.
  apply negb_prop_elim, Is_true_false in Hd1.
  apply negb_prop_elim, Is_true_false in Hx4.
  apply bool_decide_unpack in Hd2, Hx1, Hx5, Hx6.
  unfold ParseDomainWithExceptions.
  change (d +:+ " !" +:+ x) with (d +:+ String " " (String "!" x)).
  change (String " " (String "!" x)) with (" " +:+ String "!" x).
  rewrite <- append_assoc.
  assert (hasByte "!" (d +:+ " ") = false) as Hno.
  { rewrite hasByte_app, Hd1. done. }
  rewrite Index_first by done.
  rewrite Split_app_sep, !Split_no_sep by done. simpl.
  assert ((0 <? Z.of_nat (String.length (d +:+ " ")))%Z = true) as ->.
  { apply Z.ltb_lt. destruct d; simpl; lia. }
  f_equal.
  - apply trim_app_cut; done.
  - rewrite Hx5, Hx6. by rewrite decide_False.
Qed.

End ParseFacts.

Section JoinFacts.

(** Joining the pieces of a string with the separator gives it back. *)
Lemma Join_Split s sep : Join (Split s sep) (String sep "") = s.
Proof.
  induction s as [|c s IH]; [done|]. simpl Split.
  pose proof (Split_nonempty s sep) as Hne.
  destruct (Split s sep) as [|p ps]; [done|].
  case_decide as Hc.
  - subst c. change (Join ("" :: p :: ps) (String sep ""))
      with (String sep (Join (p :: ps) (String sep ""))). by rewrite IH.
  - destruct ps as [|q ps]; simpl in *; by rewrite <- IH.
Qed.

End JoinFacts.

(** ** The disk: directories and the file of a list *)

Section DiskFacts.

Lemma withDirectories_refl fs : withDirectories fs fs.
Proof. split; [done|]. split; [done|]. by left. Qed.

Lemma withDirectories_trans fs1 fs2 fs3 :
  withDirectories fs1 fs2 → withDirectories fs2 fs3 → withDirectories fs1 fs3.
Proof.
  intros (Hw1 & Hn1 & H1) (Hw2 & Hn2 & H2).
  split; [congruence|]. split; [congruence|]. intros path.
  destruct (H1 path) as [Ha|[Ha Hb]], (H2 path) as [Hc|[Hc Hd]].
  - left. congruence.
  - right. split; [congruence|done].
  - right. split; [done|congruence].
  - congruence.
Qed.

Lemma mkdir_withDirectories fs path :
  withDirectories fs (mkdir fs path).2.
Proof.
  unfold mkdir. destruct (isDirectory fs path); [apply withDirectories_refl|].
  destruct (Files fs !! path) eqn:Hp; [apply withDirectories_refl|].
  destruct (negb (pathAllowed path)); [apply withDirectories_refl|].
  destruct (negb (Writable fs)); [apply withDirectories_refl|].
  split; [done|]. split; [done|]. intros other. simpl.
  destruct (decide (other = path)) as [->|Hne].
  - right. by rewrite lookup_insert_eq.
  - left. by rewrite lookup_insert_ne.
Qed.


Lemma MkdirAll_withDirectories fs path :
  withDirectories fs (MkdirAll fs path).2.
Proof.
  unfold MkdirAll. case_decide; [apply withDirectories_refl|].
  generalize (pathPrefixes (gofilepath.Clean path)). intros dirs.
  assert (∀ (err : error) fs0,
    withDirectories fs fs0 →
    withDirectories fs
      (foldl (λ '(err, fs) dir,
                match err with
                | Some _ => (err, fs)
                | None => mkdir fs dir
                end) (err, fs0) dirs).2) as Hgen.
  { induction dirs as [|dir dirs IH]; intros err fs0 H0; [done|].
    simpl. destruct err as [message|].
    - by apply IH.
    - pose proof (mkdir_withDirectories fs0 dir) as Hm.
      destruct (mkdir fs0 dir) as [err' fs1]. apply IH.
      by apply (withDirectories_trans _ fs0). }
  apply Hgen, withDirectories_refl.
Qed.


Lemma createFile_error fs path data data' :
  (createFile fs path data).1 = (createFile fs path data').1.
Proof.
  unfold createFile.
  destruct (negb (pathAllowed path)); [done|].
  destruct (isDirectory fs path); [done|].
  destruct (negb (isDirectory fs (gofilepath.Dir path))); [done|].
  by destruct (negb (Writable fs)).
Qed.

Lemma createFile_result fs path data :
  (createFile fs path data = (None, writeFile fs path data) ∧
   Writable fs = true) ∨
  ∃ message, createFile fs path data = (Some message, fs).
Proof.
  unfold createFile.
  destruct (negb (pathAllowed path)); [right; by eexists|].
  destruct (isDirectory fs path); [right; by eexists|].
  destruct (negb (isDirectory fs (gofilepath.Dir path))); [right; by eexists|].
  destruct (Writable fs); [by left|right; by eexists].
Qed.


(** The error of [SaveDomainList] depends on the directories, the name
    and the disk, never on what is written. *)
Lemma SaveDomainList_error df df' listName listType domains domains' fs :
  BlocklistDir df = BlocklistDir df' → WhitelistDir df = WhitelistDir df' →
  (SaveDomainList df listName listType domains fs).1
  = (SaveDomainList df' listName listType domains' fs).1.
Proof.
  intros Hb Hw. unfold SaveDomainList. rewrite Hb, Hw.
  destruct (if decide (listType = "blocklist") then Some (BlocklistDir df')
            else if decide (listType = "whitelist") then Some (WhitelistDir df')
            else None) as [dirPath|]; [|done].
  destruct (MkdirAll fs dirPath) as [[err|] fs1]; [done|].
  pose proof (createFile_error fs1 (filepathJoin dirPath listName)
                (TextFile (listFileText (Now fs1) domains))
                (TextFile (listFileText (Now fs1) domains'))) as He.
  destruct (createFile fs1 _ (TextFile (listFileText (Now fs1) domains)))
    as [[e1|] f1],
    (createFile fs1 _ (TextFile (listFileText (Now fs1) domains')))
    as [[e2|] f2]; simpl in *; congruence.
Qed.


(** What a successful [SaveDomainList] leaves: the text at the cleaned
    path of the list, directories where they were missing, and every
    other path as it was. *)
Lemma SaveDomainList_success df listName listType domains fs fs' :
  SaveDomainList df listName listType domains fs = (None, fs') →
  is_Some (triesOf df listType) ∧
  Writable fs = true ∧
  Files fs' !! listFile df listType listName
  = Some (TextFile (listFileText (Now fs) domains)) ∧
  Writable fs' = Writable fs ∧ Now fs' = Now fs ∧
  ∀ path, path ≠ listFile df listType listName →
          Files fs' !! path = Files fs !! path ∨
          (Files fs !! path = None ∧ Files fs' !! path = Some Directory).
Proof.
  unfold SaveDomainList, listFile, triesOf.
  assert (∀ dirPath,
    match MkdirAll fs dirPath with
    | (Some err, fs0) =>
        (Some ("error creating directory " +:+ dirPath +:+ ": " +:+ err), fs0)
    | (None, fs0) =>
        match createFile fs0 (filepathJoin dirPath listName)
                (TextFile (listFileText (Now fs0) domains)) with
        | (Some err, fs1) =>
            (Some ("error creating list file " +:+
                   filepathJoin dirPath listName +:+ ": " +:+ err), fs1)
        | (None, fs1) => (None, fs1)
        end
    end = (None, fs') →
    Writable fs = true ∧
    Files fs' !! filepathJoin dirPath listName
    = Some (TextFile (listFileText (Now fs) domains)) ∧
    Writable fs' = Writable fs ∧ Now fs' = Now fs ∧
    ∀ path, path ≠ filepathJoin dirPath listName →
            Files fs' !! path = Files fs !! path ∨
            (Files fs !! path = None ∧ Files fs' !! path = Some Directory))
    as Hdir.
  { intros dirPath.
    pose proof (MkdirAll_withDirectories fs dirPath) as (Hw & Hn & Hf).
    destruct (MkdirAll fs dirPath) as [[err|] fs0]; [done|]. simpl in *.
    destruct (createFile_result fs0 (filepathJoin dirPath listName)
                (TextFile (listFileText (Now fs0) domains)))
      as [[-> Hw0]|[message ->]]; [|done].
    intros [= <-]. simpl. rewrite lookup_insert_eq, Hn.
    split; [congruence|]. split; [done|]. split; [done|]. split; [done|].
    intros path Hne. rewrite lookup_insert_ne by done. apply Hf. }
  destruct (decide (listType = "blocklist")).
  - intros Hs. split; [by eexists|]. by apply Hdir.
  - destruct (decide (listType = "whitelist")); [|done].
    intros Hs. split; [by eexists|]. by apply Hdir.
Qed.


End DiskFacts.

(** ** Insertion and matching *)

Section MatchFacts.

Lemma addExceptions_lookup m xs k :
  addExceptions m xs !! k = if decide (k ∈ xs) then Some true else m !! k.
Proof.
  unfold addExceptions. revert m.
  induction xs as [|x xs IH]; intros m.
  - by destruct (decide (k ∈ [])) as [?%elem_of_nil|].
  - simpl. rewrite IH. destruct (decide (k ∈ xs)) as [Hin|Hin].
    + rewrite decide_True; [done|]. by right.
    + destruct (decide (k = x)) as [->|Hne].
      * rewrite lookup_insert_eq. rewrite decide_True; [done|]. by left.
      * rewrite lookup_insert_ne by done.
        rewrite decide_False; [done|]. by intros [?|?]%elem_of_cons.
Qed.

Lemma ReverseDomainParts_nonempty domain : ReverseDomainParts domain ≠ [].
Proof.
  unfold ReverseDomainParts. intros H.
  apply (f_equal reverse) in H. rewrite reverse_involutive in H.
  by apply Split_nonempty in H.
Qed.

(** The labels of [sub.domain] are those of [domain] followed by those of
    [sub]. *)
Lemma ReverseDomainParts_sub sub domain :
  ReverseDomainParts (sub +:+ "." +:+ domain)
  = ReverseDomainParts domain ++ ReverseDomainParts sub.
Proof.
  unfold ReverseDomainParts.
  change (sub +:+ "." +:+ domain) with (sub +:+ String "." domain).
  rewrite ToLower_app. simpl ToLower.
  change (lowerByte ".") with "."%char.
  by rewrite Split_app_sep, reverse_app.
Qed.

Lemma ReverseDomainParts_label l :
  ToLower l = l → hasByte "." l = false → ReverseDomainParts l = [l].
Proof.
  intros Hl Hd. unfold ReverseDomainParts. rewrite Hl.
  by rewrite Split_no_sep.
Qed.

(** A query that runs through the only path of a one-entry trie is
    decided by the label after the path. *)
Lemma matchParts_single_path parts exceptions rest :
  parts ≠ [] →
  matchParts (insertParts NewNode parts exceptions) (parts ++ rest)
  = match rest with
    | [] => true
    | next :: _ => negb (bool_decide (next ∈ exceptions))
    end.
Proof.
  induction parts as [|p parts IH]; [done|]. intros _.
  simpl. rewrite lookup_empty. simpl. rewrite lookup_insert_eq.
  destruct parts as [|p' parts].
  - simpl. destruct rest as [|next rest]; [done|].
    rewrite addExceptions_lookup.
    destruct (decide (next ∈ exceptions)) as [Hin|Hin]; simpl.
    + by rewrite bool_decide_eq_true_2.
    + by rewrite lookup_empty, bool_decide_eq_false_2.
  - change (IsEndpoint (insertParts NewNode (p' :: parts) exceptions)) with false.
    cbv iota. by apply IH.
Qed.

Lemma insertEntries_cons root e es :
  insertEntries root (e :: es)
  = insertEntries (InsertDomain root (ParseDomainWithExceptions e).1
                                     (ParseDomainWithExceptions e).2) es.
Proof. unfold insertEntries. simpl. by destruct (ParseDomainWithExceptions e). Qed.

End MatchFacts.

Section MatchCharacterisation.

Lemma matchParts_first_endpoint root parts :
  matchParts root parts = true ↔
  ∃ k c, firstEndpoint root parts k c ∧
         ∀ next, parts !! k = Some next →
                 default false (Exceptions c !! next) = false.
Proof.
  revert root. induction parts as [|p rest IH]; intros root; simpl.
  - split; [done|]. intros (k & c & ([? ?] & _) & _). simpl in *. lia.
  - destruct (Children root !! p) as [child|] eqn:Hchild.
    2:{ split; [done|]. intros (k & c & ([? ?] & Hat & _) & _).
        destruct k as [|k]; [lia|]. simpl in Hat. by rewrite Hchild in Hat. }
    destruct (IsEndpoint child) eqn:Hend.
    + split.
      * intros Hm. exists 1, child. split.
        -- split; [simpl; lia|]. split; [simpl; by rewrite Hchild|].
           split; [done|]. intros j c' ?. lia.
        -- intros next Hnext. simpl in Hnext.
           destruct rest as [|n rest']; [done|]. simpl in Hnext.
           injection Hnext as <-.
           by destruct (default false (Exceptions child !! n)).
      * intros (k & c & ([? ?] & Hat & Hc & Hmin) & Hnext).
        destruct (decide (k = 1)) as [->|Hk].
        -- simpl in Hat. rewrite Hchild in Hat.
           destruct rest as [|n rest']; simpl in Hat; injection Hat as <-; [done|].
           by rewrite (Hnext n eq_refl).
        -- exfalso. assert (IsEndpoint child = false); [|congruence].
           apply (Hmin 1); [lia|]. simpl. by rewrite Hchild.
    + rewrite IH. split.
      * intros (k & c & ([? ?] & Hat & Hc & Hmin) & Hnext).
        exists (S k), c. split; [|done].
        split; [simpl; lia|]. split; [simpl; by rewrite Hchild|].
        split; [done|]. intros j c' Hj Hat'.
        destruct j as [|j]; [lia|]. simpl in Hat'. rewrite Hchild in Hat'.
        destruct (decide (j = 0)) as [->|Hj0].
        -- rewrite take_0 in Hat'. simpl in Hat'. congruence.
        -- apply (Hmin j); [lia|done].
      * intros (k & c & ([? ?] & Hat & Hc & Hmin) & Hnext).
        destruct k as [|k]; [lia|]. simpl in Hat. rewrite Hchild in Hat.
        destruct (decide (k = 0)) as [->|Hk0].
        { rewrite take_0 in Hat. simpl in Hat. congruence. }
        exists k, c. split; [|done].
        split; [simpl in *; lia|]. split; [done|]. split; [done|].
        intros j c' Hj Hat'. apply (Hmin (S j)); [lia|].
        simpl. by rewrite Hchild.
Qed.

End MatchCharacterisation.

(** C1. The trie built from the single entry ["d !x"], a domain [d] with
    the exception label [x], matches the apex [d] and every subdomain [a.d]
    whose label [a] is not [x], and matches neither [x.d] nor any name
    [deep.x.d] under it.  In general [IsDomainBlocked] follows the reversed
    labels down the trie, fails where a child is missing, and at the first
    endpoint it reaches answers false exactly when the next label, if one
    remains, is among the exceptions of that endpoint. *)
Theorem match_single_entry_with_exception (d x : string) :
  isDomain d → isLabel x →
  IsDomainBlocked (buildTrie [d +:+ " !" +:+ x]) d = true ∧
  (∀ a, isLabel a → a ≠ x →
        IsDomainBlocked (buildTrie [d +:+ " !" +:+ x]) (a +:+ "." +:+ d) = true) ∧
  IsDomainBlocked (buildTrie [d +:+ " !" +:+ x]) (x +:+ "." +:+ d) = false ∧
  (∀ deep,
     IsDomainBlocked (buildTrie [d +:+ " !" +:+ x])
                     (deep +:+ "." +:+ x +:+ "." +:+ d) = false) ∧
  (∀ root name, IsDomainBlocked root name = true ↔ Matches root name).
Proof.
  intros Hd Hx.
  assert (ToLower x = x ∧ hasByte "." x = false) as [Hxl Hxd].
  { unfold isLabel in Hx.
    apply andb_prop_elim in Hx as [Hx _]. apply andb_prop_elim in Hx as [Hx _].
    apply andb_prop_elim in Hx as [Hx _]. apply andb_prop_elim in Hx as [Hx H3].
    apply andb_prop_elim in Hx as [_ H2].
    apply bool_decide_unpack in H2. by apply negb_prop_elim, Is_true_false in H3. }
  unfold buildTrie, insertEntries. simpl foldl.
  rewrite parse_single_exception by done.
  unfold IsDomainBlocked, InsertDomain.
  pose proof (ReverseDomainParts_nonempty d) as Hne.
  repeat split.
  - rewrite <- (app_nil_r (ReverseDomainParts d)) at 2.
    by rewrite matchParts_single_path.
  - intros a Ha Hax.
    assert (ToLower a = a ∧ hasByte "." a = false) as [Hal Had].
    { unfold isLabel in Ha.
      apply andb_prop_elim in Ha as [Ha _]. apply andb_prop_elim in Ha as [Ha _].
      apply andb_prop_elim in Ha as [Ha _]. apply andb_prop_elim in Ha as [Ha H3].
      apply andb_prop_elim in Ha as [_ H2].
      apply bool_decide_unpack in H2. by apply negb_prop_elim, Is_true_false in H3. }
    rewrite ReverseDomainParts_sub, (ReverseDomainParts_label a) by done.
    rewrite matchParts_single_path by done.
    rewrite bool_decide_eq_false_2; [done|].
    by intros ?%list_elem_of_singleton.
  - rewrite ReverseDomainParts_sub, (ReverseDomainParts_label x) by done.
    rewrite matchParts_single_path by done.
    rewrite bool_decide_eq_true_2; [done|]. by apply list_elem_of_singleton.
  - intros deep.
    change (deep +:+ "." +:+ x +:+ "." +:+ d) with (deep +:+ "." +:+ (x +:+ "." +:+ d)).
    rewrite !ReverseDomainParts_sub, (ReverseDomainParts_label x) by done.
    rewrite <- app_assoc. rewrite matchParts_single_path by done.
    simpl. rewrite bool_decide_eq_true_2; [done|]. by apply list_elem_of_singleton.
  - unfold Matches. apply matchParts_first_endpoint.
  - unfold Matches. apply matchParts_first_endpoint.
Qed.

(** The entry ["Example.COM !mail"] of scenario S1. *)
Lemma match_single_entry_with_exception_witness :
  isDomain "Example.COM" ∧ isLabel "mail" ∧
  IsDomainBlocked (buildTrie ["Example.COM" +:+ " !" +:+ "mail"]) "Example.COM" = true ∧
  IsDomainBlocked (buildTrie ["Example.COM" +:+ " !" +:+ "mail"])
                  ("mail" +:+ "." +:+ "Example.COM") = false.
Proof.
  pose proof (match_single_entry_with_exception "Example.COM" "mail") as H.
  assert (isDomain "Example.COM") as Hd by (vm_compute; exact I).
  assert (isLabel "mail") as Hx by (vm_compute; exact I).
  destruct (H Hd Hx) as (H1 & _ & H3 & _).
  exact (conj Hd (conj Hx (conj H1 H3))).
Defined.

(** ** Induction on tries, and the enumeration *)

Section TrieInduction.

Lemma height_child n label child :
  Children n !! label = Some child → height child < height n.
Proof.
  destruct n as [children endpoint exceptions]. simpl. intros Hl.
  apply Nat.lt_succ_r. revert label child Hl.
  apply (map_fold_weak_ind
           (λ r m, ∀ label child, m !! label = Some child → height child ≤ r)).
  - intros label child Hl. by rewrite lookup_empty in Hl.
  - intros i x m r Hfresh IH label child Hl.
    destruct (decide (i = label)) as [->|Hne].
    + rewrite lookup_insert_eq in Hl. injection Hl as ->. lia.
    + rewrite lookup_insert_ne in Hl by done. specialize (IH _ _ Hl). lia.
Qed.

(** Induction on the structure of a trie: a property that holds of a node
    whenever it holds of its children holds of every node. *)
Lemma Node_children_ind (P : Node → Prop) :
  (∀ n, (∀ label child, Children n !! label = Some child → P child) → P n) →
  ∀ n, P n.
Proof.
  intros Hstep n.
  assert (∀ h n, height n < h → P n) as Hh.
  { induction h as [|h IH]; intros m Hm; [lia|].
    apply Hstep. intros label child Hl. apply IH.
    pose proof (height_child _ _ _ Hl). lia. }
  apply (Hh (S (height n))). lia.
Qed.

(** No path is as long as the height. *)
Lemma nodeAt_length n path c :
  nodeAt n path = Some c → length path < height n.
Proof.
  revert n. induction path as [|label rest IH]; intros n; simpl.
  - intros _. destruct n. simpl. lia.
  - destruct (Children n !! label) as [child|] eqn:Hl; [|done].
    intros Hat. apply IH in Hat. pose proof (height_child _ _ _ Hl). lia.
Qed.

End TrieInduction.

Section Enumeration.

Lemma extractEntries_unfold node prefix :
  extractEntries node prefix
  = (if IsEndpoint node
     then [(Join (reverse prefix) ".", mapKeys (Exceptions node))]
     else []) ++
    foldr (uncurry (λ part child acc, acc ++ extractEntries child (prefix ++ [part])))
          [] (map_to_list (Children node)).
Proof.
  destruct node as [children endpoint exceptions]. simpl.
  f_equal. by rewrite map_fold_foldr.
Qed.

Lemma extractDomainsFromTrie_unfold node prefix result :
  extractDomainsFromTrie node prefix result
  = foldr (uncurry (λ part child result,
                      extractDomainsFromTrie child (prefix ++ [part]) result))
          (if IsEndpoint node
           then result ++
                [if decide (0 < size (Exceptions node))
                 then FormatDomainWithExceptions (Join (reverse prefix) ".")
                                                 (mapKeys (Exceptions node))
                 else Join (reverse prefix) "."]
           else result)
          (map_to_list (Children node)).
Proof.
  destruct node as [children endpoint exceptions]. simpl.
  by rewrite map_fold_foldr.
Qed.

Lemma mapKeys_empty {A} (m : gmap string A) : size m = 0 → mapKeys m = [].
Proof. intros ->%map_size_empty_inv. unfold mapKeys. by rewrite map_to_list_empty. Qed.

(** [extractDomainsFromTrie] appends the formatted entries of the
    enumeration to [result]. *)
Lemma extractDomainsFromTrie_entries node :
  ∀ prefix result,
    extractDomainsFromTrie node prefix result
    = result ++ (formatEntry <$> extractEntries node prefix).
Proof.
  induction node as [node IH] using Node_children_ind. intros prefix result.
  rewrite extractDomainsFromTrie_unfold, extractEntries_unfold.
  assert (∀ part child, (part, child) ∈ map_to_list (Children node) →
            ∀ prefix result,
              extractDomainsFromTrie child prefix result
              = result ++ (formatEntry <$> extractEntries child prefix)) as IH'.
  { intros part child Hin%elem_of_map_to_list. by eapply IH. }
  clear IH. rewrite fmap_app, app_assoc.
  set (own := if IsEndpoint node then _ else _).
  assert (own = result ++ (formatEntry <$>
            (if IsEndpoint node
             then [(Join (reverse prefix) ".", mapKeys (Exceptions node))]
             else []))) as ->.
  { unfold own. destruct (IsEndpoint node); simpl; [|by rewrite app_nil_r].
    f_equal. f_equal. unfold formatEntry. simpl.
    case_decide as Hs; [done|].
    rewrite mapKeys_empty; [done|]. lia. }
  generalize (result ++ (formatEntry <$>
            (if IsEndpoint node
             then [(Join (reverse prefix) ".", mapKeys (Exceptions node))]
             else []))) as start.
  induction (map_to_list (Children node)) as [|[part child] l IHl]; intros start.
  - simpl. by rewrite app_nil_r.
  - simpl. rewrite (IH' part child) by (by left).
    rewrite IHl by (intros; eapply IH'; by right).
    by rewrite fmap_app, app_assoc.
Qed.

(** The enumeration lists the endpoints of the trie: an entry is
    enumerated exactly when it is the domain and the exceptions of an
    endpoint at some path. *)
Lemma elem_of_extractEntries node :
  ∀ prefix entry,
    entry ∈ extractEntries node prefix ↔
    ∃ path c, nodeAt node path = Some c ∧ IsEndpoint c = true ∧
              entry = (Join (reverse (prefix ++ path)) ".", mapKeys (Exceptions c)).
Proof.
  induction node as [node IH] using Node_children_ind. intros prefix entry.
  rewrite extractEntries_unfold, elem_of_app.
  assert (entry ∈ foldr (uncurry (λ part child acc,
                                    acc ++ extractEntries child (prefix ++ [part])))
                        [] (map_to_list (Children node))
          ↔ ∃ part child, Children node !! part = Some child ∧
                          entry ∈ extractEntries child (prefix ++ [part])) as ->.
  { setoid_rewrite <- elem_of_map_to_list.
    induction (map_to_list (Children node)) as [|[part child] l IHl]; simpl.
    - split; [by intros ?%elem_of_nil|]. by intros (? & ? & ?%elem_of_nil & _).
    - rewrite elem_of_app, IHl. split.
      + intros [(part' & child' & Hin & He)|He].
        * exists part', child'. split; [by right|done].
        * exists part, child. split; [by left|done].
      + intros (part' & child' & Hin & He).
        apply elem_of_cons in Hin as [[= -> ->]|Hin]; [by right|].
        left. by exists part', child'. }
  split.
  - intros [Hown|(part & child & Hl & He)].
    + destruct (IsEndpoint node) eqn:Hend; [|by apply elem_of_nil in Hown].
      apply list_elem_of_singleton in Hown. exists [], node.
      by rewrite app_nil_r.
    + apply (IH _ _ Hl) in He as (path & c & Hat & Hend & ->).
      exists (part :: path), c. simpl. rewrite Hl.
      by rewrite <- app_assoc.
  - intros (path & c & Hat & Hend & ->).
    destruct path as [|part path]; simpl in Hat.
    + injection Hat as <-. left. rewrite Hend, app_nil_r. by left.
    + destruct (Children node !! part) as [child|] eqn:Hl; [|done].
      right. exists part, child. split; [done|].
      apply (IH _ _ Hl). exists path, c. by rewrite <- app_assoc.
Qed.

End Enumeration.

Section EnumerationOnce.

(** The enumeration visits every endpoint once: it is the image of a list
    of distinct paths, each leading to an endpoint. *)
Lemma extractEntries_paths node :
  ∀ prefix, ∃ paths : list (list string),
    NoDup paths ∧
    (∀ path, path ∈ paths → endpointAt node path = true) ∧
    extractEntries node prefix
    = (λ path, (Join (reverse (prefix ++ path)) ".",
                mapKeys (exceptionsAt node path))) <$> paths.
Proof.
  induction node as [node IH] using Node_children_ind. intros prefix.
  set (F := λ path, (Join (reverse (prefix ++ path)) ".",
                     mapKeys (exceptionsAt node path))).
  assert (∀ l : list (string * Node),
            NoDup l.*1 →
            (∀ part child, (part, child) ∈ l → Children node !! part = Some child) →
            ∃ paths : list (list string),
              NoDup paths ∧
              (∀ path, path ∈ paths →
                 endpointAt node path = true ∧
                 ∃ part rest, path = part :: rest ∧ part ∈ l.*1) ∧
              foldr (uncurry (λ part child acc,
                                acc ++ extractEntries child (prefix ++ [part])))
                    [] l
              = F <$> paths) as Hchildren.
  { induction l as [|[part child] l IHl]; intros Hnd Hl.
    - exists []. split; [constructor|]. split; [|done].
      by intros path ?%elem_of_nil.
    - apply NoDup_cons in Hnd as [Hfresh Hnd].
      destruct IHl as (pathsL & HndL & HinL & HeqL); [done| |].
      { intros ???. apply Hl. by right. }
      assert (Children node !! part = Some child) as Hchild by (apply Hl; by left).
      destruct (IH part child Hchild (prefix ++ [part])) as (pathsC & HndC & HinC & HeqC).
      exists (pathsL ++ (cons part <$> pathsC)). split; [|split].
      + apply NoDup_app. split; [done|]. split.
        * intros path Hp1 Hp2.
          apply HinL in Hp1 as (_ & part' & rest & -> & Hpart').
          apply list_elem_of_fmap in Hp2 as (rest' & [= -> ->] & _). done.
        * apply NoDup_fmap_2; [|done]. by intros ?? [= ?].
      + intros path [Hp|Hp]%elem_of_app.
        * apply HinL in Hp as (Hend & part' & rest & -> & Hpart').
          split; [done|]. exists part', rest. split; [done|]. by right.
        * apply list_elem_of_fmap in Hp as (rest & -> & Hrest). split.
          -- unfold endpointAt. simpl. rewrite Hchild. by apply HinC.
          -- exists part, rest. split; [done|]. by left.
      + simpl. rewrite HeqL, HeqC, fmap_app. f_equal.
        rewrite <- list_fmap_compose. apply list_fmap_ext.
        intros _ rest _. unfold F, exceptionsAt. simpl.
        by rewrite Hchild, <- app_assoc. }
  destruct (Hchildren (map_to_list (Children node))) as (paths & Hnd & Hin & Heq).
  { apply NoDup_fst_map_to_list. }
  { intros part child. apply elem_of_map_to_list. }
  rewrite extractEntries_unfold, Heq.
  destruct (IsEndpoint node) eqn:Hend.
  - exists ([] :: paths). split; [|split].
    + apply NoDup_cons. split; [|done].
      intros (_ & part & rest & ? & _)%Hin. done.
    + intros path [->|Hp]%elem_of_cons; [|by apply Hin].
      unfold endpointAt. by simpl.
    + simpl. f_equal. unfold F, exceptionsAt. simpl. by rewrite app_nil_r.
  - exists paths. split; [done|]. split; [|done].
    intros path Hp. by apply Hin.
Qed.

End EnumerationOnce.

(** ** The content of a trie after insertions *)

Section TrieContent.

Lemma nodeAt_NewNode path :
  nodeAt NewNode path = if decide (path = []) then Some NewNode else None.
Proof. destruct path as [|label rest]; [done|]. simpl. by rewrite lookup_empty. Qed.

Lemma endpointAt_child n label rest :
  endpointAt n (label :: rest)
  = endpointAt (default NewNode (Children n !! label)) rest.
Proof.
  unfold endpointAt. simpl. destruct (Children n !! label); [done|].
  simpl. rewrite nodeAt_NewNode. by case_decide.
Qed.

Lemma exceptionsAt_child n label rest :
  exceptionsAt n (label :: rest)
  = exceptionsAt (default NewNode (Children n !! label)) rest.
Proof.
  unfold exceptionsAt. simpl. destruct (Children n !! label); [done|].
  simpl. rewrite nodeAt_NewNode. by case_decide.
Qed.

Lemma endpointAt_insert_child children endpoint exceptions label child rest :
  endpointAt (mkNode (<[label := child]> children) endpoint exceptions) (label :: rest)
  = endpointAt child rest.
Proof. unfold endpointAt. simpl. by rewrite lookup_insert_eq. Qed.

(** Insertion marks the node at the end of [parts] and no other. *)
Lemma endpointAt_insertParts n parts exceptions path :
  endpointAt (insertParts n parts exceptions) path
  = if decide (path = parts) then true else endpointAt n path.
Proof.
  revert n path. induction parts as [|p ps IH]; intros n path.
  - destruct path as [|label rest]; [done|].
    rewrite decide_False by done. unfold endpointAt. by simpl.
  - destruct path as [|label rest]; [done|].
    destruct (decide (label = p)) as [->|Hne].
    + simpl insertParts. rewrite endpointAt_insert_child, IH.
      rewrite (endpointAt_child n p rest).
      destruct (decide (rest = ps)) as [->|Hr].
      * by rewrite decide_True.
      * rewrite decide_False; [done|]. by intros [= ?].
    + rewrite decide_False by (by intros [= ?]).
      unfold endpointAt. simpl. by rewrite lookup_insert_ne.
Qed.

(** Insertion adds the exceptions at the end of [parts] and nowhere else. *)
Lemma exceptionsAt_insertParts n parts exceptions path :
  exceptionsAt (insertParts n parts exceptions) path
  = if decide (path = parts) then addExceptions (exceptionsAt n path) exceptions
    else exceptionsAt n path.
Proof.
  revert n path. induction parts as [|p ps IH]; intros n path.
  - destruct path as [|label rest]; [done|].
    rewrite decide_False by done. unfold exceptionsAt. by simpl.
  - destruct path as [|label rest]; [done|].
    destruct (decide (label = p)) as [->|Hne].
    + simpl insertParts. unfold exceptionsAt at 1. simpl. rewrite lookup_insert_eq.
      fold (exceptionsAt (insertParts (default NewNode (Children n !! p)) ps exceptions) rest).
      rewrite IH. rewrite (exceptionsAt_child n p rest).
      destruct (decide (rest = ps)) as [->|Hr].
      * by rewrite decide_True.
      * rewrite decide_False; [done|]. by intros [= ?].
    + rewrite decide_False by (by intros [= ?]).
      unfold exceptionsAt. simpl. by rewrite lookup_insert_ne.
Qed.

Lemma insertPairs_snoc root entries entry :
  insertPairs root (entries ++ [entry])
  = InsertDomain (insertPairs root entries) entry.1 entry.2.
Proof. unfold insertPairs. by rewrite foldl_app. Qed.

Lemma insertEntries_pairs root entries :
  insertEntries root entries
  = insertPairs root (ParseDomainWithExceptions <$> entries).
Proof.
  revert root. induction entries as [|e es IH]; intros root; [done|].
  rewrite insertEntries_cons, IH. done.
Qed.

(** The endpoints of a trie built from entries are the paths of their
    domains. *)
Lemma endpointAt_insertPairs entries path :
  endpointAt (insertPairs NewNode entries) path = true ↔
  ∃ entry, entry ∈ entries ∧ ReverseDomainParts entry.1 = path.
Proof.
  induction entries as [|entry entries IH] using rev_ind.
  - unfold endpointAt. simpl. rewrite nodeAt_NewNode.
    split; [by case_decide|]. by intros (? & ?%elem_of_nil & _).
  - rewrite insertPairs_snoc. unfold InsertDomain.
    rewrite endpointAt_insertParts. setoid_rewrite elem_of_app.
    setoid_rewrite list_elem_of_singleton.
    case_decide as Hp.
    + split; [|done]. intros _. exists entry. split; [by right|done].
    + rewrite IH. split.
      * intros (e & Hin & He). exists e. split; [by left|done].
      * intros (e & [Hin| ->] & He); [by exists e|done].
Qed.

Lemma addExceptions_dom m exceptions label :
  label ∈ dom (addExceptions m exceptions) ↔ label ∈ dom m ∨ label ∈ exceptions.
Proof.
  rewrite !elem_of_dom, addExceptions_lookup.
  destruct (decide (label ∈ exceptions)) as [Hin|Hin].
  - split; [by right|]. intros _. by eexists.
  - split; [by left|]. by intros [?|?].
Qed.

(** The exceptions at a path are those of the entries with that path. *)
Lemma exceptionsAt_insertPairs entries path label :
  label ∈ dom (exceptionsAt (insertPairs NewNode entries) path) ↔
  ∃ entry, entry ∈ entries ∧ ReverseDomainParts entry.1 = path ∧ label ∈ entry.2.
Proof.
  induction entries as [|entry entries IH] using rev_ind.
  - unfold exceptionsAt. simpl. rewrite nodeAt_NewNode.
    split; [|by intros (? & ?%elem_of_nil & _)].
    case_decide; simpl; by rewrite dom_empty_L, elem_of_empty.
  - rewrite insertPairs_snoc. unfold InsertDomain.
    rewrite exceptionsAt_insertParts. setoid_rewrite elem_of_app.
    setoid_rewrite list_elem_of_singleton.
    case_decide as Hp.
    + rewrite addExceptions_dom, IH. split.
      * intros [(e & Hin & He & Hl)|Hl].
        -- exists e. split; [by left|done].
        -- exists entry. split; [by right|done].
      * intros (e & [Hin| ->] & He & Hl); [left; by exists e|by right].
    + rewrite IH. split.
      * intros (e & Hin & He & Hl). exists e. split; [by left|done].
      * intros (e & [Hin| ->] & He & Hl); [by exists e|done].
Qed.

End TrieContent.

(** ** The structural invariants of a trie *)

Section Invariants.

Lemma Reachable_root_not_endpoint root : Reachable root → IsEndpoint root = false.
Proof.
  induction 1 as [|root domain exceptions _ IH]; [done|].
  unfold InsertDomain.
  pose proof (ReverseDomainParts_nonempty domain).
  by destruct (ReverseDomainParts domain).
Qed.

Lemma Reachable_exceptions_at_endpoints root path :
  Reachable root → endpointAt root path = false → exceptionsAt root path = ∅.
Proof.
  intros H. revert path.
  induction H as [|root domain exceptions _ IH]; intros path.
  - unfold exceptionsAt. rewrite nodeAt_NewNode. by case_decide.
  - unfold InsertDomain.
    rewrite endpointAt_insertParts, exceptionsAt_insertParts.
    case_decide; [done|]. apply IH.
Qed.

End Invariants.

(** C10. A trie reachable from a fresh root by insertions keeps the
    structural invariants: its root is not an endpoint; a node with a
    non-empty exception set is an endpoint; and the trie is a finite tree,
    every path in it being shorter than its height. *)
Theorem reachable_trie_invariants (root : Node) :
  Reachable root →
  IsEndpoint root = false ∧
  (∀ path node, nodeAt root path = Some node →
                Exceptions node ≠ ∅ → IsEndpoint node = true) ∧
  (∀ path node, nodeAt root path = Some node → length path < height root).
Proof.
  intros Hr. split; [by apply Reachable_root_not_endpoint|]. split.
  - intros path node Hat Hex.
    destruct (IsEndpoint node) eqn:Hend; [done|]. exfalso. apply Hex.
    pose proof (Reachable_exceptions_at_endpoints root path Hr) as H.
    unfold endpointAt, exceptionsAt in H. rewrite Hat in H. by apply H.
  - intros path node. apply nodeAt_length.
Qed.

(** The trie of [example.com !mail] and [ads.example.com]. *)
Lemma reachable_trie_invariants_witness :
  IsEndpoint (InsertDomain (InsertDomain NewNode "example.com" ["mail"])
                           "ads.example.com" []) = false.
Proof.
  apply (reachable_trie_invariants
           (InsertDomain (InsertDomain NewNode "example.com" ["mail"])
                         "ads.example.com" [])).
  apply Reachable_insert, Reachable_insert, Reachable_new.
Defined.

(** ** Enumeration after insertion *)

Section EnumerationOfBuild.

(** The path of a domain determines its case-folded form, and conversely. *)
Lemma Join_ReverseDomainParts domain :
  Join (reverse (ReverseDomainParts domain)) "." = ToLower domain.
Proof.
  unfold ReverseDomainParts. rewrite reverse_involutive. apply Join_Split.
Qed.

Lemma ReverseDomainParts_inj d1 d2 :
  ReverseDomainParts d1 = ReverseDomainParts d2 ↔ ToLower d1 = ToLower d2.
Proof.
  split.
  - intros H. by rewrite <- !Join_ReverseDomainParts, H.
  - intros H. unfold ReverseDomainParts. by rewrite H.
Qed.

Lemma elem_of_mapKeys {A} (m : gmap string A) label :
  label ∈ mapKeys m ↔ label ∈ dom m.
Proof.
  unfold mapKeys. rewrite elem_of_dom, list_elem_of_fmap. split.
  - intros ([k x] & -> & Hin%elem_of_map_to_list). by exists x.
  - intros [x Hx]. exists (label, x). split; [done|]. by apply elem_of_map_to_list.
Qed.

(** What the enumeration of a trie built from entries holds: the
    case-folded domain of each entry, with the exceptions stored at the
    path of that domain. *)
Lemma elem_of_extractEntries_insertPairs entries e :
  e ∈ extractEntries (insertPairs NewNode entries) [] ↔
  ∃ entry, entry ∈ entries ∧
    e = (ToLower entry.1,
         mapKeys (exceptionsAt (insertPairs NewNode entries)
                               (ReverseDomainParts entry.1))).
Proof.
  rewrite elem_of_extractEntries. split.
  - intros (path & c & Hat & Hend & ->).
    assert (endpointAt (insertPairs NewNode entries) path = true) as Hep.
    { unfold endpointAt. by rewrite Hat. }
    apply endpointAt_insertPairs in Hep as (entry & Hin & <-).
    exists entry. split; [done|]. simpl.
    rewrite Join_ReverseDomainParts. unfold exceptionsAt. by rewrite Hat.
  - intros (entry & Hin & ->).
    assert (endpointAt (insertPairs NewNode entries)
                       (ReverseDomainParts entry.1) = true) as Hep.
    { apply endpointAt_insertPairs. by exists entry. }
    unfold endpointAt, exceptionsAt in *.
    destruct (nodeAt _ (ReverseDomainParts entry.1)) as [c|] eqn:Hat; [|done].
    exists (ReverseDomainParts entry.1), c. simpl.
    by rewrite Join_ReverseDomainParts.
Qed.

(** The enumeration of a trie built from entries yields one entry for each
    case-folded domain, with the exceptions of all the entries of that
    domain. *)
Lemma enumerates_insertPairs entries d X :
  enumerates (insertPairs NewNode entries) (d, X) ↔
  (∃ entry : string * list string, entry ∈ entries ∧ ToLower entry.1 = d) ∧
  (∀ label, label ∈ X ↔
            ∃ entry : string * list string,
              entry ∈ entries ∧ ToLower entry.1 = d ∧ label ∈ entry.2).
Proof.
  unfold enumerates.
  assert (∀ (entry : string * list string) label,
    label ∈ mapKeys (exceptionsAt (insertPairs NewNode entries)
                                  (ReverseDomainParts entry.1)) ↔
    ∃ entry' : string * list string,
      entry' ∈ entries ∧ ToLower entry'.1 = ToLower entry.1
              ∧ label ∈ entry'.2) as Hkeys.
  { intros entry label. rewrite elem_of_mapKeys, exceptionsAt_insertPairs.
    by setoid_rewrite ReverseDomainParts_inj. }
  split.
  - intros (e & He & Heq). apply elem_of_extractEntries_insertPairs in He
      as (entry & Hin & ->).
    unfold toEntry in Heq. simpl in Heq. injection Heq as <- <-.
    split; [by exists entry|].
    intros label. by rewrite elem_of_list_to_set, Hkeys.
  - intros [(entry & Hin & <-) HX].
    eexists. split.
    + apply elem_of_extractEntries_insertPairs. by exists entry.
    + unfold toEntry. simpl. f_equal. apply set_eq. intros label.
      by rewrite elem_of_list_to_set, Hkeys, HX.
Qed.

End EnumerationOfBuild.

Section LoadedLists.

(** No domain is enumerated twice. *)
Lemma NoDup_domains_insertPairs entries :
  NoDup (extractEntries (insertPairs NewNode entries) []).*1.
Proof.
  destruct (extractEntries_paths (insertPairs NewNode entries) [])
    as (paths & Hnd & Hin & ->).
  rewrite <- list_fmap_compose. apply NoDup_fmap_2_strong; [|done].
  intros p1 p2 H1 H2 Heq. simpl in Heq.
  apply Hin, endpointAt_insertPairs in H1 as (e1 & _ & <-).
  apply Hin, endpointAt_insertPairs in H2 as (e2 & _ & <-).
  rewrite !Join_ReverseDomainParts in Heq. by apply ReverseDomainParts_inj.
Qed.

(** Loading a file inserts its parsed entries in the order of the lines. *)
Lemma loadLines_parsed root lines :
  foldl loadLine root lines
  = insertPairs root
      (ParseDomainWithExceptions <$> filter isEntryLine (TrimSpace <$> lines)).
Proof.
  revert root. induction lines as [|text lines IH]; intros root; [done|].
  simpl. rewrite IH. rewrite filter_cons.
  unfold loadLine at 1.
  destruct (decide (TrimSpace text = "")) as [He|He].
  - rewrite decide_False; [done|]. unfold isEntryLine. rewrite He.
    rewrite bool_decide_eq_true_2 by done. simpl. tauto.
  - destruct (HasPrefix (TrimSpace text) "#") eqn:Hp.
    + rewrite decide_False; [done|].
      unfold isEntryLine. rewrite Hp, andb_false_r. simpl. tauto.
    + rewrite decide_True.
      2:{ unfold isEntryLine. by rewrite Hp, bool_decide_eq_false_2. }
      simpl. by destruct (ParseDomainWithExceptions (TrimSpace text)).
Qed.

Lemma loadText_parsed content :
  loadText content = insertPairs NewNode (parseFile content).
Proof. apply loadLines_parsed. Qed.

End LoadedLists.

Section GeneratedHeader.

Lemma dropFinalEmpty_cons piece pieces :
  pieces ≠ [] → dropFinalEmpty (piece :: pieces) = piece :: dropFinalEmpty pieces.
Proof. destruct pieces; [done|]. intros _. by destruct piece. Qed.

(** The first line of a text that holds a newline. *)
Lemma ScanLines_line line rest :
  hasByte "010" line = false →
  ScanLines (line +:+ newline +:+ rest) = dropCR line :: ScanLines rest.
Proof.
  intros Hline. unfold ScanLines, newline.
  change (line +:+ String "010" "" +:+ rest) with (line +:+ String "010" rest).
  rewrite Split_app_sep, Split_no_sep by done. simpl app.
  rewrite dropFinalEmpty_cons by apply Split_nonempty. done.
Qed.

(** A line that is a comment, or empty, adds no entry. *)
Lemma parseFile_skip line rest :
  hasByte "010" line = false →
  isEntryLine (TrimSpace (dropCR line)) = false →
  parseFile (line +:+ newline +:+ rest) = parseFile rest.
Proof.
  intros Hline Hskip. unfold parseFile. rewrite ScanLines_line by done.
  rewrite fmap_cons, filter_cons, decide_False; [done|].
  rewrite Hskip. simpl. tauto.
Qed.

Lemma comment_line_skipped text :
  isEntryLine (TrimSpace (dropCR (String "#" text))) = false.
Proof.
  assert (∃ t, dropCR (String "#" text) = String "#" t) as [t ->].
  { destruct text as [|c text]; [by exists ""|]. by eexists. }
  assert (∃ t', TrimSpace (String "#" t) = String "#" t') as [t' ->].
  { unfold TrimSpace. simpl. destruct (trimRight isSpace t); by eexists. }
  done.
Qed.

(** The header that [SaveDomainList] writes is made of comments: a file
    parses as its lines after the header. *)
Lemma parseFile_header now body :
  hasByte "010" now = false →
  parseFile (fileHeader now +:+ body) = parseFile body.
Proof.
  intros Hnow. unfold fileHeader.
  rewrite !append_assoc.
  rewrite parseFile_skip; [|done|done].
  rewrite <- (append_assoc "# Last update: " now).
  rewrite parseFile_skip.
  - change (newline +:+ body) with ("" +:+ newline +:+ body).
    by rewrite parseFile_skip.
  - by rewrite hasByte_app, Hnow.
  - apply comment_line_skipped.
Qed.

Lemma listFileText_body now domains :
  listFileText now domains = fileHeader now +:+ listBody domains.
Proof.
  unfold listFileText, listBody.
  assert (∀ acc, foldl (λ text domain, text +:+ domain +:+ newline) acc domains
                 = acc +:+ foldl (λ text domain, text +:+ domain +:+ newline)
                                 "" domains) as Hacc.
  { induction domains as [|d ds IH]; intros acc; simpl.
    - by rewrite append_nil_r.
    - rewrite (IH (acc +:+ d +:+ newline)), (IH ("" +:+ d +:+ newline)).
      by rewrite !append_assoc. }
  apply Hacc.
Qed.

End GeneratedHeader.

(** ** The policy evaluator *)

Section Evaluator.

Lemma anyListMatches_true tries refs name :
  anyListMatches tries refs name = true ↔ someLoadedListMatches tries refs name.
Proof.
  unfold someLoadedListMatches.
  induction refs as [|listName rest IH]; simpl.
  - split; [done|]. intros (n & t & Hin & _). by apply elem_of_nil in Hin.
  - destruct (tries !! listName) as [trie|] eqn:Hl.
    + destruct (IsDomainBlocked trie name) eqn:Hm.
      * split; [|done]. intros _. exists listName, trie. split; [by left|done].
      * rewrite IH. split.
        -- intros (n & t & Hin & Ht & Hb). exists n, t. split; [by right|done].
        -- intros (n & t & Hin & Ht & Hb).
           apply elem_of_cons in Hin as [->|Hin]; [congruence|]. by exists n, t.
    + rewrite IH. split.
      * intros (n & t & Hin & Ht & Hb). exists n, t. split; [by right|done].
      * intros (n & t & Hin & Ht & Hb).
        apply elem_of_cons in Hin as [->|Hin]; [congruence|]. by exists n, t.
Qed.

End Evaluator.

(** C2. [CheckDomain] denies a client without a policy.  In block mode it
    denies exactly when some referenced block list with a loaded trie
    matches the name, and allows otherwise; in allow mode it allows exactly
    when some referenced allow list with a loaded trie matches, and denies
    otherwise; references without a trie are skipped.  Every other mode
    is denied. *)
Theorem CheckDomain_decides (df : DNSFilter) (ip name : string) :
  (Clients df !! ip = None → CheckDomain df ip name = Deny) ∧
  (∀ config, Clients df !! ip = Some config →
     (Mode config = "blocklist" →
        (CheckDomain df ip name = Deny ↔
           someLoadedListMatches (BlocklistTries df) (BlocklistRefs config) name) ∧
        (CheckDomain df ip name = Allow ↔
           ¬ someLoadedListMatches (BlocklistTries df) (BlocklistRefs config) name)) ∧
     (Mode config = "whitelist" →
        (CheckDomain df ip name = Allow ↔
           someLoadedListMatches (WhitelistTries df) (WhitelistRefs config) name) ∧
        (CheckDomain df ip name = Deny ↔
           ¬ someLoadedListMatches (WhitelistTries df) (WhitelistRefs config) name)) ∧
     (Mode config ≠ "blocklist" → Mode config ≠ "whitelist" →
        CheckDomain df ip name = Deny)).
Proof.
  unfold CheckDomain, Allow, Deny. split.
  - by intros ->.
  - intros config ->. split; [|split].
    + intros Hm. rewrite decide_True by done. rewrite <- anyListMatches_true.
      destruct (anyListMatches _ _ _); split; split; congruence.
    + intros Hm.
      assert (Mode config ≠ "blocklist") by (by intros E; rewrite E in *).
      rewrite decide_False, decide_True by done. rewrite <- anyListMatches_true.
      destruct (anyListMatches _ _ _); split; split; congruence.
    + intros ??. by rewrite !decide_False.
Qed.

(** A block-mode client whose list ["ads"] holds [example.com]. *)
Lemma CheckDomain_decides_witness :
  let df := mkDNSFilter "/clients.json" "/blocklists" "/whitelists"
              {[ "ads" := buildTrie ["example.com"] ]} ∅
              {[ "10.0.0.1" := mkClientConfig "" ["ads"; "gone"] [] "blocklist" ]} in
  CheckDomain df "10.0.0.1" "www.example.com" = Deny ∧
  CheckDomain df "10.0.0.9" "www.example.com" = Deny.
Proof.
  intros df.
  destruct (CheckDomain_decides df "10.0.0.1" "www.example.com") as [_ H].
  destruct (H (mkClientConfig "" ["ads"; "gone"] [] "blocklist") eq_refl)
    as [Hblock _].
  destruct (Hblock eq_refl) as [Hdeny _].
  split.
  - apply Hdeny. exists "ads", (buildTrie ["example.com"]).
    split; [by left|]. split; [done|]. by vm_compute.
  - by apply (CheckDomain_decides df "10.0.0.9" "www.example.com").
Defined.

(** ** Queries with an empty label *)

Section EmptyLabels.

Lemma Split_ToLower s :
  Split (ToLower s) "." = ToLower <$> Split s ".".
Proof.
  induction s as [|c s IH]; simpl; [done|].
  destruct (decide (c = "."%char)) as [->|Hc].
  - change (lowerByte ".") with "."%char. rewrite decide_True by done.
    simpl. by rewrite IH.
  - rewrite decide_False.
    2:{ intros E. apply Hc. apply (lowerByte_eq_special c "."); [|done].
        left. vm_compute. lia. }
    rewrite IH. by destruct (Split s ".").
Qed.

Lemma ToLower_empty s : ToLower s = "" → s = "".
Proof. by destruct s. Qed.

(** The first label [IsDomainBlocked] looks up is the last label of the
    name as written. *)
Lemma ReverseDomainParts_head name :
  head (ReverseDomainParts name) = ToLower <$> last (labelsOf name).
Proof.
  unfold ReverseDomainParts, labelsOf. rewrite Split_ToLower.
  rewrite head_reverse. by rewrite fmap_last.
Qed.

(** Entries with non-empty labels never give the root a child for the
    empty label. *)
Lemma insertEntries_empty_child root entries :
  Forall domainLabelsNonEmpty entries →
  Children (insertEntries root entries) !! "" = Children root !! "".
Proof.
  intros H. revert root.
  induction H as [|e es He _ IH]; intros root; [done|].
  rewrite insertEntries_cons, IH.
  unfold InsertDomain.
  pose proof (ReverseDomainParts_head (ParseDomainWithExceptions e).1) as Hh.
  destruct (ReverseDomainParts _) as [|p ps] eqn:E.
  { by apply ReverseDomainParts_nonempty in E. }
  simpl in *. apply lookup_insert_ne.
  destruct (last _) as [l|] eqn:El; [|done].
  simpl in Hh. injection Hh as Hp. subst p.
  intros Hl. apply ToLower_empty in Hl. subst l.
  apply last_Some_elem_of in El.
  unfold domainLabelsNonEmpty in He. rewrite Forall_forall in He.
  by apply (He "").
Qed.

Lemma IsDomainBlocked_trailing_empty entries name :
  Forall domainLabelsNonEmpty entries →
  endsWithEmptyLabel name →
  IsDomainBlocked (buildTrie entries) name = false.
Proof.
  intros Hes Hname. unfold IsDomainBlocked, buildTrie.
  pose proof (ReverseDomainParts_head name) as Hh.
  unfold endsWithEmptyLabel in Hname. rewrite Hname in Hh.
  destruct (ReverseDomainParts name) as [|p ps]; [done|].
  simpl in Hh. injection Hh as ->. simpl.
  by rewrite insertEntries_empty_child.
Qed.

(** A fully-qualified name, with its trailing dot, ends with an empty
    label. *)
Lemma fqdn_endsWithEmptyLabel s : endsWithEmptyLabel (s +:+ ".").
Proof.
  unfold endsWithEmptyLabel, labelsOf.
  change (s +:+ ".") with (s +:+ String "." "").
  rewrite Split_app_sep. simpl. by rewrite last_snoc.
Qed.

End EmptyLabels.

(** C3, as stated, fails: a query that begins with an empty label, such as
    [.example.com], matches the list that holds [example.com]. *)
Lemma leading_empty_label_query_matches :
  ¬ (∀ entries name,
       Forall domainLabelsNonEmpty entries →
       beginsWithEmptyLabel name ∨ endsWithEmptyLabel name →
       IsDomainBlocked (buildTrie entries) name = false).
Proof.
  intros H.
  specialize (H ["example.com"] ".example.com").
  assert (IsDomainBlocked (buildTrie ["example.com"]) ".example.com" = false) as Hf.
  { apply H.
    - apply Forall_singleton. unfold domainLabelsNonEmpty.
      vm_compute. by repeat constructor.
    - left. by vm_compute. }
  by vm_compute in Hf.
Qed.

(** C3, amended. A query whose label sequence ends with an empty label (the
    empty name, or a fully-qualified name with its trailing dot, which is
    what the DNS handler passes on) matches no trie built from entries with
    non-empty labels; so the evaluation of such a query for a block-mode
    client, whose loaded block lists are all of this kind, allows it and
    [ServeDNS] hands the request to the next plugin. *)
Theorem trailing_empty_label_query_never_matches (name : string) :
  endsWithEmptyLabel name →
  (∀ entries, Forall domainLabelsNonEmpty entries →
              IsDomainBlocked (buildTrie entries) name = false) ∧
  (∀ ib df ip config,
     ipblocker.Filter ib = Some df →
     Clients df !! ip = Some config →
     Mode config = "blocklist" →
     builtFromNonEmptyLabels (BlocklistTries df) →
     CheckDomain df ip name = Allow ∧
     ipblocker.ServeDNS ib ip name = ipblocker.NextOrFailure).
Proof.
  intros Hname. split.
  - intros entries Hes. by apply IsDomainBlocked_trailing_empty.
  - intros ib df ip config Hib Hc Hm Hbuilt.
    assert (CheckDomain df ip name = Allow) as Hallow.
    { unfold CheckDomain, Allow. rewrite Hc, decide_True by done.
      destruct (anyListMatches _ _ _) eqn:Hany; [|done].
      apply anyListMatches_true in Hany as (n & t & _ & Ht & Hb).
      apply Hbuilt in Ht as (entries & Hes & ->).
      by rewrite IsDomainBlocked_trailing_empty in Hb. }
    split; [done|]. unfold ipblocker.ServeDNS. by rewrite Hib, Hallow.
Qed.

(** The query [example.com.] of a client that blocks [example.com]. *)
Lemma trailing_empty_label_query_never_matches_witness :
  endsWithEmptyLabel "example.com." ∧
  IsDomainBlocked (buildTrie ["example.com"]) "example.com." = false.
Proof.
  pose proof (fqdn_endsWithEmptyLabel "example.com") as Hname.
  change ("example.com" +:+ ".") with "example.com." in Hname.
  split; [done|].
  apply (trailing_empty_label_query_never_matches "example.com." Hname).
  apply Forall_singleton. unfold domainLabelsNonEmpty.
  vm_compute. by repeat constructor.
Defined.

(** ** The control plane: requests for a target that does not exist *)

Section MissingTargets.
Import restapi.

Lemma listMissing_valid df listType name :
  listMissing df listType name → validListType listType = true.
Proof.
  intros (tries & Ht & _). unfold triesOf, validListType in *.
  destruct (decide (listType = "blocklist")) as [->|?]; [done|].
  destruct (decide (listType = "whitelist")) as [->|?]; done.
Qed.

End MissingTargets.

(** C4, on the code. For a list or a client that does not exist only the
    two GET handlers answer 404; PUT and DELETE on the list, POST and
    DELETE on its domains, and PUT and DELETE on the client answer 400,
    each with the body [{"error": message}]. *)
Theorem missing_target_status (df : DNSFilter) (fs : Disk)
    (listType name ip : string) (o : restapi.JSONObject) :
  listMissing df listType name →
  Clients df !! ip = None →
  let notFound := restapi.ErrorResponse ("list not found: " +:+ name) in
  let noClient := restapi.ErrorResponse ("client not found: " +:+ ip) in
  respond "GET" ["api"; "lists"; listType; name] None df fs
    = Some (restapi.mkResponse 404 notFound) ∧
  respond "PUT" ["api"; "lists"; listType; name] (Some o) df fs
    = Some (restapi.mkResponse 400 notFound) ∧
  respond "DELETE" ["api"; "lists"; listType; name] None df fs
    = Some (restapi.mkResponse 400 notFound) ∧
  respond "POST" ["api"; "lists"; listType; name; "domains"] (Some o) df fs
    = Some (restapi.mkResponse 400 notFound) ∧
  respond "DELETE" ["api"; "lists"; listType; name; "domains"] (Some o) df fs
    = Some (restapi.mkResponse 400 notFound) ∧
  respond "GET" ["api"; "clients"; ip] None df fs
    = Some (restapi.mkResponse 404 noClient) ∧
  respond "PUT" ["api"; "clients"; ip] (Some o) df fs
    = Some (restapi.mkResponse 400 noClient) ∧
  respond "DELETE" ["api"; "clients"; ip] None df fs
    = Some (restapi.mkResponse 400 noClient).
Proof.
  intros Hlist Hclient.
  pose proof (listMissing_valid _ _ _ Hlist) as Hvalid.
  destruct Hlist as (tries & Htries & Hname).
  unfold respond, restapi.route. simpl.
  unfold restapi.getListContent, restapi.updateList, restapi.deleteList,
    restapi.addDomains, restapi.removeDomains, restapi.getClientByIP,
    restapi.updateClient, restapi.deleteClient. simpl.
  rewrite Hvalid. simpl.
  unfold GetListContent, UpdateList, DeleteList, AddDomains, RemoveDomains,
    GetClientByIP, UpdateClient, DeleteClient. simpl.
  rewrite Htries, Hname, Hclient.
  repeat split.
Qed.

(** [DELETE /api/lists/blocklist/nope] on a filter without lists. *)
Lemma missing_target_status_witness :
  respond "DELETE" ["api"; "lists"; "blocklist"; "nope"] None
          (NewDNSFilter "/clients.json" "/blocklists" "/whitelists")
          (mkDisk ∅ true "2025-04-12T10:30:00Z")
  = Some (restapi.mkResponse 400 (restapi.ErrorResponse "list not found: nope")).
Proof.
  assert (listMissing (NewDNSFilter "/clients.json" "/blocklists" "/whitelists")
                      "blocklist" "nope") as Hl.
  { exists ∅. split; [done|]. apply lookup_empty. }
  assert (Clients (NewDNSFilter "/clients.json" "/blocklists" "/whitelists")
            !! "10.0.0.1" = None) as Hc by apply lookup_empty.
  exact (proj1 (proj2 (proj2
    (missing_target_status _ (mkDisk ∅ true "2025-04-12T10:30:00Z")
       "blocklist" "nope" "10.0.0.1"
       (restapi.mkJSONObject "" "" [] "" [] [] "") Hl Hc)))).
Defined.

(** ** Entries are never rejected *)

Section EntryErrors.

Lemma storeTrie_dirs df listType listName root :
  BlocklistDir (storeTrie df listType listName root) = BlocklistDir df ∧
  WhitelistDir (storeTrie df listType listName root) = WhitelistDir df.
Proof. unfold storeTrie. by case_decide. Qed.

Lemma storeTrie_lookup df listType listName root tries :
  triesOf df listType = Some tries →
  triesOf (storeTrie df listType listName root) listType
  = Some (<[listName := root]> tries).
Proof.
  unfold triesOf, storeTrie. intros H.
  destruct (decide (listType = "blocklist")); simpl.
  - by simplify_eq.
  - destruct (decide (listType = "whitelist")); by simplify_eq.
Qed.

End EntryErrors.

(** ** Letter case *)

Section LetterCase.

Lemma lowerByte_idemp c : lowerByte (lowerByte c) = lowerByte c.
Proof. destruct c as [[] [] [] [] [] [] [] []]; reflexivity. Qed.

Lemma ToLower_idemp s : ToLower (ToLower s) = ToLower s.
Proof.
  induction s as [|c s IH]; simpl; [done|]. by rewrite lowerByte_idemp, IH.
Qed.

Lemma ReverseDomainParts_ToLower name :
  ReverseDomainParts (ToLower name) = ReverseDomainParts name.
Proof. unfold ReverseDomainParts. by rewrite ToLower_idemp. Qed.

End LetterCase.

(** C6, on the code. The case of a query and of the domain of an entry is
    folded, by [ReverseDomainParts]; the case of an exception label is not.
    The entry ["example.com !MAIL"] therefore matches [mail.example.com],
    which the entry ["example.com !mail"] excepts. *)
Theorem exception_case_is_not_folded :
  (∀ root name, IsDomainBlocked root (ToLower name) = IsDomainBlocked root name) ∧
  (∀ root domain exceptions,
     InsertDomain root (ToLower domain) exceptions
     = InsertDomain root domain exceptions) ∧
  IsDomainBlocked (buildTrie ["example.com !MAIL"]) "mail.example.com" = true ∧
  IsDomainBlocked (buildTrie ["example.com !mail"]) "mail.example.com" = false.
Proof.
  split; [|split; [|split]].
  - intros root name. unfold IsDomainBlocked. by rewrite ReverseDomainParts_ToLower.
  - intros root domain exceptions. unfold InsertDomain.
    by rewrite ReverseDomainParts_ToLower.
  - by vm_compute.
  - by vm_compute.
Qed.

(** ** Formatting and parsing again *)

Section FormatParse.

Lemma elem_of_collectExceptions x parts :
  x ∈ collectExceptions parts →
  x ≠ "" ∧ ∃ part, part ∈ parts ∧ x = Trim (TrimSpace part) ", ".
Proof.
  induction parts as [|part rest IH]; simpl; [by intros ?%elem_of_nil|].
  case_decide as He.
  - intros (? & p & ? & ?)%IH. split; [done|]. exists p. split; [by right|done].
  - intros [->|Hin]%elem_of_cons.
    + split; [done|]. exists part. split; [by left|done].
    + apply IH in Hin as (? & p & ? & ?). split; [done|]. exists p.
      split; [by right|done].
Qed.


Lemma trim_both_same_length cut s :
  String.length (trimRight cut (trimLeft cut s)) = String.length s →
  trimRight cut (trimLeft cut s) = s.
Proof.
  intros Hl.
  pose proof (trimLeft_length cut s).
  pose proof (trimRight_length cut (trimLeft cut s)).
  assert (trimLeft cut s = s) as Heq by (apply trimLeft_same_length; lia).
  rewrite Heq in *. by apply trimRight_same_length.
Qed.

Lemma trimRight_snoc_keep cut s c :
  cut c = false → trimRight cut (s +:+ String c "") = s +:+ String c "".
Proof.
  intros Hc. induction s as [|k s IH]; simpl; [by rewrite Hc|].
  rewrite IH. by destruct s.
Qed.

(** An exception label is left alone by both trimmings. *)
Lemma isException_trimmed x :
  isException x →
  x ≠ "" ∧ hasByte "!" x = false ∧ TrimSpace x = x ∧ Trim x ", " = x.
Proof.
  unfold isException.
  intros [[H1 H2]%andb_prop_elim H3]%andb_prop_elim.
  apply bool_decide_unpack in H1, H3.
  apply negb_prop_elim, Is_true_false in H2.
  split; [done|]. split; [done|].
  assert (TrimSpace x = x) as Hs.
  { apply trim_both_same_length.
    pose proof (trimLeft_length isSpace x).
    pose proof (trimRight_length isSpace (trimLeft isSpace x)).
    pose proof (trimLeft_length (inCutset ", ") (TrimSpace x)).
    pose proof (trimRight_length (inCutset ", ")
                  (trimLeft (inCutset ", ") (TrimSpace x))).
    unfold Trim in H3. apply (f_equal String.length) in H3.
    unfold TrimSpace in *. lia. }
  split; [done|]. by rewrite Hs in H3.
Qed.

(** The piece of a formatted entry between two exclamation marks gives
    back its exception. *)
Lemma exception_piece x :
  isException x → Trim (TrimSpace (x +:+ ", ")) ", " = x.
Proof.
  intros (Hne & _ & Hs & Ht)%isException_trimmed.
  apply trim_fixed in Hs as [Hsl Hsr]. apply trim_fixed in Ht as [Htl Htr].
  assert (TrimSpace (x +:+ ", ") = x +:+ ",") as ->.
  { unfold TrimSpace. rewrite trimLeft_app by done.
    change (x +:+ ", ") with (x +:+ ("," +:+ " ")).
    rewrite <- append_assoc. rewrite trimRight_snoc by done.
    by apply trimRight_snoc_keep. }
  unfold Trim. rewrite trimLeft_app by done.
  by rewrite trimRight_snoc.
Qed.

Lemma FormatDomainWithExceptions_cons domain first others :
  FormatDomainWithExceptions domain (first :: others)
  = (domain +:+ " ") +:+ String "!" (first +:+ moreExceptions others).
Proof.
  unfold FormatDomainWithExceptions.
  assert (∀ acc, foldl (λ result exception, result +:+ ", !" +:+ exception)
                       acc others
                 = acc +:+ moreExceptions others) as ->.
  { induction others as [|e es IH]; intros acc; simpl.
    - by rewrite append_nil_r.
    - rewrite IH. by rewrite !append_assoc. }
  by rewrite !append_assoc.
Qed.

Lemma Split_exceptions first others :
  Forall (λ x, isException x) (first :: others) →
  Split (first +:+ moreExceptions others) "!" = exceptionPieces first others.
Proof.
  revert first. induction others as [|next rest IH]; intros first Hall.
  - simpl. rewrite append_nil_r. apply Split_no_sep.
    apply Forall_cons in Hall as [H _].
    by apply isException_trimmed in H as (_ & ? & _).
  - apply Forall_cons in Hall as [Hf Hall]. simpl moreExceptions.
    change (", !" +:+ next +:+ moreExceptions rest)
      with (", " +:+ String "!" (next +:+ moreExceptions rest)).
    rewrite <- append_assoc, Split_app_sep, IH by done.
    rewrite Split_no_sep; [done|].
    rewrite hasByte_app. apply isException_trimmed in Hf as (_ & -> & _). done.
Qed.

Lemma collectExceptions_pieces first others :
  Forall (λ x, isException x) (first :: others) →
  collectExceptions (exceptionPieces first others) = first :: others.
Proof.
  revert first. induction others as [|next rest IH]; intros first Hall.
  - apply Forall_cons in Hall as [Hf _]. simpl.
    apply isException_trimmed in Hf as (Hne & _ & Hs & Ht).
    by rewrite Hs, Ht, decide_False.
  - apply Forall_cons in Hall as [Hf Hall]. simpl.
    rewrite exception_piece by done.
    rewrite decide_False by (by apply isException_trimmed in Hf as [? _]).
    by rewrite IH.
Qed.

(** Parsing a formatted entry gives the entry back. *)
Lemma parse_format domain exceptions :
  isDomain domain → Forall (λ x, isException x) exceptions →
  ParseDomainWithExceptions (FormatDomainWithExceptions domain exceptions)
  = (domain, exceptions).
Proof.
  unfold isDomain. intros [Hd1 Hd2]%andb_prop_elim Hall.
  apply negb_prop_elim, Is_true_false in Hd1. apply bool_decide_unpack in Hd2.
  destruct exceptions as [|first others]; [by apply parse_plain|].
  rewrite FormatDomainWithExceptions_cons. unfold ParseDomainWithExceptions.
  assert (hasByte "!" (domain +:+ " ") = false) as Hno.
  { by rewrite hasByte_app, Hd1. }
  rewrite Index_first by done.
  assert ((0 <? Z.of_nat (String.length (domain +:+ " ")))%Z = true) as ->.
  { apply Z.ltb_lt. destruct domain; simpl; lia. }
  rewrite Split_app_sep, Split_no_sep, Split_exceptions by done. simpl.
  f_equal.
  - by apply trim_app_cut.
  - by apply collectExceptions_pieces.
Qed.

(** The same with empty exceptions among them: their pieces hold commas
    and spaces only, and are dropped. *)
Lemma Split_exceptions_no_mark first others :
  Forall (λ x, hasByte "!" x = false) (first :: others) →
  Split (first +:+ moreExceptions others) "!" = exceptionPieces first others.
Proof.
  revert first. induction others as [|next rest IH]; intros first Hall.
  - simpl. rewrite append_nil_r. apply Split_no_sep.
    by apply Forall_cons in Hall as [H _].
  - apply Forall_cons in Hall as [Hf Hall]. simpl moreExceptions.
    change (", !" +:+ next +:+ moreExceptions rest)
      with (", " +:+ String "!" (next +:+ moreExceptions rest)).
    rewrite <- append_assoc, Split_app_sep, IH by done.
    rewrite Split_no_sep; [done|].
    rewrite hasByte_app, Hf. done.
Qed.

Lemma collectExceptions_pieces_empty first others :
  Forall (λ x, x = "" ∨ isException x) (first :: others) →
  collectExceptions (exceptionPieces first others)
  = filter (λ x, x ≠ "") (first :: others).
Proof.
  revert first. induction others as [|next rest IH]; intros first Hall.
  - apply Forall_cons in Hall as [[->|Hf] _]; [done|]. simpl.
    apply isException_trimmed in Hf as (Hne & _ & Hs & Ht).
    rewrite Hs, Ht, decide_False by done.
    by rewrite filter_cons, decide_True.
  - apply Forall_cons in Hall as [Hf Hall].
    change (exceptionPieces first (next :: rest))
      with ((first +:+ ", ") :: exceptionPieces next rest).
    cbn [collectExceptions]. rewrite IH by done.
    rewrite (filter_cons _ first). destruct Hf as [->|Hf].
    + assert (Trim (TrimSpace ("" +:+ ", ")) ", " = "") as -> by (by vm_compute).
      rewrite decide_True by done. by rewrite decide_False by (by intros ?).
    + rewrite exception_piece by done.
      apply isException_trimmed in Hf as [Hne _].
      rewrite decide_False by done. by rewrite decide_True.
Qed.

Lemma parse_format_empty domain exceptions :
  isDomain domain → Forall (λ x, x = "" ∨ isException x) exceptions →
  ParseDomainWithExceptions (FormatDomainWithExceptions domain exceptions)
  = (domain, filter (λ x, x ≠ "") exceptions).
Proof.
  unfold isDomain. intros [Hd1 Hd2]%andb_prop_elim Hall.
  apply negb_prop_elim, Is_true_false in Hd1. apply bool_decide_unpack in Hd2.
  destruct exceptions as [|first others]; [by apply parse_plain|].
  rewrite FormatDomainWithExceptions_cons. unfold ParseDomainWithExceptions.
  assert (hasByte "!" (domain +:+ " ") = false) as Hno.
  { by rewrite hasByte_app, Hd1. }
  rewrite Index_first by done.
  assert ((0 <? Z.of_nat (String.length (domain +:+ " ")))%Z = true) as ->.
  { apply Z.ltb_lt. destruct domain; simpl; lia. }
  rewrite Split_app_sep, Split_no_sep by done.
  rewrite Split_exceptions_no_mark.
  - simpl. f_equal.
    + by apply trim_app_cut.
    + by apply collectExceptions_pieces_empty.
  - apply (Forall_impl _ _ _ Hall). intros x [->|Hx]; [done|].
    by apply isException_trimmed in Hx as (_ & ? & _).
Qed.

End FormatParse.

(** ** Entries are never rejected: the list operations *)

(** C5, as stated, fails: [CreateList] takes a list whose only entry has a
    leading dot, and one whose exception label contains a dot, without an
    error. *)
Lemma create_list_accepts_malformed_entries :
  ¬ (∀ list df fs,
       Exists malformedEntry (Domains list) →
       ∃ message, errorOf (CreateList list df fs) = Some message).
Proof.
  intros H.
  destruct (H (mkListContent "ads" "blocklist" [".example.com"; "a.com !b.c"])
              (NewDNSFilter "/clients.json" "/blocklists" "/whitelists")
              (mkDisk ∅ true "2025-04-12T10:30:00Z")) as [message Hm].
  - apply Exists_cons_hd. left. unfold domainLabelsNonEmpty.
    intros Hall. vm_compute in Hall. by apply Forall_cons in Hall as [? _].
  - by vm_compute in Hm.
Qed.

(** C5, amended. Parsing has no failure: [ParseDomainWithExceptions] gives a
    (domain, exceptions) pair for every input.  An entry without an
    exclamation mark is its own domain whatever its dots.  An entry
    written as a domain and exceptions gives back the domain and, in
    their order and as they are written, the exceptions that are not
    empty, those with a dot among them; an empty exception is dropped,
    and no exception that is returned is empty.  The error of a list
    operation does not depend on the entries it is given: with a valid
    type, the list absent for [CreateList] and present for the others,
    it is the error of writing the file of the list, so that the
    operation succeeds on every list of entries when the file can be
    written; the trie stored by [CreateList] and [UpdateList] holds all
    the entries, whether the file is written or not. *)
Theorem list_operations_accept_every_entry (df : DNSFilter) (fs : Disk)
    (listType name : string) (entries : list string) :
  (∀ entry, hasByte "!" entry = false →
            ParseDomainWithExceptions entry = (entry, [])) ∧
  (∀ domain exceptions,
     isDomain domain → Forall (λ x, x = "" ∨ isException x) exceptions →
     ParseDomainWithExceptions (FormatDomainWithExceptions domain exceptions)
     = (domain, filter (λ x, x ≠ "") exceptions)) ∧
  (∀ domain exception,
     isDomain domain → isException exception → hasByte "." exception = true →
     ParseDomainWithExceptions (FormatDomainWithExceptions domain [exception])
     = (domain, [exception])) ∧
  (∀ entry x, x ∈ (ParseDomainWithExceptions entry).2 → x ≠ "") ∧
  (∀ others,
     errorOf (CreateList (mkListContent name listType entries) df fs)
     = errorOf (CreateList (mkListContent name listType others) df fs) ∧
     errorOf (UpdateList (mkListContent name listType entries) df fs)
     = errorOf (UpdateList (mkListContent name listType others) df fs) ∧
     errorOf (AddDomains name listType entries df fs)
     = errorOf (AddDomains name listType others df fs)) ∧
  (listMissing df listType name →
     errorOf (CreateList (mkListContent name listType entries) df fs)
     = writeError df listType name fs ∧
     trieAfter (CreateList (mkListContent name listType entries) df fs) listType name
     = Some (buildTrie entries)) ∧
  ((∃ tries trie, triesOf df listType = Some tries ∧ tries !! name = Some trie) →
     errorOf (UpdateList (mkListContent name listType entries) df fs)
     = writeError df listType name fs ∧
     trieAfter (UpdateList (mkListContent name listType entries) df fs) listType name
     = Some (buildTrie entries) ∧
     errorOf (AddDomains name listType entries df fs)
     = writeError df listType name fs ∧
     errorOf (RemoveDomains name listType entries df fs)
     = writeError df listType name fs).
Proof.
  assert (∀ root domains,
    (SaveDomainList (storeTrie df listType name root) name listType domains fs).1
    = writeError df listType name fs) as Hs.
  { intros root domains. unfold writeError.
    apply SaveDomainList_error; apply storeTrie_dirs. }
  split; [apply parse_plain|]. split; [apply parse_format_empty|].
  split; [|split; [|split; [|split]]].
  - intros domain exception Hd Hx _. apply parse_format; [done|].
    by apply Forall_singleton.
  - intros entry x. unfold ParseDomainWithExceptions.
    destruct (0 <? Index entry "!")%Z; [|by intros ?%elem_of_nil].
    destruct (Split entry "!") as [|first others]; [by intros ?%elem_of_nil|].
    simpl. by intros [? _]%elem_of_collectExceptions.
  - intros others. unfold errorOf, CreateList, UpdateList, AddDomains. simpl.
    destruct (triesOf df listType) as [tries|] eqn:Ht; [|done].
    destruct (tries !! name) as [trie|] eqn:Hn.
    + split; [done|]. split.
      * pose proof (Hs (insertEntries NewNode entries) entries) as H1.
        pose proof (Hs (insertEntries NewNode others) others) as H2.
        destruct (SaveDomainList _ _ _ entries fs),
                 (SaveDomainList _ _ _ others fs).
        simpl in *. congruence.
      * pose proof (Hs (insertEntries trie entries)
          (extractDomainsFromTrie (insertEntries trie entries) [] [])) as H1.
        pose proof (Hs (insertEntries trie others)
          (extractDomainsFromTrie (insertEntries trie others) [] [])) as H2.
        destruct (SaveDomainList _ _ _
                    (extractDomainsFromTrie (insertEntries trie entries) [] []) fs),
                 (SaveDomainList _ _ _
                    (extractDomainsFromTrie (insertEntries trie others) [] []) fs).
        simpl in *. congruence.
    + split; [|done].
      pose proof (Hs (insertEntries NewNode entries) entries) as H1.
      pose proof (Hs (insertEntries NewNode others) others) as H2.
      destruct (SaveDomainList _ _ _ entries fs),
               (SaveDomainList _ _ _ others fs).
      simpl in *. congruence.
  - intros (tries & Ht & Hn).
    unfold errorOf, trieAfter, CreateList. simpl. rewrite Ht, Hn.
    specialize (Hs (insertEntries NewNode entries) entries).
    destruct (SaveDomainList _ _ _ _ fs) as [err fs']. simpl in *.
    split; [done|].
    rewrite (storeTrie_lookup _ _ _ _ _ Ht). by rewrite lookup_insert_eq.
  - intros (tries & trie & Ht & Hn).
    unfold errorOf, trieAfter, UpdateList, AddDomains, RemoveDomains. simpl.
    rewrite Ht, Hn.
    split; [|split; [|split]].
    + specialize (Hs (insertEntries NewNode entries) entries).
      by destruct (SaveDomainList _ _ _ _ fs).
    + destruct (SaveDomainList _ _ _ _ fs) as [err fs']. simpl.
      rewrite (storeTrie_lookup _ _ _ _ _ Ht). by rewrite lookup_insert_eq.
    + specialize (Hs (insertEntries trie entries)
                     (extractDomainsFromTrie (insertEntries trie entries) [] [])).
      by destruct (SaveDomainList _ _ _ _ fs).
    + destruct (keepRemaining _ _) as [root remaining].
      specialize (Hs root remaining).
      by destruct (SaveDomainList _ _ _ _ fs).
Qed.

(** [CreateList] with an entry that has a leading dot and an entry whose
    exception label contains a dot, on a disk that takes the file. *)
Lemma list_operations_accept_every_entry_witness :
  errorOf (CreateList
             (mkListContent "ads" "blocklist" [".example.com"; "a.com !b.c"])
             (NewDNSFilter "/clients.json" "/blocklists" "/whitelists")
             (mkDisk ∅ true "2025-04-12T10:30:00Z")) = None ∧
  trieAfter (CreateList
               (mkListContent "ads" "blocklist" [".example.com"; "a.com !b.c"])
               (NewDNSFilter "/clients.json" "/blocklists" "/whitelists")
               (mkDisk ∅ true "2025-04-12T10:30:00Z")) "blocklist" "ads"
  = Some (buildTrie [".example.com"; "a.com !b.c"]).
Proof.
  assert (listMissing (NewDNSFilter "/clients.json" "/blocklists" "/whitelists")
                      "blocklist" "ads") as Hl.
  { exists ∅. split; [done|]. apply lookup_empty. }
  destruct (list_operations_accept_every_entry
              (NewDNSFilter "/clients.json" "/blocklists" "/whitelists")
              (mkDisk ∅ true "2025-04-12T10:30:00Z") "blocklist" "ads"
              [".example.com"; "a.com !b.c"])
    as (_ & _ & _ & _ & _ & Hcreate & _).
  destruct (Hcreate Hl) as [Herr Htrie]. split; [|done].
  rewrite Herr. by vm_compute.
Defined.

(** ** Removal of entries by base domain *)

Section RemoveFacts.

Lemma isSpace_lowerByte c : isSpace (lowerByte c) = isSpace c.
Proof. destruct c as [[] [] [] [] [] [] [] []]; reflexivity. Qed.

Lemma trimLeft_ToLower s :
  trimLeft isSpace (ToLower s) = ToLower (trimLeft isSpace s).
Proof.
  induction s as [|c s IH]; simpl; [done|].
  rewrite isSpace_lowerByte. by destruct (isSpace c).
Qed.

Lemma trimRight_ToLower s :
  trimRight isSpace (ToLower s) = ToLower (trimRight isSpace s).
Proof.
  induction s as [|c s IH]; simpl; [done|].
  rewrite IH, isSpace_lowerByte.
  destruct (trimRight isSpace s); simpl; [by destruct (isSpace c)|done].
Qed.

(** The case-folded form of a domain is a domain. *)
Lemma isDomain_ToLower d : isDomain d → isDomain (ToLower d).
Proof.
  unfold isDomain. intros [H1 H2]%andb_prop_elim.
  apply bool_decide_unpack in H2.
  apply andb_prop_intro. split.
  - rewrite hasByte_ToLower; [done|]. left. vm_compute. lia.
  - apply bool_decide_pack. unfold TrimSpace in *.
    by rewrite trimLeft_ToLower, trimRight_ToLower, H2.
Qed.

(** The entries enumerated from a trie of entries in the entry syntax are
    in the entry syntax: formatted and parsed again, they are themselves. *)
Lemma enumerated_pair_parses (pairs : list (string * list string)) e :
  Forall entrySyntax pairs →
  e ∈ extractEntries (insertPairs NewNode pairs) [] →
  ParseDomainWithExceptions (formatEntry e) = e.
Proof.
  intros Hwf He.
  apply elem_of_extractEntries_insertPairs in He as (p & Hin & ->).
  rewrite Forall_forall in Hwf.
  unfold formatEntry. simpl. apply parse_format.
  - apply isDomain_ToLower. by apply Hwf.
  - apply Forall_forall. intros label Hl.
    apply elem_of_mapKeys, exceptionsAt_insertPairs in Hl as (p' & Hin' & _ & Hl).
    destruct (Hwf _ Hin') as [_ Hall]. rewrite Forall_forall in Hall.
    by apply Hall.
Qed.

Lemma enumerated_entry_parses entries e :
  Forall wellFormedEntry entries →
  e ∈ extractEntries (buildTrie entries) [] →
  ParseDomainWithExceptions (formatEntry e) = e.
Proof.
  intros Hwf He. unfold buildTrie in He. rewrite insertEntries_pairs in He.
  apply (enumerated_pair_parses (ParseDomainWithExceptions <$> entries)); [|done].
  apply Forall_fmap. by apply (Forall_impl _ _ _ Hwf).
Qed.

Lemma removalSet_lookup request base :
  default false (removalSet request !! base) = true ↔ base ∈ baseDomains request.
Proof.
  unfold removalSet, baseDomains.
  assert (∀ m : gmap string bool,
            default false
              (foldl (λ domainsToRemove domain,
                        <[(ParseDomainWithExceptions domain).1 := true]> domainsToRemove)
                     m request !! base) = true
            ↔ default false (m !! base) = true
              ∨ base ∈ (λ entry, (ParseDomainWithExceptions entry).1) <$> request)
    as Hgen.
  { induction request as [|r request IH]; intros m; simpl.
    - split; [by left|]. by intros [?|?%elem_of_nil].
    - rewrite IH, elem_of_cons.
      destruct (decide (base = (ParseDomainWithExceptions r).1)) as [->|Hne].
      + rewrite lookup_insert_eq. simpl.
        split; [intros _; by right; left|intros _; by left].
      + rewrite lookup_insert_ne by done. split.
        * intros [?|?]; [by left|by right; right].
        * intros [?|[?|?]]; [by left|done|by right]. }
  rewrite Hgen, lookup_empty. simpl. split; [by intros [?|?]|by right].
Qed.

(** The loop of [RemoveDomains] keeps the entries whose base domain is not
    to be removed, and inserts them as they were enumerated. *)
Lemma keepRemaining_filter domainsToRemove (entries : list (string * list string)) :
  Forall (λ e, ParseDomainWithExceptions (formatEntry e) = e) entries →
  keepRemaining domainsToRemove (formatEntry <$> entries)
  = (insertPairs NewNode
       (filter (λ e, default false (domainsToRemove !! e.1) = false) entries),
     formatEntry <$>
       filter (λ e, default false (domainsToRemove !! e.1) = false) entries).
Proof.
  unfold keepRemaining.
  set (step := λ '((root, remainingDomains) : Node * list string) domainEntry,
         let '(baseDomain, exceptions) := ParseDomainWithExceptions domainEntry in
         if default false (domainsToRemove !! baseDomain)
         then (root, remainingDomains)
         else (InsertDomain root baseDomain exceptions,
               remainingDomains ++ [domainEntry])).
  set (keep := λ e : string * list string,
         default false (domainsToRemove !! e.1) = false).
  assert (∀ root remaining,
            Forall (λ e, ParseDomainWithExceptions (formatEntry e) = e) entries →
            foldl step (root, remaining) (formatEntry <$> entries)
            = (insertPairs root (filter keep entries),
               remaining ++ (formatEntry <$> filter keep entries))) as Hgen.
  { induction entries as [|e entries IH]; intros root remaining Hall.
    - simpl. by rewrite app_nil_r.
    - apply Forall_cons in Hall as [He Hall].
      rewrite fmap_cons, filter_cons. cbn [foldl].
      assert (step (root, remaining) (formatEntry e)
              = if decide (keep e)
                then (InsertDomain root e.1 e.2, remaining ++ [formatEntry e])
                else (root, remaining)) as ->.
      { unfold step. rewrite He. destruct e as [d xs]. unfold keep. simpl.
        by destruct (default false (domainsToRemove !! d)). }
      destruct (decide (keep e)).
      + rewrite IH by done. rewrite fmap_cons. simpl. by rewrite <- app_assoc.
      + by apply IH. }
  intros Hall. by rewrite Hgen.
Qed.

End RemoveFacts.

Section RemoveEnumeration.

(** In the enumeration of a built trie a domain is in lower case and
    determines its entry. *)
Lemma enumerated_domain_lower entries e :
  e ∈ extractEntries (insertPairs NewNode entries) [] → ToLower e.1 = e.1.
Proof.
  intros (p & _ & ->)%elem_of_extractEntries_insertPairs. apply ToLower_idemp.
Qed.

Lemma enumerated_domain_unique entries e1 e2 :
  e1 ∈ extractEntries (insertPairs NewNode entries) [] →
  e2 ∈ extractEntries (insertPairs NewNode entries) [] →
  e1.1 = e2.1 → e1 = e2.
Proof.
  intros (p1 & _ & ->)%elem_of_extractEntries_insertPairs
         (p2 & _ & ->)%elem_of_extractEntries_insertPairs. simpl.
  intros Heq. f_equal; [done|].
  by apply ReverseDomainParts_inj in Heq as ->.
Qed.

(** Re-inserting a part of the enumeration of a built trie enumerates
    that part. *)
Lemma enumerates_kept entries (keep : string * list string → Prop)
    `{∀ e, Decision (keep e)} e :
  enumerates
    (insertPairs NewNode
       (filter keep (extractEntries (insertPairs NewNode entries) []))) e
  ↔ ∃ entry, entry ∈ extractEntries (insertPairs NewNode entries) []
             ∧ keep entry ∧ toEntry entry = e.
Proof.
  destruct e as [d X]. rewrite enumerates_insertPairs.
  setoid_rewrite list_elem_of_filter. split.
  - intros [(entry & [Hk Hin] & Hd) HX].
    exists entry. split; [done|]. split; [done|].
    rewrite (enumerated_domain_lower _ _ Hin) in Hd. subst d.
    unfold toEntry. f_equal. apply set_eq. intros label.
    rewrite elem_of_list_to_set, HX. split.
    + intros Hl. exists entry. by rewrite (enumerated_domain_lower _ _ Hin).
    + intros (e' & [_ Hin'] & Hd' & Hl).
      rewrite (enumerated_domain_lower _ _ Hin') in Hd'.
      by rewrite <- (enumerated_domain_unique _ _ _ Hin' Hin Hd').
  - intros (entry & Hin & Hk & Heq).
    unfold toEntry in Heq. injection Heq as <- <-.
    split; [exists entry; by rewrite (enumerated_domain_lower _ _ Hin)|].
    intros label. rewrite elem_of_list_to_set. split.
    + intros Hl. exists entry. by rewrite (enumerated_domain_lower _ _ Hin).
    + intros (e' & [_ Hin'] & Hd' & Hl).
      rewrite (enumerated_domain_lower _ _ Hin') in Hd'.
      by rewrite <- (enumerated_domain_unique _ _ _ Hin' Hin Hd').
Qed.

End RemoveEnumeration.

(** C9, as stated, fails for a list with an entry outside the entry
    syntax: the list holds [a.com] with the exception [x] followed by a
    tab, which [ParseDomainWithExceptions] leaves on an exception before
    a comma; the removal of [b.com], which the list does not hold, writes
    the entry out and parses it again, and [a.com] is left with the
    exception [x]. *)
Lemma RemoveDomains_changes_a_kept_entry :
  ¬ (∀ (df : DNSFilter) (fs : Disk) (name listType : string)
       (entries request : list string) (trie' : Node),
       (∃ tries, triesOf df listType = Some tries ∧
                 tries !! name = Some (buildTrie entries)) →
       trieAfter (RemoveDomains name listType request df fs) listType name
       = Some trie' →
       ∀ e, enumerates (buildTrie entries) e → e.1 ∉ baseDomains request →
            enumerates trie' e).
Proof.
  intros H.
  set (entry := "a.com !x" +:+ String "009" ",").
  set (df := mkDNSFilter "/clients.json" "/blocklists" "/whitelists"
               {[ "ads" := buildTrie [entry] ]} ∅ ∅).
  set (fs := mkDisk ∅ true "2025-04-12T10:30:00Z").
  destruct (trieAfter (RemoveDomains "ads" "blocklist" ["b.com"] df fs)
                      "blocklist" "ads") as [trie'|] eqn:Htrie.
  2:{ by vm_compute in Htrie. }
  assert ((λ trie, extractEntries trie [])
            <$> trieAfter (RemoveDomains "ads" "blocklist" ["b.com"] df fs)
                          "blocklist" "ads"
          = Some [("a.com", ["x"])]) as Hafter by (by vm_compute).
  rewrite Htrie in Hafter. simpl in Hafter. injection Hafter as Hafter.
  destruct (H df fs "ads" "blocklist" [entry] ["b.com"] trie')
    with (e := ("a.com", {[ "x" +:+ String "009" "" ]}) : Entry)
    as (kept & Hin & Heq).
  - exists (BlocklistTries df). split; [done|]. apply lookup_insert_eq.
  - done.
  - exists ("a.com", ["x" +:+ String "009" ""]). split.
    + assert (extractEntries (buildTrie [entry]) []
              = [("a.com", ["x" +:+ String "009" ""])]) as -> by (by vm_compute).
      by left.
    + unfold toEntry. simpl. by rewrite (right_id_L ∅ (∪)).
  - assert (baseDomains ["b.com"] = ["b.com"]) as -> by (by vm_compute).
    by intros ?%list_elem_of_singleton.
  - rewrite Hafter in Hin. apply list_elem_of_singleton in Hin. subst kept.
    apply (f_equal snd) in Heq. unfold toEntry in Heq. cbn [fst snd] in Heq.
    assert ("x" ∈ (list_to_set ["x"] : gset string)) as Hx
      by (apply elem_of_list_to_set; by left).
    rewrite Heq in Hx. by apply elem_of_singleton in Hx.
Qed.

(** C9, amended. [RemoveDomains] removes by base domain. On a list built
    from entries in the entry syntax, the list after the removal
    enumerates exactly the entries of the list before whose domain is not
    the base domain of a request entry, each with the exceptions it had:
    the entry of a requested base domain is gone whatever the exceptions
    of the request or of the entry, every other entry is kept with its
    exceptions, and no entry loses exceptions only.  The error is that of
    writing the file of the list, and when there is none the file holds
    the entries that remain. *)
Theorem RemoveDomains_by_base_domain (df : DNSFilter) (fs : Disk)
    (name listType : string) (entries request : list string) :
  (∃ tries, triesOf df listType = Some tries ∧
            tries !! name = Some (buildTrie entries)) →
  Forall wellFormedEntry entries →
  ∃ trie',
    trieAfter (RemoveDomains name listType request df fs) listType name
    = Some trie' ∧
    (∀ e, enumerates trie' e ↔
          enumerates (buildTrie entries) e ∧ e.1 ∉ baseDomains request) ∧
    (∀ r X, r ∈ request →
            ¬ enumerates trie' ((ParseDomainWithExceptions r).1, X)) ∧
    errorOf (RemoveDomains name listType request df fs)
    = writeError df listType name fs ∧
    (errorOf (RemoveDomains name listType request df fs) = None →
       Files (RemoveDomains name listType request df fs).2
         !! listFile df listType name
       = Some (TextFile (listFileText (Now fs)
           (formatEntry <$>
              filter (λ e, e.1 ∉ baseDomains request)
                     (extractEntries (buildTrie entries) []))))).
Proof.
  intros (tries & Ht & Hn) Hwf.
  set (keep := λ e : string * list string,
         default false (removalSet request !! e.1) = false).
  assert (∀ e : string * list string, keep e ↔ e.1 ∉ baseDomains request) as Hkeep.
  { intros e. unfold keep. rewrite <- removalSet_lookup.
    by destruct (default false (removalSet request !! e.1)). }
  exists (insertPairs NewNode (filter keep (extractEntries (buildTrie entries) []))).
  unfold RemoveDomains, trieAfter, errorOf. rewrite Ht, Hn.
  rewrite (extractDomainsFromTrie_entries _ [] []). simpl app.
  rewrite keepRemaining_filter.
  2:{ apply Forall_forall. intros e He. by apply (enumerated_entry_parses entries). }
  fold keep.
  assert (∀ e, enumerates
             (insertPairs NewNode (filter keep (extractEntries (buildTrie entries) [])))
             e ↔ enumerates (buildTrie entries) e ∧ e.1 ∉ baseDomains request)
    as Henum.
  { intros e. unfold buildTrie. rewrite insertEntries_pairs, enumerates_kept.
    unfold enumerates. split.
    - intros (entry & Hin & Hk & <-). split; [by exists entry|]. by apply Hkeep.
    - intros [(entry & Hin & <-) Hk]. exists entry.
      split; [done|]. split; [by apply Hkeep|done]. }
  pose proof (storeTrie_lookup df listType name
    (insertPairs NewNode (filter keep (extractEntries (buildTrie entries) [])))
    tries Ht) as Hstored.
  assert (filter keep (extractEntries (buildTrie entries) [])
          = filter (λ e, e.1 ∉ baseDomains request)
                   (extractEntries (buildTrie entries) [])) as Hfilter.
  { by apply list_filter_iff. }
  pose proof (SaveDomainList_error
    (storeTrie df listType name
       (insertPairs NewNode (filter keep (extractEntries (buildTrie entries) []))))
    df name listType
    (formatEntry <$> filter keep (extractEntries (buildTrie entries) [])) [] fs
    (proj1 (storeTrie_dirs _ _ _ _)) (proj2 (storeTrie_dirs _ _ _ _))) as Herr.
  destruct (SaveDomainList _ name listType _ fs) as [err fs'] eqn:Hsave.
  cbn [fst snd] in *.
  split; [|split; [|split; [|split]]].
  - by rewrite Hstored, lookup_insert_eq.
  - done.
  - intros r X Hr [_ Hnot]%Henum. apply Hnot. simpl.
    unfold baseDomains. apply list_elem_of_fmap. by exists r.
  - done.
  - intros ->. apply SaveDomainList_success in Hsave as (_ & _ & Hfile & _).
    unfold listFile in *.
    destruct (storeTrie_dirs df listType name
      (insertPairs NewNode (filter keep (extractEntries (buildTrie entries) []))))
      as [Hb Hw]. rewrite Hb, Hw in Hfile. by rewrite <- Hfilter.
Qed.

(** Scenario S5, with a request that carries an exception: [a.com !y]
    removes [a.com], and [b.com !x] stays. *)
Lemma RemoveDomains_by_base_domain_witness :
  let df := mkDNSFilter "/clients.json" "/blocklists" "/whitelists"
              {[ "ads" := buildTrie ["a.com"; "b.com !x"] ]} ∅ ∅ in
  let fs := mkDisk ∅ true "2025-04-12T10:30:00Z" in
  ∃ trie',
    trieAfter (RemoveDomains "ads" "blocklist" ["a.com !y"] df fs) "blocklist" "ads"
    = Some trie' ∧
    enumerates trie' ("b.com", {["x"]}) ∧
    ¬ enumerates trie' ("a.com", ∅).
Proof.
  intros df fs.
  assert (Forall wellFormedEntry ["a.com"; "b.com !x"]) as Hwf.
  { repeat constructor; by vm_compute. }
  destruct (RemoveDomains_by_base_domain df fs "ads" "blocklist"
              ["a.com"; "b.com !x"] ["a.com !y"]) as (trie' & Hafter & Henum & Hgone & _).
  { exists {[ "ads" := buildTrie ["a.com"; "b.com !x"] ]}.
    split; [done|]. apply lookup_insert_eq. }
  { exact Hwf. }
  exists trie'. split; [exact Hafter|]. split.
  - apply Henum. split.
    + exists ("b.com", ["x"]). split.
      * assert (extractEntries (buildTrie ["a.com"; "b.com !x"]) []
                = [("b.com", ["x"]); ("a.com", [])]) as -> by (by vm_compute).
        by left.
      * unfold toEntry. simpl. by rewrite (right_id_L ∅ (∪)).
    + assert (baseDomains ["a.com !y"] = ["a.com"]) as -> by (by vm_compute).
      simpl. intros Hin%list_elem_of_singleton. discriminate Hin.
  - assert ((ParseDomainWithExceptions "a.com !y").1 = "a.com") as Hp
      by (by vm_compute).
    rewrite <- Hp. apply Hgone. by left.
Defined.

(** ** The enumeration of a loaded list *)

(** C8, as stated, fails in two ways: the enumeration holds the
    case-folded domain where the file holds [Example.com], and a single
    merged entry where the file holds [a.com] twice with different
    exceptions. *)
Lemma enumeration_folds_case_and_merges :
  ¬ enumeratesParsedEntries "Example.com" ∧
  ¬ enumeratesParsedEntries ("a.com !x" +:+ newline +:+ "a.com !y").
Proof.
  split; intros H.
  - destruct (proj2 (H ("Example.com", ∅))) as (entry & Hin & Heq).
    { assert (parseFile "Example.com" = [("Example.com", [])]) as ->
        by (by vm_compute).
      apply list_elem_of_fmap. exists ("Example.com", []). split; [done|]. by left. }
    assert (extractEntries (loadText "Example.com") [] = [("example.com", [])])
      as Hx by (by vm_compute).
    rewrite Hx in Hin. apply list_elem_of_singleton in Hin. subst entry.
    unfold toEntry in Heq. simpl in Heq. by injection Heq.
  - destruct (proj2 (H ("a.com", {["x"]}))) as (entry & Hin & Heq).
    { assert (parseFile ("a.com !x" +:+ newline +:+ "a.com !y")
              = [("a.com", ["x"]); ("a.com", ["y"])]) as -> by (by vm_compute).
      apply list_elem_of_fmap. exists ("a.com", ["x"]).
      split; [|by left]. unfold toEntry. simpl.
      by rewrite (right_id_L ∅ (∪)). }
    assert (∀ e, e ∈ extractEntries
                       (loadText ("a.com !x" +:+ newline +:+ "a.com !y")) [] →
                 "y" ∈ e.2) as Hy.
    { intros e He.
      rewrite loadText_parsed in He.
      apply elem_of_extractEntries_insertPairs in He as (e' & Hin' & ->).
      cbn [snd]. apply elem_of_mapKeys, exceptionsAt_insertPairs.
      exists ("a.com", ["y"]).
      assert (parseFile ("a.com !x" +:+ newline +:+ "a.com !y")
              = [("a.com", ["x"]); ("a.com", ["y"])]) as Hp by (by vm_compute).
      rewrite Hp in *. split; [by right; left|]. split; [|by left].
      apply ReverseDomainParts_inj.
      apply elem_of_cons in Hin' as [->|Hin']; [done|].
      by apply list_elem_of_singleton in Hin' as ->. }
    apply Hy in Hin. unfold toEntry in Heq. injection Heq as _ Heq.
    assert ("y" ∈ (list_to_set entry.2 : gset string)) as Hin'
      by (by apply elem_of_list_to_set).
    rewrite Heq in Hin'. by apply elem_of_singleton in Hin'.
Qed.

(** C8, amended. A list file is loaded when each of its lines is shorter
    than 64 KiB; with a longer line the scanner gives up and
    [LoadDomainList] returns its error.  The trie loaded from a list file
    enumerates one entry for every case-folded domain among the parsed
    entries of the file (comments, the generated header among them, and
    empty lines set aside), no domain twice, with the exceptions of all
    the entries of that domain.  When the domains of the file are in
    lower case and the entries that share a domain have the same
    exceptions, the enumeration is exactly the parsed entry set of the
    file, up to the order of the entries and of the exceptions.
    [extractDomainsFromTrie] returns the enumeration with every entry
    formatted, and for a file of entries in the entry syntax the strings
    it returns parse to the enumeration. *)
Theorem enumeration_of_loaded_list (fs : Disk) (filename content : string) :
  Files fs !! filename = Some (TextFile content) →
  (tokenTooLong content = false →
     LoadDomainList fs filename = inl (loadText content)) ∧
  (tokenTooLong content = true →
     ∃ message, LoadDomainList fs filename = inr message) ∧
  extractDomainsFromTrie (loadText content) [] []
  = formatEntry <$> extractEntries (loadText content) [] ∧
  (Forall entrySyntax (parseFile content) →
     ParseDomainWithExceptions <$> extractDomainsFromTrie (loadText content) [] []
     = extractEntries (loadText content) []) ∧
  NoDup (extractEntries (loadText content) []).*1 ∧
  (∀ d X,
     enumerates (loadText content) (d, X) ↔
     (∃ entry : string * list string,
        entry ∈ parseFile content ∧ ToLower entry.1 = d) ∧
     (∀ label, label ∈ X ↔
               ∃ entry : string * list string,
                 entry ∈ parseFile content ∧ ToLower entry.1 = d ∧
                 label ∈ entry.2)) ∧
  ((∀ entry : string * list string,
      entry ∈ parseFile content → ToLower entry.1 = entry.1) →
   (∀ e1 e2 : string * list string,
      e1 ∈ parseFile content → e2 ∈ parseFile content → e1.1 = e2.1 →
      toEntry e1 = toEntry e2) →
   enumeratesParsedEntries content) ∧
  (∀ now domains,
     hasByte "010" now = false →
     parseFile (listFileText now domains) = parseFile (listBody domains)).
Proof.
  intros Hfile.
  split; [|split; [|split; [|split; [|split; [|split; [|split]]]]]].
  - intros Hfit. unfold LoadDomainList. by rewrite Hfile, Hfit.
  - intros Hlong. unfold LoadDomainList. rewrite Hfile, Hlong. by eexists.
  - apply (extractDomainsFromTrie_entries _ [] []).
  - intros Hsyntax. rewrite (extractDomainsFromTrie_entries _ [] []). simpl app.
    rewrite <- list_fmap_compose.
    rewrite <- (list_fmap_id (extractEntries (loadText content) [])) at 2.
    apply list_fmap_ext. intros _ e He%list_elem_of_lookup_2. simpl.
    rewrite loadText_parsed in He.
    by apply (enumerated_pair_parses (parseFile content)).
  - rewrite loadText_parsed. apply NoDup_domains_insertPairs.
  - intros d X. rewrite loadText_parsed. apply enumerates_insertPairs.
  - intros Hlower Hsame [d X].
    rewrite loadText_parsed, enumerates_insertPairs, list_elem_of_fmap. split.
    + intros [(entry & Hin & <-) HX]. exists entry. split; [|done].
      unfold toEntry. rewrite (Hlower _ Hin). f_equal.
      apply set_eq. intros label. rewrite HX, elem_of_list_to_set. split.
      * intros (e' & Hin' & He' & Hl).
        rewrite (Hlower _ Hin'), (Hlower _ Hin) in He'.
        pose proof (Hsame _ _ Hin' Hin He') as Heq.
        unfold toEntry in Heq. injection Heq as _ Heq.
        apply (elem_of_list_to_set (C := gset string)).
        rewrite <- Heq. by apply elem_of_list_to_set.
      * intros Hl. exists entry. by rewrite (Hlower _ Hin).
    + intros (entry & Heq & Hin). unfold toEntry in Heq. injection Heq as -> ->.
      split; [exists entry; by rewrite (Hlower _ Hin)|].
      intros label. rewrite elem_of_list_to_set. split.
      * intros Hl. exists entry. by rewrite (Hlower _ Hin).
      * intros (e' & Hin' & He' & Hl).
        rewrite (Hlower _ Hin') in He'.
        pose proof (Hsame _ _ Hin' Hin He') as Heq.
        unfold toEntry in Heq. injection Heq as _ Heq.
        apply (elem_of_list_to_set (C := gset string)).
        rewrite <- Heq. by apply elem_of_list_to_set.
  - intros now domains Hnow.
    rewrite listFileText_body. by apply parseFile_header.
Qed.

(** A written list file: the header, [example.com !mail] and [ads.net]. *)
Lemma enumeration_of_loaded_list_witness :
  let content := listFileText "2025-04-12T10:30:00Z" ["example.com !mail"; "ads.net"] in
  let fs := mkDisk {[ "/blocklists/ads" := TextFile content ]} true
                   "2025-04-12T10:30:00Z" in
  LoadDomainList fs "/blocklists/ads" = inl (loadText content) ∧
  enumeratesParsedEntries content.
Proof.
  intros content fs.
  assert (Files fs !! "/blocklists/ads" = Some (TextFile content)) as Hfile
    by apply lookup_insert_eq.
  destruct (enumeration_of_loaded_list fs "/blocklists/ads" content Hfile)
    as (Hload & _ & _ & _ & _ & _ & Hexact & _).
  split; [apply Hload; by vm_compute|].
  assert (parseFile content = [("example.com", ["mail"]); ("ads.net", [])]) as Hp
    by (by vm_compute).
  apply Hexact; rewrite Hp.
  - intros entry [->|Hin]%elem_of_cons; [done|].
    by apply list_elem_of_singleton in Hin as ->.
  - intros e1 e2 H1 H2 Hd.
    apply elem_of_cons in H1 as [->|H1]; apply elem_of_cons in H2 as [->|H2];
      try (apply list_elem_of_singleton in H1 as ->);
      try (apply list_elem_of_singleton in H2 as ->);
      first [reflexivity | simpl in Hd; discriminate Hd].
Defined.

(** ** The client registry: repair after the deletion of a list *)

Section Repair.

Lemma removeFromSlice_length slice item :
  length (removeFromSlice slice item) ≤ length slice.
Proof. induction slice as [|s rest IH]; simpl; [done|]. case_decide; simpl; lia. Qed.



Lemma removeFromSlice_same_length slice item :
  length (removeFromSlice slice item) = length slice ↔ item ∉ slice.
Proof.
  induction slice as [|s rest IH]; simpl.
  - split; [intros _; apply not_elem_of_nil|done].
  - pose proof (removeFromSlice_length rest item).
    case_decide as Hs; simpl.
    + rewrite not_elem_of_cons. split.
      * intros Hl. split; [done|]. apply IH. lia.
      * intros [_ Hin]. f_equal. by apply IH.
    + subst s. split; [lia|].
      intros Hin. exfalso. apply Hin. by left.
Qed.

Lemma removeFromSlice_absent slice item :
  item ∉ slice → removeFromSlice slice item = slice.
Proof.
  induction slice as [|s rest IH]; simpl; [done|].
  intros [Hne Hin]%not_elem_of_cons. rewrite decide_True by done.
  by rewrite IH.
Qed.

Context (listName listType : string).

Lemma stripReference_updated config :
  (stripReference listName listType config).2 = true
  ↔ listName ∈ refsOf listType config.
Proof.
  unfold stripReference, refsOf.
  destruct (decide (listType = "blocklist")).
  - pose proof (removeFromSlice_same_length (BlocklistRefs config) listName) as H.
    case_decide as Hl; simpl.
    + split; [|done]. intros _. apply dec_stable. intros Hn. by apply Hl, H.
    + split; [done|]. intros Hin. by apply H in Hl.
  - pose proof (removeFromSlice_same_length (WhitelistRefs config) listName) as H.
    case_decide as Hl; simpl.
    + split; [|done]. intros _. apply dec_stable. intros Hn. by apply Hl, H.
    + split; [done|]. intros Hin. by apply H in Hl.
Qed.

Lemma stripReference_unchanged config :
  (stripReference listName listType config).2 = false →
  (stripReference listName listType config).1 = config.
Proof. unfold stripReference. by repeat case_decide. Qed.

Lemma stripReference_fields config :
  let config' := (stripReference listName listType config).1 in
  refsOf listType config' = removeFromSlice (refsOf listType config) listName ∧
  otherRefsOf listType config' = otherRefsOf listType config ∧
  Mode config' = Mode config ∧ IP config' = IP config.
Proof.
  destruct (stripReference listName listType config).2 eqn:Hu.
  - revert Hu. unfold stripReference, refsOf, otherRefsOf.
    by repeat case_decide.
  - simpl. rewrite stripReference_unchanged by done.
    split; [|done]. symmetry. apply removeFromSlice_absent.
    intros Hin%stripReference_updated. congruence.
Qed.

(** The loop over [df.Clients] rewrites every client, and reports a
    change exactly when some client named the list. *)
Lemma strip_loop (clients : gmap string ClientConfig) :
  let result :=
    map_fold (λ ip config '(clients, updated),
                let '(config, clientUpdated) := stripReference listName listType config in
                if clientUpdated then (<[ip := config]> clients, true)
                else (clients, updated))
             (clients, false) clients in
  result.1 = (λ config, (stripReference listName listType config).1) <$> clients ∧
  (result.2 = true ↔
   ∃ ip config, clients !! ip = Some config ∧ listName ∈ refsOf listType config).
Proof.
  set (f := λ config, (stripReference listName listType config).1).
  set (step := λ (ip : string) (config : ClientConfig)
                 '((clients, updated) : gmap string ClientConfig * bool),
                let '(config, clientUpdated) := stripReference listName listType config in
                if clientUpdated then (<[ip := config]> clients, true)
                else (clients, updated)).
  assert (∀ m, m ⊆ clients →
            (map_fold step (clients, false) m).1 = (f <$> m) ∪ clients ∧
            ((map_fold step (clients, false) m).2 = true ↔
             ∃ ip config, m !! ip = Some config
                          ∧ (stripReference listName listType config).2 = true))
    as Hloop.
  { intros m.
    apply (map_fold_weak_ind
             (λ r m, m ⊆ clients →
                r.1 = (f <$> m) ∪ clients ∧
                (r.2 = true ↔
                 ∃ ip config, m !! ip = Some config
                   ∧ (stripReference listName listType config).2 = true))).
    - intros _. rewrite fmap_empty, (left_id_L ∅ (∪)). split; [done|].
      split; [done|]. intros (ip & config & Hl & _). by rewrite lookup_empty in Hl.
    - clear m. intros ip config m [acc updated] Hfresh IH Hsub.
      assert (m ⊆ clients) as Hm.
      { etrans; [|exact Hsub]. by apply insert_subseteq. }
      destruct (IH Hm) as [IH1 IH2]. simpl in IH1, IH2. subst acc.
      assert (clients !! ip = Some config) as Hip.
      { eapply lookup_weaken; [|exact Hsub]. apply lookup_insert_eq. }
      unfold step. unfold f at 2. rewrite fmap_insert.
      destruct (stripReference listName listType config) as [config' changed] eqn:Hs.
      destruct changed; simpl.
      + split.
        * rewrite <- insert_union_l. f_equal. unfold f. by rewrite Hs.
        * split; [|done]. intros _. exists ip, config.
          rewrite lookup_insert_eq. by rewrite Hs.
      + split.
        * rewrite <- insert_union_l. symmetry. apply insert_id.
          rewrite lookup_union_r by (by rewrite lookup_fmap, Hfresh).
          rewrite Hip. f_equal. unfold f. symmetry.
          apply stripReference_unchanged. by rewrite Hs.
        * rewrite IH2. split.
          -- intros (ip' & c & Hl & Hc). exists ip', c. split; [|done].
             rewrite lookup_insert_ne; [done|]. intros ->. congruence.
          -- intros (ip' & c & Hl & Hc).
             destruct (decide (ip = ip')) as [->|Hne].
             ++ rewrite lookup_insert_eq in Hl. injection Hl as <-.
                rewrite Hs in Hc. done.
             ++ rewrite lookup_insert_ne in Hl by done. by exists ip', c. }
  destruct (Hloop clients) as [H1 H2]; [done|].
  split.
  - etrans; [exact H1|]. apply map_eq. intros ip.
    rewrite lookup_union, lookup_fmap. by destruct (clients !! ip).
  - etrans; [exact H2|]. by setoid_rewrite stripReference_updated.
Qed.

End Repair.

Section DeleteListFacts.

Lemma removeListReferencesFromClients_spec listName listType df fs :
  let clients :=
    (λ config, (stripReference listName listType config).1) <$> Clients df in
  ∃ updated : bool,
    removeListReferencesFromClients listName listType df fs
    = (setClients df clients,
       if updated then (SaveClientConfig (setClients df clients) fs).2 else fs) ∧
    (updated = true ↔ referenced df listType listName).
Proof.
  intros clients. unfold removeListReferencesFromClients.
  destruct (strip_loop listName listType (Clients df)) as [H1 H2].
  destruct (map_fold _ _ _) as [clients' updated]. simpl in H1, H2.
  subst clients'. exists updated. split; [|done].
  by destruct updated.
Qed.

Lemma dropTrie_clients df listType listName :
  Clients (dropTrie df listType listName) = Clients df ∧
  ConfigPath (dropTrie df listType listName) = ConfigPath df ∧
  BlocklistDir (dropTrie df listType listName) = BlocklistDir df ∧
  WhitelistDir (dropTrie df listType listName) = WhitelistDir df.
Proof. unfold dropTrie. by case_decide. Qed.

End DeleteListFacts.




(** ** Further properties of the trie *)

Section MatchByContent.

Lemma bool_eq_iff (b1 b2 : bool) : (b1 = true ↔ b2 = true) → b1 = b2.
Proof. destruct b1, b2; intros [H1 H2]; try done; [by rewrite H1|by rewrite H2]. Qed.

(** A match is decided by the endpoints on the path of the query and by
    the exceptions of the first of them. *)
Lemma matchParts_by_content root parts :
  matchParts root parts = true ↔
  ∃ k, 0 < k ≤ length parts ∧
       endpointAt root (take k parts) = true ∧
       (∀ j, 0 < j < k → endpointAt root (take j parts) = false) ∧
       (∀ next, parts !! k = Some next →
                exceptedAt root (take k parts) next = false).
Proof.
  rewrite matchParts_first_endpoint. unfold firstEndpoint, exceptedAt.
  split.
  - intros (k & c & (Hk & Hat & Hend & Hmin) & Hnext). exists k.
    split; [done|]. unfold endpointAt, exceptionsAt. rewrite Hat.
    split; [done|]. split; [|done].
    intros j Hj. destruct (nodeAt root (take j parts)) as [c'|] eqn:Hj'; [|done].
    by apply (Hmin j).
  - intros (k & Hk & Hend & Hmin & Hnext).
    unfold endpointAt, exceptionsAt in *.
    destruct (nodeAt root (take k parts)) as [c|] eqn:Hat; [|done].
    exists k, c. split; [|done]. split; [done|]. split; [done|]. split; [done|].
    intros j c' Hj Hat'. specialize (Hmin j Hj). by rewrite Hat' in Hmin.
Qed.

Lemma take_nonempty {A} (l : list A) k : 0 < k ≤ length l → take k l ≠ [].
Proof. destruct l, k; simpl; intros [? ?]; try done; lia. Qed.

(** Two tries with the same endpoints and the same exceptions at their
    endpoints match the same queries. *)
Lemma matchParts_same_content root1 root2 parts :
  (∀ path, path ≠ [] → endpointAt root1 path = endpointAt root2 path) →
  (∀ path label, path ≠ [] → endpointAt root1 path = true →
                 exceptedAt root1 path label = exceptedAt root2 path label) →
  matchParts root1 parts = matchParts root2 parts.
Proof.
  intros Hend Hexc. apply bool_eq_iff. rewrite !matchParts_by_content.
  split; intros (k & Hk & He & Hmin & Hnext); exists k.
  - pose proof (take_nonempty parts k Hk) as Hne.
    split; [done|]. split; [by rewrite <- Hend|]. split.
    + intros j Hj. rewrite <- Hend; [by apply Hmin|]. apply take_nonempty. lia.
    + intros next Hn. rewrite <- Hexc by done. by apply Hnext.
  - pose proof (take_nonempty parts k Hk) as Hne.
    split; [done|]. split; [by rewrite Hend|]. split.
    + intros j Hj. rewrite Hend; [by apply Hmin|]. apply take_nonempty. lia.
    + intros next Hn. rewrite Hexc; [by apply Hnext|done|by rewrite Hend].
Qed.

(** The exceptions in a trie built from entries: a label is excepted at a
    path exactly when an entry of that path names it. *)
Lemma exceptedAt_insertPairs entries path label :
  exceptedAt (insertPairs NewNode entries) path label = true ↔
  ∃ entry : string * list string,
    entry ∈ entries ∧ ReverseDomainParts entry.1 = path ∧ label ∈ entry.2.
Proof.
  unfold exceptedAt.
  induction entries as [|entry entries IH] using rev_ind.
  - unfold exceptionsAt. simpl. rewrite nodeAt_NewNode.
    split; [|by intros (? & ?%elem_of_nil & _)].
    case_decide; simpl; by rewrite lookup_empty.
  - rewrite insertPairs_snoc. unfold InsertDomain.
    rewrite exceptionsAt_insertParts. setoid_rewrite elem_of_app.
    setoid_rewrite list_elem_of_singleton.
    case_decide as Hp.
    + rewrite addExceptions_lookup.
      destruct (decide (label ∈ entry.2)) as [Hin|Hin]; simpl.
      * split; [|done]. intros _. exists entry. split; [by right|done].
      * rewrite IH. split.
        -- intros (e & He & Hpath & Hl). exists e. split; [by left|done].
        -- intros (e & [He| ->] & Hpath & Hl); [by exists e|done].
    + rewrite IH. split.
      * intros (e & He & Hpath & Hl). exists e. split; [by left|done].
      * intros (e & [He| ->] & Hpath & Hl); [by exists e|done].
Qed.

End MatchByContent.

(** X1. The names a list matches depend on the set of its entries only:
    two lists with the same entries, in any order and with any repetition,
    match the same names. *)
Theorem match_depends_on_entry_set (entries1 entries2 : list string) (name : string) :
  (∀ entry, entry ∈ entries1 ↔ entry ∈ entries2) →
  IsDomainBlocked (buildTrie entries1) name = IsDomainBlocked (buildTrie entries2) name.
Proof.
  intros Hsame. unfold IsDomainBlocked, buildTrie. rewrite !insertEntries_pairs.
  assert (∀ p, p ∈ ParseDomainWithExceptions <$> entries1
               ↔ p ∈ ParseDomainWithExceptions <$> entries2) as Hp.
  { intros p. rewrite !list_elem_of_fmap. by setoid_rewrite Hsame. }
  apply matchParts_same_content.
  - intros path _. apply bool_eq_iff. rewrite !endpointAt_insertPairs.
    by setoid_rewrite Hp.
  - intros path label _ _. apply bool_eq_iff. rewrite !exceptedAt_insertPairs.
    by setoid_rewrite Hp.
Qed.

(** Two orders of the same three entries, one of them repeated. *)
Lemma match_depends_on_entry_set_witness :
  IsDomainBlocked (buildTrie ["b.com !x"; "a.com"; "x.b.com"]) "y.x.b.com"
  = IsDomainBlocked (buildTrie ["x.b.com"; "a.com"; "b.com !x"; "a.com"]) "y.x.b.com".
Proof.
  apply match_depends_on_entry_set. intros entry.
  rewrite !elem_of_cons, !elem_of_nil. tauto.
Defined.

Section ExportImport.

Lemma ReverseDomainParts_lower domain :
  ReverseDomainParts (ToLower domain) = ReverseDomainParts domain.
Proof. apply ReverseDomainParts_ToLower. Qed.

(** Re-inserting the enumeration of a built trie gives a trie with the
    same endpoints and the same exceptions. *)
Lemma reinsert_enumeration_content entries path :
  endpointAt (insertPairs NewNode
                (extractEntries (insertPairs NewNode entries) [])) path
  = endpointAt (insertPairs NewNode entries) path ∧
  ∀ label,
    exceptedAt (insertPairs NewNode
                  (extractEntries (insertPairs NewNode entries) [])) path label
    = exceptedAt (insertPairs NewNode entries) path label.
Proof.
  split; [|intros label]; apply bool_eq_iff.
  - rewrite !endpointAt_insertPairs. split.
    + intros (e & (p & Hp & ->)%elem_of_extractEntries_insertPairs & He).
      exists p. split; [done|]. simpl in He. by rewrite ReverseDomainParts_lower in He.
    + intros (p & Hp & He). eexists. split.
      * apply elem_of_extractEntries_insertPairs. by exists p.
      * simpl. by rewrite ReverseDomainParts_lower.
  - rewrite !exceptedAt_insertPairs. split.
    + intros (e & (p & Hp & ->)%elem_of_extractEntries_insertPairs & He & Hl).
      simpl in He, Hl. rewrite ReverseDomainParts_lower in He. subst path.
      by apply elem_of_mapKeys, exceptionsAt_insertPairs in Hl.
    + intros (p & Hp & He & Hl). eexists. split; [|split].
      * apply elem_of_extractEntries_insertPairs. by exists p.
      * simpl. by rewrite ReverseDomainParts_lower.
      * simpl. apply elem_of_mapKeys, exceptionsAt_insertPairs.
        exists p. by rewrite He.
Qed.

End ExportImport.

(** X2. A list that is read out and written back matches as before: the
    trie built from the entries that [extractDomainsFromTrie] returns for
    a list of well-formed entries matches the same names as the list. *)
Theorem enumeration_rebuilds_the_list (entries : list string) (name : string) :
  Forall wellFormedEntry entries →
  IsDomainBlocked (buildTrie (extractDomainsFromTrie (buildTrie entries) [] [])) name
  = IsDomainBlocked (buildTrie entries) name.
Proof.
  intros Hwf.
  rewrite (extractDomainsFromTrie_entries _ [] []). simpl app.
  unfold IsDomainBlocked, buildTrie at 1. rewrite insertEntries_pairs.
  rewrite <- list_fmap_compose.
  assert ((ParseDomainWithExceptions ∘ formatEntry)
            <$> extractEntries (buildTrie entries) []
          = extractEntries (buildTrie entries) []) as ->.
  { rewrite <- (list_fmap_id (extractEntries (buildTrie entries) [])) at 2.
    apply list_fmap_ext. intros _ e He%list_elem_of_lookup_2.
    by apply (enumerated_entry_parses entries). }
  unfold buildTrie. rewrite insertEntries_pairs.
  apply matchParts_same_content.
  - intros path _. apply reinsert_enumeration_content.
  - intros path label _ _. apply reinsert_enumeration_content.
Qed.

(** The list of scenarios S1 and S5, read out and rebuilt. *)
Lemma enumeration_rebuilds_the_list_witness :
  IsDomainBlocked
    (buildTrie (extractDomainsFromTrie
                  (buildTrie ["Example.com !mail"; "b.com !x"; "a.com"]) [] []))
    "mail.example.com"
  = IsDomainBlocked (buildTrie ["Example.com !mail"; "b.com !x"; "a.com"])
                    "mail.example.com".
Proof.
  apply enumeration_rebuilds_the_list.
  repeat constructor; by vm_compute.
Defined.

Section Shadowing.

Lemma insertParts_endpoint_cons n part rest exceptions :
  IsEndpoint (insertParts n (part :: rest) exceptions) = IsEndpoint n ∧
  Exceptions (insertParts n (part :: rest) exceptions) = Exceptions n.
Proof. done. Qed.

(** An insertion below an endpoint changes no match. *)
Lemma matchParts_insert_below_endpoint n parts exceptions query :
  (∃ k, 0 < k < length parts ∧ endpointAt n (take k parts) = true) →
  matchParts (insertParts n parts exceptions) query = matchParts n query.
Proof.
  revert n query. induction parts as [|p ps IH]; intros n query (k & Hk & Hend).
  { simpl in Hk. lia. }
  destruct query as [|l rest]; [done|]. simpl.
  destruct (decide (l = p)) as [->|Hne]; [|by rewrite lookup_insert_ne].
  rewrite lookup_insert_eq.
  destruct k as [|k]; [lia|]. unfold endpointAt in Hend. simpl in Hend.
  destruct (Children n !! p) as [c|] eqn:Hc; [|done]. simpl.
  destruct ps as [|p' ps]; [simpl in Hk; lia|].
  destruct (insertParts_endpoint_cons c p' ps exceptions) as [-> ->].
  destruct (IsEndpoint c) eqn:Hcend; [done|].
  apply IH. destruct k as [|k].
  - rewrite take_0 in Hend. simpl in Hend. congruence.
  - exists (S k). split; [simpl in *; lia|]. done.
Qed.

End Shadowing.

(** X3. Once a domain is an endpoint of a list, inserting an entry for a
    name under it, with or without exceptions, changes the result of no
    query; in particular such an entry cannot block what an exception of
    the domain lets through. *)
Theorem insertion_below_endpoint_is_inert (root : Node)
    (parent sub : string) (exceptions : list string) (name : string) :
  endpointAt root (ReverseDomainParts parent) = true →
  IsDomainBlocked (InsertDomain root (sub +:+ "." +:+ parent) exceptions) name
  = IsDomainBlocked root name.
Proof.
  intros Hend. unfold IsDomainBlocked, InsertDomain.
  apply matchParts_insert_below_endpoint.
  rewrite ReverseDomainParts_sub.
  exists (length (ReverseDomainParts parent)). split.
  - rewrite length_app.
    pose proof (ReverseDomainParts_nonempty parent).
    pose proof (ReverseDomainParts_nonempty sub).
    destruct (ReverseDomainParts parent), (ReverseDomainParts sub); simpl; try done; lia.
  - by rewrite take_app_length.
Qed.

(** [mail.example.com] stays excepted after it is inserted itself. *)
Lemma insertion_below_endpoint_is_inert_witness :
  IsDomainBlocked
    (InsertDomain (buildTrie ["example.com !mail"]) ("mail" +:+ "." +:+ "example.com") [])
    "mail.example.com" = false.
Proof.
  rewrite (insertion_below_endpoint_is_inert (buildTrie ["example.com !mail"])
             "example.com" "mail" [] "mail.example.com"); by vm_compute.
Defined.

Section Monotone.

Lemma exceptionsOnEndpoints_child n label child :
  exceptionsOnEndpoints n → Children n !! label = Some child →
  exceptionsOnEndpoints child.
Proof.
  intros Hn Hc path Hend. specialize (Hn (label :: path)).
  unfold endpointAt, exceptionsAt in *. simpl in Hn. rewrite Hc in Hn. by apply Hn.
Qed.

Lemma Reachable_exceptionsOnEndpoints root :
  Reachable root → exceptionsOnEndpoints root.
Proof. intros H path. by apply Reachable_exceptions_at_endpoints. Qed.

(** Marking a further endpoint, without exceptions, keeps every match. *)
Lemma matchParts_insert_plain n parts query :
  exceptionsOnEndpoints n →
  matchParts n query = true →
  matchParts (insertParts n parts []) query = true.
Proof.
  revert n query. induction parts as [|p ps IH]; intros n query Hinv Hm.
  { by destruct query. }
  destruct query as [|l rest]; [done|]. simpl in *.
  destruct (decide (l = p)) as [->|Hne]; [|by rewrite lookup_insert_ne].
  rewrite lookup_insert_eq.
  destruct (Children n !! p) as [c|] eqn:Hc; [|done]. simpl.
  pose proof (exceptionsOnEndpoints_child _ _ _ Hinv Hc) as Hcinv.
  destruct ps as [|p' ps].
  - simpl. destruct (IsEndpoint c) eqn:Hend; [done|].
    specialize (Hcinv []). unfold endpointAt, exceptionsAt in Hcinv. simpl in Hcinv.
    rewrite (Hcinv Hend). destruct rest; [done|]. by rewrite lookup_empty.
  - destruct (insertParts_endpoint_cons c p' ps []) as [-> ->].
    destruct (IsEndpoint c); [done|]. by apply IH.
Qed.

End Monotone.

(** X4. Inserting an entry without exceptions into a trie reachable by
    insertions never unblocks a name: every name matched before is matched
    after. *)
Theorem plain_insertion_keeps_matches (root : Node) (domain name : string) :
  Reachable root →
  IsDomainBlocked root name = true →
  IsDomainBlocked (InsertDomain root domain []) name = true.
Proof.
  intros Hr Hm. apply matchParts_insert_plain; [|done].
  by apply Reachable_exceptionsOnEndpoints.
Qed.

(** [ads.example.com] stays blocked when [example.com] is added. *)
Lemma plain_insertion_keeps_matches_witness :
  IsDomainBlocked (InsertDomain (InsertDomain NewNode "ads.example.com" [])
                                "example.com" [])
                  "x.ads.example.com" = true.
Proof.
  apply plain_insertion_keeps_matches.
  - apply Reachable_insert, Reachable_new.
  - by vm_compute.
Defined.

Section Idempotence.

Lemma addExceptions_idemp m exceptions :
  addExceptions (addExceptions m exceptions) exceptions = addExceptions m exceptions.
Proof.
  apply map_eq. intros k. rewrite !addExceptions_lookup. by case_decide.
Qed.

Lemma insertParts_idemp n parts exceptions :
  insertParts (insertParts n parts exceptions) parts exceptions
  = insertParts n parts exceptions.
Proof.
  revert n. induction parts as [|p ps IH]; intros n; simpl.
  - by rewrite addExceptions_idemp.
  - rewrite lookup_insert_eq. simpl. by rewrite insert_insert_eq, IH.
Qed.

End Idempotence.

(** X5. Inserting the same domain with the same exceptions a second time
    leaves the trie as it is, whatever the letter case of the domain the
    second time. *)
Theorem InsertDomain_twice (root : Node) (domain again : string)
    (exceptions : list string) :
  ToLower again = ToLower domain →
  InsertDomain (InsertDomain root domain exceptions) again exceptions
  = InsertDomain root domain exceptions.
Proof.
  intros Hcase. unfold InsertDomain.
  apply ReverseDomainParts_inj in Hcase. rewrite Hcase.
  apply insertParts_idemp.
Qed.

(** [Example.COM] after [example.com]. *)
Lemma InsertDomain_twice_witness :
  InsertDomain (InsertDomain NewNode "example.com" ["mail"]) "Example.COM" ["mail"]
  = InsertDomain NewNode "example.com" ["mail"].
Proof. apply InsertDomain_twice. by vm_compute. Defined.

Section Counting.

Lemma countDomainsInTrie_unfold node :
  countDomainsInTrie node
  = foldr (uncurry (λ (_ : string) child count, count + countDomainsInTrie child))
          (if IsEndpoint node then 1 else 0)
          (map_to_list (Children node)).
Proof. destruct node. simpl. by rewrite map_fold_foldr. Qed.

(** The count is the length of the enumeration. *)
Lemma countDomainsInTrie_length node :
  ∀ prefix, countDomainsInTrie node = length (extractEntries node prefix).
Proof.
  induction node as [node IH] using Node_children_ind. intros prefix.
  rewrite countDomainsInTrie_unfold, extractEntries_unfold, length_app.
  assert (∀ part child, (part, child) ∈ map_to_list (Children node) →
            ∀ prefix, countDomainsInTrie child
                      = length (extractEntries child prefix)) as IH'.
  { intros part child Hin%elem_of_map_to_list. by eapply IH. }
  clear IH.
  assert (length (if IsEndpoint node
                  then [(Join (reverse prefix) ".", mapKeys (Exceptions node))]
                  else []) = if IsEndpoint node then 1 else 0) as ->
    by (by destruct (IsEndpoint node)).
  generalize (if IsEndpoint node then 1 else 0) as start.
  induction (map_to_list (Children node)) as [|[part child] l IHl]; intros start.
  - simpl. lia.
  - simpl. rewrite length_app. rewrite IHl by (intros; eapply IH'; by right).
    rewrite (IH' part child (ltac:(by left)) (prefix ++ [part])). lia.
Qed.

End Counting.

(** X6. [countDomainsInTrie] counts the entries that
    [extractDomainsFromTrie] returns; for the trie of a list that is the
    number of distinct case-folded domains among its entries, not the
    number of entries. *)
Theorem count_is_number_of_domains (entries : list string) :
  (∀ node, countDomainsInTrie node = length (extractDomainsFromTrie node [] [])) ∧
  countDomainsInTrie (buildTrie entries)
  = size (list_to_set ((λ entry, ToLower (ParseDomainWithExceptions entry).1)
                         <$> entries) : gset string).
Proof.
  split.
  - intros node. rewrite (extractDomainsFromTrie_entries node [] []). simpl.
    rewrite length_fmap. apply countDomainsInTrie_length.
  - rewrite (countDomainsInTrie_length _ []).
    unfold buildTrie. rewrite insertEntries_pairs.
    pose proof (NoDup_domains_insertPairs (ParseDomainWithExceptions <$> entries))
      as Hnd.
    rewrite <- (length_fmap fst). rewrite <- (size_list_to_set (C := gset string))
      by done.
    f_equal. apply set_eq. intros d. rewrite !elem_of_list_to_set, !list_elem_of_fmap.
    split.
    + intros (e & -> & (p & Hp & ->)%elem_of_extractEntries_insertPairs).
      apply list_elem_of_fmap in Hp as (entry & -> & Hin). by exists entry.
    + intros (entry & -> & Hin). eexists. split; [|
        apply elem_of_extractEntries_insertPairs;
        exists (ParseDomainWithExceptions entry);
        split; [apply list_elem_of_fmap; by exists entry|done]].
      done.
Qed.

(** ** Further properties of parsing and formatting *)

Section Pieces.

Lemma Split_pieces_no_sep s sep piece :
  piece ∈ Split s sep → hasByte sep piece = false.
Proof.
  revert piece. induction s as [|c s IH]; intros piece; simpl.
  - by intros ->%list_elem_of_singleton.
  - case_decide as Hc.
    + intros [->|Hin]%elem_of_cons; [done|]. by apply IH.
    + pose proof (Split_nonempty s sep).
      destruct (Split s sep) as [|p ps]; [done|].
      intros [->|Hin]%elem_of_cons.
      * simpl. rewrite bool_decide_eq_false_2 by done. apply IH. by left.
      * apply IH. by right.
Qed.

Lemma hasByte_trimLeft cut c s :
  hasByte c s = false → hasByte c (trimLeft cut s) = false.
Proof.
  induction s as [|k s IH]; simpl; [done|].
  intros [Hk Hs]%orb_false_iff. destruct (cut k); [by apply IH|].
  simpl. by rewrite Hk, Hs.
Qed.

Lemma hasByte_trimRight cut c s :
  hasByte c s = false → hasByte c (trimRight cut s) = false.
Proof.
  induction s as [|k s IH]; simpl; [done|].
  intros [Hk Hs]%orb_false_iff. specialize (IH Hs).
  destruct (trimRight cut s) eqn:E.
  - destruct (cut k); simpl; [done|]. by rewrite Hk.
  - simpl in *. by rewrite Hk, IH.
Qed.

Lemma trimLeft_idemp cut s : trimLeft cut (trimLeft cut s) = trimLeft cut s.
Proof.
  induction s as [|k s IH]; simpl; [done|].
  destruct (cut k) eqn:E; [done|]. simpl. by rewrite E.
Qed.

Lemma trimRight_idemp cut s : trimRight cut (trimRight cut s) = trimRight cut s.
Proof.
  induction s as [|k s IH]; simpl; [done|].
  destruct (trimRight cut s) as [|k' r] eqn:E.
  - destruct (cut k) eqn:Ek; simpl; [done|]. by rewrite Ek.
  - simpl in *. by rewrite IH.
Qed.

Lemma trimLeft_trimRight cut s :
  trimLeft cut s = s → trimLeft cut (trimRight cut s) = trimRight cut s.
Proof.
  destruct s as [|k s]; simpl; [done|].
  destruct (cut k) eqn:Ek.
  - intros H. pose proof (trimLeft_length cut s). rewrite H in *. simpl in *. lia.
  - intros _. destruct (trimRight cut s); simpl; by rewrite Ek.
Qed.

(** Trimming on both sides is idempotent. *)
Lemma trim_idemp cut s :
  trimRight cut (trimLeft cut (trimRight cut (trimLeft cut s)))
  = trimRight cut (trimLeft cut s).
Proof.
  rewrite trimLeft_trimRight by apply trimLeft_idemp. apply trimRight_idemp.
Qed.

End Pieces.

(** X7. What [ParseDomainWithExceptions] returns is normalised: an
    exception is never empty, holds no exclamation mark and neither begins
    nor ends with a space or a comma; when there are exceptions the domain
    holds no exclamation mark and no white space around it.  An entry that
    begins with an exclamation mark is taken whole as a domain. *)
Theorem parsed_entry_is_normalised (entry : string) :
  (∀ x, x ∈ (ParseDomainWithExceptions entry).2 →
        x ≠ "" ∧ hasByte "!" x = false ∧ Trim x ", " = x) ∧
  ((ParseDomainWithExceptions entry).2 ≠ [] →
     hasByte "!" (ParseDomainWithExceptions entry).1 = false ∧
     TrimSpace (ParseDomainWithExceptions entry).1
     = (ParseDomainWithExceptions entry).1) ∧
  (∀ rest, ParseDomainWithExceptions (String "!" rest) = (String "!" rest, [])).
Proof.
  unfold ParseDomainWithExceptions. split; [|split; [|done]].
  - destruct (0 <? Index entry "!")%Z; [|by intros x ?%elem_of_nil].
    pose proof (Split_pieces_no_sep entry "!") as Hno.
    destruct (Split entry "!") as [|first others]; [by intros x ?%elem_of_nil|].
    simpl. intros x (Hne & part & Hin & ->)%elem_of_collectExceptions.
    split; [done|]. split.
    + unfold Trim, TrimSpace.
      apply hasByte_trimRight, hasByte_trimLeft, hasByte_trimRight, hasByte_trimLeft.
      apply Hno. by right.
    + unfold Trim. apply trim_idemp.
  - destruct (0 <? Index entry "!")%Z; [|done].
    pose proof (Split_pieces_no_sep entry "!") as Hno.
    destruct (Split entry "!") as [|first others]; [done|].
    simpl. intros _. split.
    + unfold TrimSpace. apply hasByte_trimRight, hasByte_trimLeft, Hno. by left.
    + unfold TrimSpace. apply trim_idemp.
Qed.

(** X8. Formatting and parsing are inverse on well-formed entries:
    [ParseDomainWithExceptions] gives back the domain and the exceptions,
    in their order, from the text of [FormatDomainWithExceptions]. *)
Theorem format_then_parse (domain : string) (exceptions : list string) :
  isDomain domain → Forall (λ x, isException x) exceptions →
  ParseDomainWithExceptions (FormatDomainWithExceptions domain exceptions)
  = (domain, exceptions).
Proof. apply parse_format. Qed.

(** The entry of the API documentation, [example.com !mail !forum]. *)
Lemma format_then_parse_witness :
  ParseDomainWithExceptions
    (FormatDomainWithExceptions "example.com" ["mail"; "forum"])
  = ("example.com", ["mail"; "forum"]).
Proof.
  apply format_then_parse; [by vm_compute|].
  repeat constructor; by vm_compute.
Defined.

(** X9. [ReverseDomainParts] never returns an empty slice; its parts are in
    lower case and hold no dot; joined with dots in the order of the
    domain they give the domain in lower case, so two domains have the
    same parts exactly when they differ in letter case only. *)
Theorem ReverseDomainParts_round_trip (domain : string) :
  ReverseDomainParts domain ≠ [] ∧
  (∀ part, part ∈ ReverseDomainParts domain →
           hasByte "." part = false ∧ ToLower part = part) ∧
  Join (reverse (ReverseDomainParts domain)) "." = ToLower domain ∧
  (∀ other, ReverseDomainParts other = ReverseDomainParts domain
            ↔ ToLower other = ToLower domain).
Proof.
  split; [apply ReverseDomainParts_nonempty|]. split; [|split].
  - intros part Hin. unfold ReverseDomainParts in Hin.
    rewrite elem_of_reverse in Hin. split.
    + by apply Split_pieces_no_sep in Hin.
    + rewrite Split_ToLower in Hin.
      apply list_elem_of_fmap in Hin as (p & -> & _). apply ToLower_idemp.
  - apply Join_ReverseDomainParts.
  - intros other. apply ReverseDomainParts_inj.
Qed.

(** ** Further properties of the list files *)

Section SavedLists.

Lemma listBody_cons entry entries :
  listBody (entry :: entries) = entry +:+ newline +:+ listBody entries.
Proof.
  unfold listBody. simpl.
  assert (∀ acc, foldl (λ text domain, text +:+ domain +:+ newline) acc entries
                 = acc +:+ foldl (λ text domain, text +:+ domain +:+ newline)
                                 "" entries) as Hacc.
  { induction entries as [|d ds IH]; intros acc; simpl.
    - by rewrite append_nil_r.
    - rewrite (IH (acc +:+ d +:+ newline)), (IH ("" +:+ d +:+ newline)).
      by rewrite !append_assoc. }
  rewrite (Hacc ("" +:+ entry +:+ newline)). by rewrite !append_assoc.
Qed.

Lemma dropCR_trimmed line : trimRight isSpace line = line → dropCR line = line.
Proof.
  induction line as [|c rest IH]; [done|].
  destruct rest as [|c' rest'].
  - simpl. destruct (isSpace c) eqn:Hc; [done|]. intros _.
    case_decide as Hcr; [|done]. subst c. by vm_compute in Hc.
  - intros H.
    change (dropCR (String c (String c' rest')))
      with (String c (dropCR (String c' rest'))).
    f_equal. apply IH.
    change (trimRight isSpace (String c (String c' rest')))
      with (match trimRight isSpace (String c' rest') with
            | EmptyString => if isSpace c then EmptyString else String c EmptyString
            | r => String c r
            end) in H.
    destruct (trimRight isSpace (String c' rest')) as [|k r].
    + destruct (isSpace c); discriminate H.
    + congruence.
Qed.

(** The lines of the body of a written file are the entries written. *)
Lemma ScanLines_listBody entries :
  Forall storableEntry entries → ScanLines (listBody entries) = entries.
Proof.
  induction 1 as [|entry entries (Htrim & _ & Hnl) _ IH]; [done|].
  rewrite listBody_cons, ScanLines_line, IH by done. f_equal.
  apply dropCR_trimmed. by apply trim_fixed in Htrim as [_ ?].
Qed.

Lemma parse_stored_lines entries :
  Forall storableEntry entries →
  filter isEntryLine (TrimSpace <$> entries) = entries.
Proof.
  induction 1 as [|entry entries (Htrim & Hline & _) _ IH]; [done|].
  rewrite fmap_cons, filter_cons, Htrim, IH.
  rewrite decide_True; [done|]. by rewrite Hline.
Qed.

(** The scanner takes a text when it takes its first line and the rest. *)
Lemma tokenTooLong_line line rest :
  hasByte "010" line = false →
  tokenTooLong (line +:+ newline +:+ rest)
  = (MaxScanTokenSize <=? Z.of_nat (String.length line))%Z || tokenTooLong rest.
Proof.
  intros Hline. unfold tokenTooLong, newline.
  change (line +:+ String "010" "" +:+ rest) with (line +:+ String "010" rest).
  by rewrite Split_app_sep, Split_no_sep by done.
Qed.

Lemma fitsScanner_leb line :
  fitsScanner line →
  (MaxScanTokenSize <=? Z.of_nat (String.length line))%Z = false.
Proof. unfold fitsScanner. intros H. by apply Z.leb_gt. Qed.

Lemma tokenTooLong_listBody entries :
  Forall storableEntry entries → Forall fitsScanner entries →
  tokenTooLong (listBody entries) = false.
Proof.
  induction 1 as [|entry entries (_ & _ & Hnl) _ IH]; [done|].
  intros [Hfit Hfits]%Forall_cons.
  rewrite listBody_cons, tokenTooLong_line by done.
  by rewrite fitsScanner_leb, IH.
Qed.

Lemma tokenTooLong_listFileText now entries :
  hasByte "010" now = false → fitsScanner ("# Last update: " +:+ now) →
  Forall storableEntry entries → Forall fitsScanner entries →
  tokenTooLong (listFileText now entries) = false.
Proof.
  intros Hnow Hfit Hst Hfits. rewrite listFileText_body. unfold fileHeader.
  rewrite !append_assoc.
  rewrite tokenTooLong_line by done.
  rewrite <- (append_assoc "# Last update: " now).
  rewrite tokenTooLong_line by (by rewrite hasByte_app, Hnow).
  rewrite fitsScanner_leb by done.
  change (newline +:+ listBody entries) with ("" +:+ newline +:+ listBody entries).
  rewrite tokenTooLong_line by done.
  by rewrite (fitsScanner_leb _ Hfit), tokenTooLong_listBody.
Qed.

End SavedLists.

(** X10. A list file gives back the list that was written to it: for
    entries without surrounding white space or newline that are neither
    empty nor comments and are shorter than 64 KiB, the scanner takes the
    text that [SaveDomainList] writes, and the trie loaded from it is the
    trie built from the entries.  After a [CreateList] with such entries
    that returns no error, [LoadDomainList] on the file of the list
    returns the trie that is in memory. *)
Theorem saved_list_reloads (df : DNSFilter) (fs : Disk)
    (listType name : string) (entries : list string) :
  Forall storableEntry entries →
  Forall fitsScanner entries →
  hasByte "010" (Now fs) = false →
  fitsScanner ("# Last update: " +:+ Now fs) →
  loadText (listFileText (Now fs) entries) = buildTrie entries ∧
  tokenTooLong (listFileText (Now fs) entries) = false ∧
  (listMissing df listType name →
   errorOf (CreateList (mkListContent name listType entries) df fs) = None →
   LoadDomainList (CreateList (mkListContent name listType entries) df fs).2
                  (listFile df listType name)
   = inl (buildTrie entries) ∧
   trieAfter (CreateList (mkListContent name listType entries) df fs) listType name
   = Some (buildTrie entries)).
Proof.
  intros Hst Hfits Hnow Hfit.
  assert (loadText (listFileText (Now fs) entries) = buildTrie entries) as Hload.
  { rewrite loadText_parsed, listFileText_body, parseFile_header by done.
    unfold parseFile. rewrite ScanLines_listBody, parse_stored_lines by done.
    unfold buildTrie. by rewrite insertEntries_pairs. }
  pose proof (tokenTooLong_listFileText (Now fs) entries Hnow Hfit Hst Hfits)
    as Hscan.
  split; [done|]. split; [done|]. intros (tries & Ht & Hn).
  unfold errorOf, trieAfter, CreateList. simpl. rewrite Ht, Hn.
  pose proof (storeTrie_lookup df listType name (insertEntries NewNode entries)
                tries Ht) as Hstored.
  destruct (storeTrie_dirs df listType name (insertEntries NewNode entries))
    as [Hb Hwd].
  destruct (SaveDomainList _ name listType entries fs) as [err fs'] eqn:Hsave.
  cbn [fst snd]. intros ->.
  apply SaveDomainList_success in Hsave as (_ & _ & Hfile & _).
  unfold listFile in *. rewrite Hb, Hwd in Hfile. split.
  - unfold LoadDomainList. rewrite Hfile, Hscan.
    fold (loadText (listFileText (Now fs) entries)). by rewrite Hload.
  - rewrite Hstored. by rewrite lookup_insert_eq.
Qed.

(** The block list of scenario S1, created and loaded again. *)
Lemma saved_list_reloads_witness :
  let df := NewDNSFilter "/clients.json" "/blocklists" "/whitelists" in
  let fs := mkDisk ∅ true "2025-04-12T10:30:00Z" in
  let list := mkListContent "ads" "blocklist" ["example.com !mail"; "ads.net"] in
  LoadDomainList (CreateList list df fs).2 "/blocklists/ads"
  = inl (buildTrie ["example.com !mail"; "ads.net"]).
Proof.
  intros df fs list.
  refine (proj1 (proj2 (proj2 (saved_list_reloads df fs "blocklist" "ads"
                                 ["example.com !mail"; "ads.net"] _ _ _ _))
                   _ _)).
  - repeat constructor; by vm_compute.
  - repeat constructor; by vm_compute.
  - by vm_compute.
  - by vm_compute.
  - exists ∅. split; [done|]. apply lookup_empty.
  - by vm_compute.
Defined.

(** ** Further properties of the list store and of the registry *)

Section StoreFacts.

Lemma storeTrie_clients df listType name root :
  Clients (storeTrie df listType name root) = Clients df ∧
  ConfigPath (storeTrie df listType name root) = ConfigPath df.
Proof. unfold storeTrie. by case_decide. Qed.

Lemma storeTrie_keeps_lists df listType name root other :
  (is_Some (BlocklistTries df !! other) →
   is_Some (BlocklistTries (storeTrie df listType name root) !! other)) ∧
  (is_Some (WhitelistTries df !! other) →
   is_Some (WhitelistTries (storeTrie df listType name root) !! other)).
Proof.
  unfold storeTrie. destruct (decide (listType = "blocklist")); simpl;
    (split; [|]); try done;
    intros Hsome; rewrite lookup_insert; by destruct (decide (name = other)).
Qed.

Lemma validRegistry_storeTrie df listType name root :
  validRegistry df → validRegistry (storeTrie df listType name root).
Proof.
  intros Hv ip config. rewrite (proj1 (storeTrie_clients _ _ _ _)).
  intros (Hb & Hw & Hm)%Hv. split; [|split; [|done]].
  - intros n Hn. by apply storeTrie_keeps_lists, Hb.
  - intros n Hn. by apply storeTrie_keeps_lists, Hw.
Qed.

Lemma elem_of_removeFromSlice slice item x :
  x ∈ removeFromSlice slice item ↔ x ∈ slice ∧ x ≠ item.
Proof.
  induction slice as [|s rest IH]; simpl.
  - split; [by intros ?%elem_of_nil|by intros [?%elem_of_nil _]].
  - case_decide as Hs.
    + rewrite !elem_of_cons, IH. split.
      * intros [->|[? ?]]; [by split; [left|]|]. split; [by right|done].
      * intros [[->|?] ?]; [by left|by right].
    + subst s. rewrite IH, elem_of_cons. split.
      * intros [? ?]. split; [by right|done].
      * intros [[->|?] ?]; done.
Qed.

Lemma firstMissing_None tries refs :
  firstMissing tries refs = None ↔
  ∀ name, name ∈ refs → is_Some (tries !! name).
Proof.
  induction refs as [|r refs IH]; simpl.
  - split; [by intros _ ? ?%elem_of_nil|done].
  - destruct (tries !! r) eqn:Hr.
    + rewrite IH. split.
      * intros H nm [->|?]%elem_of_cons; [by rewrite Hr|by apply H].
      * intros H nm Hnm. apply H. by right.
    + split; [done|]. intros H. destruct (H r) as [? Hx]; [by left|congruence].
Qed.

Lemma validateListReferences_None df client :
  validateListReferences df client = None ↔
  (∀ name, name ∈ BlocklistRefs client → is_Some (BlocklistTries df !! name)) ∧
  (∀ name, name ∈ WhitelistRefs client → is_Some (WhitelistTries df !! name)).
Proof.
  unfold validateListReferences. rewrite <- !firstMissing_None.
  destruct (firstMissing (BlocklistTries df) _); [by split; [|intros [? _]]|].
  destruct (firstMissing (WhitelistTries df) _); [by split; [|intros [_ ?]]|done].
Qed.

(** [putClient] stores the client exactly when it is acceptable. *)
Lemma putClient_spec client df fs :
  (acceptableClient df client ∧
   putClient client df fs
   = ((SaveClientConfig
         (setClients df (<[IP client :=
            mkClientConfig "" (BlocklistRefs client) (WhitelistRefs client)
                           (Mode client)]> (Clients df))) fs).1,
      setClients df (<[IP client :=
            mkClientConfig "" (BlocklistRefs client) (WhitelistRefs client)
                           (Mode client)]> (Clients df)),
      (SaveClientConfig
         (setClients df (<[IP client :=
            mkClientConfig "" (BlocklistRefs client) (WhitelistRefs client)
                           (Mode client)]> (Clients df))) fs).2)) ∨
  (¬ acceptableClient df client ∧
   ∃ message, putClient client df fs = (Some message, df, fs)).
Proof.
  unfold putClient, acceptableClient.
  destruct (validateListReferences df client) as [err|] eqn:Hv.
  - right. split; [|by eexists]. intros (Hb & Hw & _).
    assert (validateListReferences df client = None) as Hn
      by (by apply validateListReferences_None).
    congruence.
  - apply validateListReferences_None in Hv as [Hb Hw].
    case_decide as Hm.
    + right. split; [|by eexists]. intros (_ & _ & [?|?]); by destruct Hm.
    + left. split.
      * split; [done|]. split; [done|].
        destruct (decide (Mode client = "blocklist")); [by left|].
        destruct (decide (Mode client = "whitelist")); [by right|].
        by destruct Hm.
      * by destruct (SaveClientConfig _ fs).
Qed.

End StoreFacts.



(** X12. What a list operation that returns no error has written:
    [CreateList] and [UpdateList] the header and the entries as they were
    submitted, [AddDomains] the header and the enumeration of the list
    after the addition, at the cleaned path of the name under the
    directory of the type, replacing whatever file was there, be it the
    client document.  Every other file is as it was; directories are made
    where they were missing. *)
Theorem list_file_after_operation (df : DNSFilter) (fs : Disk)
    (listType name : string) (entries : list string) :
  (listMissing df listType name →
   errorOf (CreateList (mkListContent name listType entries) df fs) = None →
   fileWritten fs (CreateList (mkListContent name listType entries) df fs).2
               (listFile df listType name) (listFileText (Now fs) entries)) ∧
  (∀ tries trie, triesOf df listType = Some tries → tries !! name = Some trie →
     (errorOf (UpdateList (mkListContent name listType entries) df fs) = None →
      fileWritten fs (UpdateList (mkListContent name listType entries) df fs).2
                  (listFile df listType name) (listFileText (Now fs) entries)) ∧
     (errorOf (AddDomains name listType entries df fs) = None →
      fileWritten fs (AddDomains name listType entries df fs).2
                  (listFile df listType name)
                  (listFileText (Now fs)
                     (extractDomainsFromTrie (insertEntries trie entries) [] [])))).
Proof.
  assert (∀ root domains err fs',
    SaveDomainList (storeTrie df listType name root) name listType domains fs
    = (err, fs') →
    err = None →
    fileWritten fs fs' (listFile df listType name)
                (listFileText (Now fs) domains)) as Hsave.
  { intros root domains err fs' Hs ->.
    apply SaveDomainList_success in Hs as (_ & _ & Hfile & _ & _ & Hother).
    unfold listFile in *.
    destruct (storeTrie_dirs df listType name root) as [Hb Hw].
    rewrite Hb, Hw in Hfile, Hother. by split. }
  unfold errorOf. split.
  - intros (tries & Ht & Hn). unfold CreateList. simpl. rewrite Ht, Hn.
    destruct (SaveDomainList _ name listType entries fs) as [err fs'] eqn:Hs.
    by apply (Hsave _ _ _ _ Hs).
  - intros tries trie Ht Hn. unfold UpdateList, AddDomains. simpl. rewrite Ht, Hn.
    split.
    + destruct (SaveDomainList _ name listType entries fs) as [err fs'] eqn:Hs.
      by apply (Hsave _ _ _ _ Hs).
    + destruct (SaveDomainList _ name listType _ fs) as [err fs'] eqn:Hs.
      by apply (Hsave _ _ _ _ Hs).
Qed.

(** A list with the name [../clients.json] is created in [/blocklists]:
    its text replaces the client document. *)
Lemma list_file_after_operation_witness :
  let df := NewDNSFilter "/clients.json" "/blocklists" "/whitelists" in
  let fs := mkDisk {[ "/clients.json" := ClientsFile ∅ ]} true
                   "2025-04-12T10:30:00Z" in
  Files (CreateList (mkListContent "../clients.json" "blocklist" ["a.com"]) df fs).2
    !! "/clients.json"
  = Some (TextFile (listFileText "2025-04-12T10:30:00Z" ["a.com"])).
Proof.
  intros df fs.
  destruct (list_file_after_operation df fs "blocklist" "../clients.json" ["a.com"])
    as [Hcreate _].
  apply Hcreate.
  - exists ∅. split; [done|]. apply lookup_empty.
  - by vm_compute.
Defined.

Section RegistryInvariant.

Lemma validRegistry_put df client :
  validRegistry df → acceptableClient df client →
  validRegistry
    (setClients df (<[IP client :=
       mkClientConfig "" (BlocklistRefs client) (WhitelistRefs client)
                      (Mode client)]> (Clients df))).
Proof.
  intros Hv Hok ip config. simpl. rewrite lookup_insert.
  case_decide; [intros [= <-]; exact Hok|]. apply Hv.
Qed.

Lemma validRegistry_DeleteList df fs name listType :
  validRegistry df → validRegistry (filterAfter (DeleteList name listType df fs)).
Proof.
  intros Hv. unfold filterAfter, DeleteList.
  destruct (triesOf df listType) as [tries|] eqn:Ht; [|done].
  destruct (tries !! name) as [trie|] eqn:Hn; [|done].
  destruct (removeListReferencesFromClients_spec name listType
              (dropTrie df listType name) fs) as (updated & -> & _).
  destruct (dropTrie_clients df listType name) as (Hc & _).
  rewrite Hc. simpl.
  intros ip config'. simpl. rewrite lookup_fmap.
  destruct (Clients df !! ip) as [config|] eqn:Hip; [|done].
  simpl. intros [= <-]. destruct (Hv ip config Hip) as (Hb & Hw & Hm).
  destruct (stripReference_fields name listType config) as (H1 & H2 & H3 & _).
  unfold refsOf, otherRefsOf, dropTrie in *. rewrite H3.
  destruct (decide (listType = "blocklist")); simpl.
  - rewrite H1, H2. split; [|done].
    intros nm [Hin Hne]%elem_of_removeFromSlice.
    rewrite lookup_delete_ne by done. by apply Hb.
  - rewrite H1, H2. split; [done|]. split; [|done].
    intros nm [Hin Hne]%elem_of_removeFromSlice.
    rewrite lookup_delete_ne by done. by apply Hw.
Qed.

End RegistryInvariant.

(** X13. Every operation keeps the registry valid, whether it succeeds or
    fails: after [CreateList], [UpdateList], [AddDomains], [RemoveDomains],
    [DeleteList], [CreateClient], [UpdateClient] and [DeleteClient] every
    policy still names loaded lists of the matching type only and has one
    of the two modes. *)
Theorem operations_keep_registry_valid (df : DNSFilter) (fs : Disk) :
  validRegistry df →
  (∀ content, validRegistry (filterAfter (CreateList content df fs))) ∧
  (∀ content, validRegistry (filterAfter (UpdateList content df fs))) ∧
  (∀ name listType domains,
     validRegistry (filterAfter (AddDomains name listType domains df fs))) ∧
  (∀ name listType domains,
     validRegistry (filterAfter (RemoveDomains name listType domains df fs))) ∧
  (∀ name listType, validRegistry (filterAfter (DeleteList name listType df fs))) ∧
  (∀ client, validRegistry (filterAfter (CreateClient client df fs))) ∧
  (∀ client, validRegistry (filterAfter (UpdateClient client df fs))) ∧
  (∀ ip, validRegistry (filterAfter (DeleteClient ip df fs))).
Proof.
  intros Hv.
  assert (∀ client, validRegistry (filterAfter (putClient client df fs))) as Hput.
  { intros client.
    destruct (putClient_spec client df fs) as [[Hok ->]|[_ [message ->]]]; [|done].
    by apply validRegistry_put. }
  split; [|split; [|split; [|split; [|split; [|split; [|split]]]]]].
  - intros content. unfold CreateList.
    destruct (triesOf df (Type_ content)) as [tries|]; [|done].
    destruct (tries !! Name content); [done|].
    destruct (SaveDomainList _ _ _ _ fs). by apply validRegistry_storeTrie.
  - intros content. unfold UpdateList.
    destruct (triesOf df (Type_ content)) as [tries|]; [|done].
    destruct (tries !! Name content); [|done].
    destruct (SaveDomainList _ _ _ _ fs). by apply validRegistry_storeTrie.
  - intros name listType domains. unfold AddDomains.
    destruct (triesOf df listType) as [tries|]; [|done].
    destruct (tries !! name); [|done].
    destruct (SaveDomainList _ _ _ _ fs). by apply validRegistry_storeTrie.
  - intros name listType domains. unfold RemoveDomains.
    destruct (triesOf df listType) as [tries|]; [|done].
    destruct (tries !! name); [|done].
    destruct (keepRemaining _ _).
    destruct (SaveDomainList _ _ _ _ fs). by apply validRegistry_storeTrie.
  - intros name listType. by apply validRegistry_DeleteList.
  - intros client. unfold CreateClient.
    destruct (Clients df !! IP client); [done|]. apply Hput.
  - intros client. unfold UpdateClient.
    destruct (Clients df !! IP client); [|done]. apply Hput.
  - intros ip. unfold DeleteClient.
    destruct (Clients df !! ip) eqn:Hip; [|done].
    destruct (SaveClientConfig _ fs). unfold filterAfter. simpl.
    intros ip' config. simpl. rewrite lookup_delete.
    case_decide; [done|]. apply Hv.
Qed.

(** The deletion of a list that a client names. *)
Lemma operations_keep_registry_valid_witness :
  let df := mkDNSFilter "/clients.json" "/blocklists" "/whitelists"
              {[ "x" := buildTrie ["example.com"] ]} ∅
              {[ "10.0.0.1" := mkClientConfig "" ["x"] [] "blocklist" ]} in
  let fs := mkDisk ∅ true "2025-04-12T10:30:00Z" in
  validRegistry (filterAfter (DeleteList "x" "blocklist" df fs)).
Proof.
  intros df fs.
  assert (validRegistry df) as Hv.
  { intros ip config Hl. unfold df in Hl. simpl in Hl.
    apply lookup_singleton_Some in Hl as [_ <-]. simpl.
    split; [|split; [|by left]].
    - intros n ->%list_elem_of_singleton. by eexists.
    - by intros n ?%elem_of_nil. }
  by apply (operations_keep_registry_valid df fs Hv).
Defined.



(** X15. [DeleteClient] removes the policy of one address and nothing
    else: the lists stay loaded, the other policies stay as they are, the
    address is unknown afterwards, so that [GetClientByIP] fails for it and
    [CheckDomain] denies it every name.  For an unknown address it reports
    the error and changes nothing. *)
Theorem DeleteClient_forgets_one_client (ip : string) (df : DNSFilter) (fs : Disk) :
  (Clients df !! ip = None →
     DeleteClient ip df fs = (Some ("client not found: " +:+ ip), df, fs)) ∧
  (is_Some (Clients df !! ip) →
     Clients (filterAfter (DeleteClient ip df fs)) = delete ip (Clients df) ∧
     BlocklistTries (filterAfter (DeleteClient ip df fs)) = BlocklistTries df ∧
     WhitelistTries (filterAfter (DeleteClient ip df fs)) = WhitelistTries df ∧
     GetClientByIP (filterAfter (DeleteClient ip df fs)) ip
     = inr ("client not found: " +:+ ip) ∧
     (∀ name, CheckDomain (filterAfter (DeleteClient ip df fs)) ip name = Deny) ∧
     (∀ other name, other ≠ ip →
        CheckDomain (filterAfter (DeleteClient ip df fs)) other name
        = CheckDomain df other name)).
Proof.
  unfold filterAfter, DeleteClient. split.
  - by intros ->.
  - intros [config Hip]. rewrite Hip.
    destruct (SaveClientConfig _ fs) as [err fs']. simpl.
    split; [done|]. split; [done|]. split; [done|].
    unfold GetClientByIP, CheckDomain. simpl. rewrite lookup_delete_eq.
    split; [done|]. split; [done|].
    intros other name Hne. by rewrite lookup_delete_ne.
Qed.

(** The client of scenario S1, deleted. *)
Lemma DeleteClient_forgets_one_client_witness :
  let df := mkDNSFilter "/clients.json" "/blocklists" "/whitelists"
              {[ "ads" := buildTrie ["example.com !mail"] ]} ∅
              {[ "10.0.0.1" := mkClientConfig "" ["ads"] [] "blocklist" ]} in
  let fs := mkDisk ∅ true "2025-04-12T10:30:00Z" in
  CheckDomain (filterAfter (DeleteClient "10.0.0.1" df fs)) "10.0.0.1" "other.com"
  = Deny.
Proof.
  intros df fs.
  destruct (DeleteClient_forgets_one_client "10.0.0.1" df fs) as [_ H].
  apply H. eexists. apply lookup_insert_eq.
Defined.

(** X16. On the DNS path an allow-mode client is denied every name that
    ends with an empty label, the fully-qualified names among them: no
    allow list built from entries with non-empty labels matches such a
    name, and [ServeDNS] answers NXDOMAIN.  Without a filter [ServeDNS]
    hands every request on, and with a filter it answers NXDOMAIN to
    every client that has no policy. *)
Theorem ServeDNS_allow_mode_and_defaults (ib : ipblocker.IPBlocker)
    (ip name : string) :
  (ipblocker.Filter ib = None →
     ipblocker.ServeDNS ib ip name = ipblocker.NextOrFailure) ∧
  (∀ df, ipblocker.Filter ib = Some df → Clients df !! ip = None →
     ipblocker.ServeDNS ib ip name = ipblocker.NameError) ∧
  (∀ df config,
     ipblocker.Filter ib = Some df → Clients df !! ip = Some config →
     Mode config = "whitelist" →
     builtFromNonEmptyLabels (WhitelistTries df) →
     endsWithEmptyLabel name →
     ipblocker.ServeDNS ib ip name = ipblocker.NameError).
Proof.
  unfold ipblocker.ServeDNS. split; [by intros ->|]. split.
  - intros df -> Hc. unfold CheckDomain. by rewrite Hc.
  - intros df config -> Hc Hm Hbuilt Hname. unfold CheckDomain. rewrite Hc.
    rewrite decide_False by (by rewrite Hm).
    rewrite decide_True by done.
    destruct (anyListMatches _ _ _) eqn:Hany; [|done].
    apply anyListMatches_true in Hany as (n & t & _ & Ht & Hb).
    apply Hbuilt in Ht as (entries & Hes & ->).
    by rewrite IsDomainBlocked_trailing_empty in Hb.
Qed.

(** The allow-mode client of scenario S2 asks for [work.example.com.]. *)
Lemma ServeDNS_allow_mode_and_defaults_witness :
  let df := mkDNSFilter "/clients.json" "/blocklists" "/whitelists" ∅
              {[ "ok" := buildTrie ["work.example.com"] ]}
              {[ "10.0.0.2" := mkClientConfig "" [] ["ok"] "whitelist" ]} in
  ipblocker.ServeDNS (ipblocker.mkIPBlocker 8099 (Some df))
                     "10.0.0.2" "work.example.com."
  = ipblocker.NameError.
Proof.
  intros df.
  apply (proj2 (proj2 (ServeDNS_allow_mode_and_defaults
                         (ipblocker.mkIPBlocker 8099 (Some df))
                         "10.0.0.2" "work.example.com."))
           df (mkClientConfig "" [] ["ok"] "whitelist")).
  - done.
  - apply lookup_insert_eq.
  - done.
  - intros n t Hl. unfold df in Hl. cbn [WhitelistTries] in Hl.
    apply lookup_singleton_Some in Hl as [_ <-].
    exists ["work.example.com"]. split; [|done].
    apply Forall_singleton. unfold domainLabelsNonEmpty.
    vm_compute. by repeat constructor.
  - apply (fqdn_endsWithEmptyLabel "work.example.com").
Defined.

(** X17. The decision of [CheckDomain] depends on the mode and on the set
    of loaded lists a policy names, not on their order, their repetition
    or on names of lists that are not loaded. *)
Theorem CheckDomain_depends_on_loaded_refs (df : DNSFilter) (ip name : string)
    (config config' : ClientConfig) :
  Clients df !! ip = Some config →
  Mode config' = Mode config →
  (∀ list, is_Some (BlocklistTries df !! list) →
           (list ∈ BlocklistRefs config ↔ list ∈ BlocklistRefs config')) →
  (∀ list, is_Some (WhitelistTries df !! list) →
           (list ∈ WhitelistRefs config ↔ list ∈ WhitelistRefs config')) →
  CheckDomain (setClients df (<[ip := config']> (Clients df))) ip name
  = CheckDomain df ip name.
Proof.
  intros Hc Hm Hb Hw. unfold CheckDomain. simpl.
  rewrite lookup_insert_eq, Hc, Hm.
  assert (∀ tries refs refs',
    (∀ list, is_Some (tries !! list) → (list ∈ refs ↔ list ∈ refs')) →
    anyListMatches tries refs' name = anyListMatches tries refs name) as Hany.
  { intros tries refs refs' Hsame. apply bool_eq_iff.
    rewrite !anyListMatches_true. unfold someLoadedListMatches.
    split; intros (n & t & Hin & Ht & Hmatch); exists n, t;
      (split; [apply (Hsame n); [by eexists|done]|done]). }
  by rewrite (Hany _ _ _ Hb), (Hany _ _ _ Hw).
Qed.

(** A policy and the same policy with its lists reversed, one repeated and
    a list that is not loaded added. *)
Lemma CheckDomain_depends_on_loaded_refs_witness :
  let config := mkClientConfig "" ["ads"; "malware"] [] "blocklist" in
  let config' := mkClientConfig "" ["gone"; "malware"; "ads"; "malware"] [] "blocklist" in
  let df := mkDNSFilter "/clients.json" "/blocklists" "/whitelists"
              {[ "ads" := buildTrie ["example.com"];
                 "malware" := buildTrie ["bad.net"] ]} ∅
              {[ "10.0.0.1" := config ]} in
  CheckDomain (setClients df (<[ "10.0.0.1" := config' ]> (Clients df)))
              "10.0.0.1" "www.bad.net"
  = CheckDomain df "10.0.0.1" "www.bad.net".
Proof.
  intros config config' df.
  apply (CheckDomain_depends_on_loaded_refs df "10.0.0.1" "www.bad.net" config config').
  - apply lookup_insert_eq.
  - done.
  - intros l [t Hl]. simpl in *.
    rewrite !elem_of_cons, !elem_of_nil.
    assert (l ≠ "gone"); [|tauto].
    intros ->. by vm_compute in Hl.
  - intros l _. done.
Defined.



(** ** Start-up and the listings *)

Lemma elem_of_mapKeysToSlice (m : gmap string bool) (key : string) :
  key ∈ mapKeysToSlice m ↔ is_Some (m !! key).
Proof.
  unfold mapKeysToSlice. rewrite list_elem_of_fmap. split.
  - intros ([k v] & -> & Hin). apply elem_of_map_to_list in Hin. by eexists.
  - intros [v Hv]. exists (key, v). split; [done|]. by apply elem_of_map_to_list.
Qed.

Lemma lookup_mark_all (refs : list string) (m : gmap string bool) (key : string) :
  is_Some (foldl (λ m list, <[list := true]> m) m refs !! key)
  ↔ is_Some (m !! key) ∨ key ∈ refs.
Proof.
  revert m. induction refs as [|r refs IH]; intros m; simpl.
  - rewrite elem_of_nil. tauto.
  - rewrite IH, elem_of_cons. destruct (decide (key = r)) as [->|Hne].
    + rewrite lookup_insert_eq. split; [intros _; right; by left|].
      intros _. left. by eexists.
    + rewrite lookup_insert_ne by done. split; [tauto|].
      intros [?|[?|?]]; [tauto|done|tauto].
Qed.

Lemma collectUniqueListFiles_spec (df : DNSFilter) (name : string) :
  (name ∈ (collectUniqueListFiles df).1 ↔ referenced df "blocklist" name) ∧
  (name ∈ (collectUniqueListFiles df).2 ↔ referenced df "whitelist" name).
Proof.
  unfold collectUniqueListFiles.
  set (step := λ (_ : string) (config : ClientConfig)
                 '((blocklistsMap, whitelistsMap) : gmap string bool * gmap string bool),
                 (foldl (λ m list, <[list := true]> m) blocklistsMap
                        (BlocklistRefs config),
                  foldl (λ m list, <[list := true]> m) whitelistsMap
                        (WhitelistRefs config))).
  assert (∀ clients : gmap string ClientConfig,
    (is_Some ((map_fold step (∅, ∅) clients).1 !! name)
       ↔ ∃ ip config, clients !! ip = Some config ∧ name ∈ BlocklistRefs config) ∧
    (is_Some ((map_fold step (∅, ∅) clients).2 !! name)
       ↔ ∃ ip config, clients !! ip = Some config ∧ name ∈ WhitelistRefs config))
    as Hfold.
  { intros clients.
    apply (map_fold_weak_ind (λ acc (clients : gmap string ClientConfig),
      (is_Some (acc.1 !! name)
         ↔ ∃ ip config, clients !! ip = Some config ∧ name ∈ BlocklistRefs config) ∧
      (is_Some (acc.2 !! name)
         ↔ ∃ ip config, clients !! ip = Some config ∧ name ∈ WhitelistRefs config))).
    - simpl. rewrite lookup_empty.
      split; (split; [by intros [? ?]|]); intros (ip & config & Hl & _);
        by rewrite lookup_empty in Hl.
    - intros ip config m [bm wm] Hfresh [IHb IHw]. simpl in *.
      rewrite !lookup_mark_all, IHb, IHw.
      split; (split;
        [ intros [(ip' & config' & Hl & Hin)|Hin];
          [ exists ip', config'; split; [|done];
            rewrite lookup_insert_ne; [done|]; intros ->; by rewrite Hfresh in Hl
          | exists ip, config; split; [apply lookup_insert_eq|done] ]
        | intros (ip' & config' & Hl & Hin);
          destruct (decide (ip = ip')) as [->|Hne];
          [ rewrite lookup_insert_eq in Hl; injection Hl as <-; by right
          | rewrite lookup_insert_ne in Hl by done; left; by exists ip', config' ] ]). }
  destruct (Hfold (Clients df)) as [Hb Hw].
  fold step. destruct (map_fold step (∅, ∅) (Clients df)) as [bm wm].
  cbn [fst snd] in *. rewrite !elem_of_mapKeysToSlice, Hb, Hw.
  split; reflexivity.
Qed.

Lemma lookup_loadLists (fs : Disk) (dir : string) (lists : list string)
    (name : string) (trie : Node) :
  loadLists fs dir lists !! name = Some trie
  ↔ name ∈ lists ∧ LoadDomainList fs (filepathJoin dir name) = inl trie.
Proof.
  unfold loadLists. induction lists as [|list lists IH] using rev_ind.
  - simpl. rewrite lookup_empty, elem_of_nil. split; [done|tauto].
  - rewrite foldl_app, elem_of_app, list_elem_of_singleton. simpl.
    destruct (decide (name = list)) as [->|Hne].
    + destruct (LoadDomainList fs (filepathJoin dir list)) as [t|err] eqn:Hload.
      * rewrite lookup_insert_eq. split.
        -- intros [= ->]. split; [by right|done].
        -- by intros [_ [= ->]].
      * rewrite IH. split; [by intros [_ ?]|by intros [_ ?]].
    + destruct (LoadDomainList fs (filepathJoin dir list)) as [t|err].
      * rewrite lookup_insert_ne by done. rewrite IH. tauto.
      * rewrite IH. tauto.
Qed.

(** What [Initialize] loads when the client document can be read. *)
Lemma Initialize_loaded (df : DNSFilter) (fs : Disk)
    (clients : gmap string ClientConfig) :
  LoadClientConfig fs (ConfigPath df) = inl clients →
  (Initialize df fs).1 = None ∧
  Clients (Initialize df fs).2 = clients ∧
  ∀ listType tries, triesOf (Initialize df fs).2 listType = Some tries →
    ∀ name trie,
      tries !! name = Some trie
      ↔ referenced (Initialize df fs).2 listType name ∧
        LoadDomainList fs (listFile df listType name) = inl trie.
Proof.
  intros Hload. unfold Initialize. rewrite Hload.
  set (df0 := mkDNSFilter (ConfigPath df) (BlocklistDir df) (WhitelistDir df)
                          ∅ ∅ clients).
  pose proof (collectUniqueListFiles_spec df0) as Hcollect.
  destruct (collectUniqueListFiles df0) as [blocklists whitelists].
  cbn [fst snd Clients]. split; [done|]. split; [done|].
  intros listType tries Htries name trie.
  specialize (Hcollect name). simpl in Hcollect.
  unfold triesOf in Htries. unfold listFile, referenced, refsOf in *.
  repeat case_decide; simplify_eq; simpl.
  - rewrite lookup_loadLists. by rewrite (proj1 Hcollect).
  - rewrite lookup_loadLists. by rewrite (proj2 Hcollect).
Qed.

(** X19. When the client document can be read, [Initialize] succeeds, the
    registry is the document, and the lists loaded are exactly the lists
    some policy names, in the ref-set of their type, whose file can be
    loaded: a list no policy names is not loaded although its file
    exists, and a policy may name a list that is not loaded. *)
Theorem Initialize_loads_referenced_lists (df : DNSFilter) (fs : Disk)
    (clients : gmap string ClientConfig) :
  LoadClientConfig fs (ConfigPath df) = inl clients →
  (Initialize df fs).1 = None ∧
  Clients (Initialize df fs).2 = clients ∧
  ∀ listType tries, triesOf (Initialize df fs).2 listType = Some tries →
    ∀ name trie,
      tries !! name = Some trie
      ↔ referenced (Initialize df fs).2 listType name ∧
        LoadDomainList fs (listFile df listType name) = inl trie.
Proof. exact (Initialize_loaded df fs clients). Qed.

(** A document with one policy that names two deny lists, of which one
    has a file, and a further list file that no policy names. *)
Lemma Initialize_loads_referenced_lists_witness :
  let clients : gmap string ClientConfig :=
    {[ "10.0.0.1" := mkClientConfig "" ["ads"; "gone"] [] "blocklist" ]} in
  let fs := mkDisk {[ "/clients.json" := ClientsFile clients;
                      "/blocklists/ads" := TextFile "example.com";
                      "/blocklists/spare" := TextFile "spare.org" ]}
                   true "2025-04-12T10:30:00Z" in
  let df := NewDNSFilter "/clients.json" "/blocklists" "/whitelists" in
  (Initialize df fs).1 = None ∧
  BlocklistTries (Initialize df fs).2 !! "spare" = None ∧
  BlocklistTries (Initialize df fs).2 !! "gone" = None ∧
  is_Some (BlocklistTries (Initialize df fs).2 !! "ads").
Proof.
  intros clients fs df.
  assert (LoadClientConfig fs (ConfigPath df) = inl clients) as Hload by done.
  destruct (Initialize_loads_referenced_lists df fs clients Hload)
    as (Hok & Hclients & Hlists).
  specialize (Hlists "blocklist" _ eq_refl).
  split; [done|]. split; [|split].
  - apply eq_None_not_Some. intros [trie Htrie].
    apply Hlists in Htrie as [(ip & config & Hip & Hin) _].
    rewrite Hclients in Hip. apply lookup_singleton_Some in Hip as [_ <-].
    unfold refsOf in Hin. simpl in Hin.
    apply elem_of_cons in Hin as [Hin|Hin]; [done|].
    by apply list_elem_of_singleton in Hin.
  - apply eq_None_not_Some. intros [trie Htrie].
    by apply Hlists in Htrie as [_ Hfile].
  - exists (loadText "example.com"). apply Hlists. split; [|done].
    exists "10.0.0.1", (mkClientConfig "" ["ads"; "gone"] [] "blocklist").
    rewrite Hclients. split; [apply lookup_insert_eq|].
    unfold refsOf. simpl. by left.
Defined.




Lemma GetAllClients_fmap (df : DNSFilter) :
  GetAllClients df
  = reverse ((λ '(ip, config),
                mkClientConfig ip (BlocklistRefs config) (WhitelistRefs config)
                               (Mode config))
             <$> map_to_list (Clients df)).
Proof.
  unfold GetAllClients. rewrite map_fold_foldr.
  induction (map_to_list (Clients df)) as [|[ip config] l IH]; simpl; [done|].
  by rewrite IH, reverse_cons.
Qed.

(** X21. [GetAllClients] returns what [GetClientByIP] returns, once for
    each address of the registry: a client is in the listing exactly when
    [GetClientByIP] returns it for its address, no address occurs twice,
    and the address of each client is the key of its policy, whatever
    address the stored policy carries. *)
Theorem GetAllClients_agrees_with_GetClientByIP (df : DNSFilter) :
  (∀ client, client ∈ GetAllClients df
             ↔ GetClientByIP df (IP client) = inl client) ∧
  NoDup (IP <$> GetAllClients df) ∧
  length (GetAllClients df) = size (Clients df).
Proof.
  rewrite GetAllClients_fmap. split; [|split].
  - intros client. rewrite elem_of_reverse, list_elem_of_fmap.
    unfold GetClientByIP. split.
    + intros ([ip config] & -> & Hin). apply elem_of_map_to_list in Hin.
      simpl. by rewrite Hin.
    + intros Hget. destruct (Clients df !! IP client) as [config|] eqn:Hin; [|done].
      injection Hget as <-. exists (IP client, config). split; [done|].
      by apply elem_of_map_to_list.
  - rewrite fmap_reverse. rewrite reverse_Permutation, <- list_fmap_compose.
    rewrite (list_fmap_ext _ fst (map_to_list (Clients df)));
      [apply NoDup_fst_map_to_list|].
    by intros i [ip config] _.
  - rewrite length_reverse, length_fmap. by rewrite length_map_to_list.
Qed.

Lemma anyListMatches_same_loaded (tries tries' : gmap string Node)
    (refs : list string) (name : string) :
  (∀ list, list ∈ refs → tries' !! list = tries !! list) →
  anyListMatches tries' refs name = anyListMatches tries refs name.
Proof.
  intros Hsame. apply bool_eq_iff. rewrite !anyListMatches_true.
  unfold someLoadedListMatches.
  split; intros (n & t & Hin & Ht & Hm); exists n, t;
    (split; [done|split; [|done]]).
  - by rewrite <- Hsame.
  - by rewrite Hsame.
Qed.

(** X22. A restart keeps every decision.  When the registry is valid and
    the disk holds the filter, [Initialize] succeeds and [CheckDomain]
    decides after it as before, for every client and every name; the
    lists that no policy names are not loaded again. *)
Theorem restart_keeps_decisions (df : DNSFilter) (fs : Disk) :
  validRegistry df → onDisk df fs →
  (Initialize df fs).1 = None ∧
  (∀ ip name, CheckDomain (Initialize df fs).2 ip name = CheckDomain df ip name) ∧
  (∀ listType tries name,
     triesOf (Initialize df fs).2 listType = Some tries →
     ¬ referenced df listType name → tries !! name = None).
Proof.
  intros Hvalid [Hdoc Hfiles].
  destruct (Initialize_loaded df fs (Clients df) Hdoc) as (Hok & Hclients & Hlists).
  split; [done|]. split.
  - intros ip name. unfold CheckDomain. rewrite Hclients.
    destruct (Clients df !! ip) as [config|] eqn:Hip; [|done].
    destruct (Hvalid ip config Hip) as (Hb & Hw & _).
    assert (∀ listType tries tries' refs,
      triesOf df listType = Some tries →
      triesOf (Initialize df fs).2 listType = Some tries' →
      refs = refsOf listType config →
      (∀ list, list ∈ refs → is_Some (tries !! list)) →
      anyListMatches tries' refs name = anyListMatches tries refs name) as Hsame.
    { intros listType tries tries' refs Ht Ht' -> Hloaded.
      apply anyListMatches_same_loaded. intros list Hin.
      destruct (Hloaded list Hin) as [trie Htrie]. rewrite Htrie.
      apply (Hlists listType _ Ht'). split.
      - exists ip, config. by rewrite Hclients.
      - by apply (Hfiles listType tries). }
    rewrite (Hsame "blocklist" (BlocklistTries df) _ (BlocklistRefs config))
      by done.
    by rewrite (Hsame "whitelist" (WhitelistTries df) _ (WhitelistRefs config))
      by done.
  - intros listType tries name Htries Hnot.
    apply eq_None_not_Some. intros [trie Htrie].
    apply (Hlists listType tries Htries) in Htrie as [(ip & config & Hip & Hin) _].
    apply Hnot. exists ip, config. by rewrite <- Hclients.
Qed.

(** The filter of scenario S1 with a second list that no policy names. *)
Lemma restart_keeps_decisions_witness :
  let clients : gmap string ClientConfig :=
    {[ "10.0.0.1" := mkClientConfig "" ["ads"] [] "blocklist" ]} in
  let df := mkDNSFilter "/clients.json" "/blocklists" "/whitelists"
              {[ "ads" := buildTrie ["example.com !mail"] ]} ∅ clients in
  let fs := mkDisk {[ "/clients.json" := ClientsFile clients;
                      "/blocklists/ads" := TextFile "example.com !mail" ]}
                   true "2025-04-12T10:30:00Z" in
  CheckDomain (Initialize df fs).2 "10.0.0.1" "www.example.com"
  = CheckDomain df "10.0.0.1" "www.example.com".
Proof.
  intros clients df fs.
  refine (proj1 (proj2 (restart_keeps_decisions df fs _ _)) _ _).
  - intros ip config Hip. unfold df in Hip. cbn [Clients] in Hip.
    apply lookup_singleton_Some in Hip as [_ <-]. simpl.
    split; [|split; [|by left]].
    + intros n ->%list_elem_of_singleton. by eexists.
    + by intros n ?%elem_of_nil.
  - split; [done|].
    intros listType tries name trie Htries Hname. unfold triesOf in Htries.
    repeat case_decide; simplify_eq; unfold df in Hname; simpl in Hname.
    by apply lookup_singleton_Some in Hname as [<- <-].
Defined.

(** ** Removal and letter case *)

Lemma filter_all {A} (P : A → Prop) `{∀ x, Decision (P x)} (l : list A) :
  (∀ x, x ∈ l → P x) → filter P l = l.
Proof.
  induction l as [|x l IH]; intros Hall; [done|].
  rewrite filter_cons, decide_True by (apply Hall; by left).
  f_equal. apply IH. intros y Hy. apply Hall. by right.
Qed.

(** X23. [RemoveDomains] compares the domains of a request as they are
    written with the domains of the list, which are in lower case: a
    request whose domains all have an upper-case letter removes nothing,
    and the list matches as before, although [AddDomains] stores the same
    words. *)
Theorem RemoveDomains_does_not_fold_case (df : DNSFilter) (fs : Disk)
    (name listType : string) (entries request : list string) :
  (∃ tries, triesOf df listType = Some tries ∧
            tries !! name = Some (buildTrie entries)) →
  Forall wellFormedEntry entries →
  (∀ r, r ∈ request →
        ToLower (ParseDomainWithExceptions r).1 ≠ (ParseDomainWithExceptions r).1) →
  ∃ trie',
    trieAfter (RemoveDomains name listType request df fs) listType name
    = Some trie' ∧
    ∀ query, IsDomainBlocked trie' query = IsDomainBlocked (buildTrie entries) query.
Proof.
  intros (tries & Ht & Hn) Hwf Hcase.
  exists (insertPairs NewNode (extractEntries (buildTrie entries) [])). split.
  - unfold RemoveDomains, trieAfter. rewrite Ht, Hn.
    rewrite (extractDomainsFromTrie_entries _ [] []). simpl app.
    rewrite keepRemaining_filter.
    2:{ apply Forall_forall. intros e He. by apply (enumerated_entry_parses entries). }
    rewrite filter_all.
    + pose proof (storeTrie_lookup df listType name
        (insertPairs NewNode (extractEntries (buildTrie entries) [])) tries Ht)
        as Hstored.
      destruct (SaveDomainList _ name listType _ fs) as [err fs']. simpl.
      by rewrite Hstored, lookup_insert_eq.
    + intros e He.
      destruct (default false (removalSet request !! e.1)) eqn:Hrm; [|done].
      apply removalSet_lookup in Hrm. unfold baseDomains in Hrm.
      apply list_elem_of_fmap in Hrm as (r & Hr & Hin).
      destruct (Hcase r Hin). rewrite <- Hr.
      unfold buildTrie in He. rewrite insertEntries_pairs in He.
      by apply enumerated_domain_lower in He.
  - intros query. unfold IsDomainBlocked, buildTrie. rewrite insertEntries_pairs.
    apply matchParts_same_content.
    + intros path _. apply reinsert_enumeration_content.
    + intros path label _ _. apply reinsert_enumeration_content.
Qed.

(** A list to which [Example.com] was added, and the request to remove
    [Example.com]. *)
Lemma RemoveDomains_does_not_fold_case_witness :
  let df := mkDNSFilter "/clients.json" "/blocklists" "/whitelists"
              {[ "ads" := buildTrie ["Example.com"] ]} ∅ ∅ in
  let fs := mkDisk ∅ true "2025-04-12T10:30:00Z" in
  ∃ trie',
    trieAfter (RemoveDomains "ads" "blocklist" ["Example.com"] df fs) "blocklist" "ads"
    = Some trie' ∧
    IsDomainBlocked trie' "www.example.com" = true.
Proof.
  intros df fs.
  destruct (RemoveDomains_does_not_fold_case df fs "ads" "blocklist"
              ["Example.com"] ["Example.com"]) as (trie' & Htrie & Hsame).
  - exists (BlocklistTries df). split; [done|]. apply lookup_insert_eq.
  - repeat constructor; by vm_compute.
  - intros r ->%list_elem_of_singleton. by vm_compute.
  - exists trie'. split; [done|]. by rewrite Hsame.
Defined.

(** ** The responses of the control plane *)

(** One answer of a handler: its status and its body are read off. *)
Ltac answer :=
  cbn [fst snd restapi.sendErrorResponse restapi.sendJSONResponse
       restapi.StatusCode restapi.Body];
  unfold restapi.StatusOK, restapi.StatusCreated, restapi.StatusNoContent,
         restapi.StatusBadRequest, restapi.StatusNotFound;
  split;
  [ first [ left; split; [tauto|done]
          | right; split; [tauto|by eexists] ]
  | split; intros Hstatus; first [discriminate Hstatus | reflexivity | tauto] ].

(** X24. A handler answers with one of five statuses, and the status tells
    the body: 200, 201 and 204 never carry an error object, 400 and 404
    always do.  A request answered 404 has changed nothing, and only the
    two creating handlers answer 201.  This holds of [createClient] on a
    registry that holds a client, and of every other handler on every
    filter. *)
Theorem handler_responses (handler : restapi.Request → DNSFilter → Disk
                                     → restapi.Response * DNSFilter * Disk)
    (r : restapi.Request) (df : DNSFilter) (fs : Disk) :
  handler ∈ handlers ∨ handler = restapi.createClient ∧ Clients df ≠ ∅ →
  ((restapi.StatusCode (responseOf (handler r df fs)) = restapi.StatusOK ∨
    restapi.StatusCode (responseOf (handler r df fs)) = restapi.StatusCreated ∨
    restapi.StatusCode (responseOf (handler r df fs)) = restapi.StatusNoContent) ∧
   (∀ message, restapi.Body (responseOf (handler r df fs))
               ≠ restapi.ErrorResponse message) ∨
   (restapi.StatusCode (responseOf (handler r df fs)) = restapi.StatusBadRequest ∨
    restapi.StatusCode (responseOf (handler r df fs)) = restapi.StatusNotFound) ∧
   (∃ message, restapi.Body (responseOf (handler r df fs))
               = restapi.ErrorResponse message)) ∧
  (restapi.StatusCode (responseOf (handler r df fs)) = restapi.StatusNotFound →
   handler r df fs = (responseOf (handler r df fs), df, fs)) ∧
  (restapi.StatusCode (responseOf (handler r df fs)) = restapi.StatusCreated →
   handler = restapi.createList ∨ handler = restapi.createClient).
Proof.
  unfold handlers, responseOf. rewrite !elem_of_cons, elem_of_nil.
  intros [[->|[->|[->|[->|[->|[->|[->|[->|[->|[->|[]]]]]]]]]]]|[-> _]].
  - unfold restapi.getListContent.
    destruct (negb _); [|destruct (GetListContent _ _ _)]; answer.
  - unfold restapi.createList.
    destruct (negb _); [|destruct (restapi.RequestBody r);
      [destruct (CreateList _ df fs) as [[[err|] df'] fs']|]]; answer.
  - unfold restapi.updateList.
    destruct (negb _); [|destruct (restapi.RequestBody r);
      [destruct (UpdateList _ df fs) as [[[err|] df'] fs']|]]; answer.
  - unfold restapi.deleteList.
    destruct (negb _); [|destruct (DeleteList _ _ df fs) as [[[err|] df'] fs']];
      answer.
  - unfold restapi.addDomains.
    destruct (negb _); [|destruct (restapi.RequestBody r);
      [destruct (AddDomains _ _ _ df fs) as [[[err|] df'] fs']|]]; answer.
  - unfold restapi.removeDomains.
    destruct (negb _); [|destruct (restapi.RequestBody r);
      [destruct (RemoveDomains _ _ _ df fs) as [[[err|] df'] fs']|]]; answer.
  - unfold restapi.getClientByIP. destruct (GetClientByIP _ _); answer.
  - unfold restapi.updateClient.
    destruct (restapi.RequestBody r);
      [destruct (UpdateClient _ df fs) as [[[err|] df'] fs']|]; answer.
  - unfold restapi.deleteClient.
    destruct (DeleteClient _ df fs) as [[[err|] df'] fs']; answer.
  - unfold restapi.checkDomain. answer.
  - unfold restapi.createClient.
    destruct (restapi.RequestBody r);
      [destruct (CreateClient _ df fs) as [[[err|] df'] fs']|]; answer.
Qed.

(** The request for the content of a list that is not loaded. *)
Lemma handler_responses_witness :
  let df := NewDNSFilter "/clients.json" "/blocklists" "/whitelists" in
  let fs := mkDisk ∅ true "2025-04-12T10:30:00Z" in
  let r := restapi.mkRequest "blocklist" "ads" "" "" None in
  restapi.getListContent r df fs
  = (responseOf (restapi.getListContent r df fs), df, fs).
Proof.
  intros df fs r.
  apply (proj1 (proj2 (handler_responses restapi.getListContent r df fs
                         ltac:(left; by left)))).
  reflexivity.
Defined.

(** ** Names below a name that matches *)

Section BelowAMatch.

Lemma matchParts_below root parts label rest :
  matchParts root parts = true →
  matchParts root (parts ++ label :: rest) = matchParts root (parts ++ [label]).
Proof.
  revert root. induction parts as [|part parts IH]; intros root; [done|].
  simpl. destruct (Children root !! part) as [child|]; [|done].
  destruct (IsEndpoint child).
  - intros _. by destruct parts.
  - apply IH.
Qed.

Lemma matchParts_below_excepted root parts label :
  matchParts root parts = true →
  matchParts root (parts ++ [label]) = false →
  endpointAt root parts = true ∧ exceptedAt root parts label = true.
Proof.
  revert root. induction parts as [|part parts IH]; intros root; [done|].
  unfold exceptedAt. rewrite endpointAt_child, exceptionsAt_child.
  simpl. destruct (Children root !! part) as [child|]; [|done]. simpl.
  destruct (IsEndpoint child) eqn:Hend.
  - destruct parts as [|next parts]; simpl.
    + intros _. unfold endpointAt, exceptionsAt. simpl. rewrite Hend.
      by destruct (default false (Exceptions child !! label)).
    + intros Hmatch Hnot. by rewrite Hmatch in Hnot.
  - apply IH.
Qed.

End BelowAMatch.

(** X25. Below a name that a list matches, the first label decides: every
    name under [sub.name] is matched exactly when [sub.name] is, and
    [sub.name] is let through only when [name] is itself the domain of an
    entry and the last label of [sub] is one of its exceptions. *)
Theorem names_below_a_match (root : Node) (name sub : string) :
  IsDomainBlocked root name = true →
  (∀ deeper, IsDomainBlocked root (deeper +:+ "." +:+ sub +:+ "." +:+ name)
             = IsDomainBlocked root (sub +:+ "." +:+ name)) ∧
  (IsDomainBlocked root (sub +:+ "." +:+ name) = false →
     endpointAt root (ReverseDomainParts name) = true ∧
     ∃ label, head (ReverseDomainParts sub) = Some label ∧
              exceptedAt root (ReverseDomainParts name) label = true).
Proof.
  unfold IsDomainBlocked. intros Hname.
  pose proof (ReverseDomainParts_nonempty sub) as Hsub.
  destruct (ReverseDomainParts sub) as [|label labels] eqn:Hparts; [done|].
  split.
  - intros deeper.
    change (deeper +:+ "." +:+ sub +:+ "." +:+ name)
      with (deeper +:+ "." +:+ (sub +:+ "." +:+ name)).
    rewrite !ReverseDomainParts_sub, Hparts, <- app_assoc. simpl.
    rewrite (matchParts_below _ _ label (labels ++ _)) by done.
    by rewrite (matchParts_below _ _ label labels).
  - rewrite ReverseDomainParts_sub, Hparts.
    rewrite (matchParts_below _ _ label labels) by done.
    intros Hfalse. destruct (matchParts_below_excepted _ _ _ Hname Hfalse).
    split; [done|]. by exists label.
Qed.

(** The list of scenario S1 and the names under [mail.example.com]. *)
Lemma names_below_a_match_witness :
  IsDomainBlocked (buildTrie ["example.com !mail"]) "a.b.mail.example.com"
  = IsDomainBlocked (buildTrie ["example.com !mail"]) "mail.example.com".
Proof.
  apply (proj1 (names_below_a_match (buildTrie ["example.com !mail"])
                  "example.com" "mail" ltac:(by vm_compute)) "a.b").
Defined.
